(** * go-tart: a shallow embedding of the Tart command-line client

    The Go package [tart] drives the [tart] executable through [os/exec].
    This development embeds its source ([main.go]; [run.go] with the
    registry operations; [mgmt.go] with the listing and the state queries)
    as Rocq functions over an explicit model of the operating system, and
    proves the properties of the process runner, the readiness watcher, the
    argument builders and the decoders.

    Conventions.
    - A Go [string] and a Go [[]byte] are both byte sequences: [string].
      A nil [[]byte] is the empty string.
    - A Go [int] is a [Z]; the code does no arithmetic on its integers, it
      only compares them with [0] and prints them with [%d].
    - A Go [error] is a value of the inductive type [error]; [nil] is
      [None] in [option error].
    - Code that talks to the operating system lives in the monad [IO]: a
      reader of the [World] (what the system would answer), a writer of the
      [Event]s performed, and a result that is [None] when the call blocks
      for ever. *)

From Stdlib Require Import String Ascii List ZArith Lia Bool DecimalString DecimalPos.
Import ListNotations.
Open Scope list_scope.
Open Scope string_scope.

Set Warnings "-register-all".

(** ** Strings *)

Module Strings.

(** [strings.HasPrefix]. *)
Fixpoint HasPrefix (s prefix : string) : bool :=
  match prefix, s with
  | EmptyString, _ => true
  | String _ _, EmptyString => false
  | String p ps, String c cs => Ascii.eqb p c && HasPrefix cs ps
  end.

(** [strings.Contains]: [substr] occurs at some position of [s]. *)
Fixpoint Contains (s substr : string) : bool :=
  HasPrefix s substr ||
  match s with
  | EmptyString => false
  | String _ cs => Contains cs substr
  end.

(** [fmt.Sprintf("%d", n)]. *)
Definition itoa (n : Z) : string := NilZero.string_of_int (Z.to_int n).

Definition nonempty (s : string) : bool := negb (String.eqb s "").

End Strings.
Import Strings.

(** Go's [append(args, elems...)] on string slices. *)
Notation "args +++ elems" := (@app string args elems)
  (at level 60, right associativity).

(** ** Errors *)

(** The error values the package creates or receives. [wrapError] is what
    [fmt.Errorf] builds for a format with one [%w]: the formatted text and
    the wrapped error. *)
Inductive error : Type :=
| errorString (msg : string)
| wrapError (msg : string) (err : error)
| EOF
| ExitError (code : Z)
| SyscallError (msg : string)
| SyntaxError (msg : string)
| UnmarshalTypeError (value field : string).

Definition Error (e : error) : string :=
  match e with
  | errorString m => m
  | wrapError m _ => m
  | EOF => "EOF"
  | ExitError c => "exit status " ++ itoa c
  | SyscallError m => m
  | SyntaxError m => m
  | UnmarshalTypeError v f =>
      "json: cannot unmarshal " ++ v ++ " into Go value of type " ++ f
  end.

(** [errors.Unwrap]. *)
Definition Unwrap (e : error) : option error :=
  match e with
  | wrapError _ inner => Some inner
  | _ => None
  end.

(** [fmt.Errorf(pre + "%w" + post, err)]. *)
Definition Errorf_w (pre : string) (err : error) (post : string) : error :=
  wrapError (pre ++ Error err ++ post) err.

(** ** The operating system *)

(** [exec.Cmd], with the fields the package reads or writes. [Env = None]
    is the nil slice: the child inherits the environment of the parent. *)
Record Cmd : Type := mkCmd {
  Path : string;
  Args : list string;
  Env : option (list string)
}.

Definition exec_Command (name : string) (args : list string) : Cmd :=
  {| Path := name; Args := args; Env := None |}.

(** How a byte stream ends: end of file, a read error that is not end of
    file, or never (the writer keeps the stream open and writes no more). *)
Inductive StreamEnd : Type :=
| AtEOF
| Broken (msg : string)
| StaysOpen.

Record Stream : Type := mkStream {
  s_data : string;
  s_end : StreamEnd
}.

(** What the system does with one command: whether the pipes can be made,
    whether the process starts, what the child writes, and the exit status
    ([None]: the child never exits). *)
Record Child : Type := mkChild {
  stdoutPipeErr : option error;
  stderrPipeErr : option error;
  startErr : option error;
  child_stdout : Stream;
  child_stderr : Stream;
  child_exit : option Z
}.

Inductive StatResult : Type :=
| StatOk
| StatNotExist
| StatOtherError.

Record World : Type := mkWorld {
  w_stat : string -> StatResult;
  w_environ : list string;
  w_spawn : Cmd -> Child
}.

(** What a call did to the system. *)
Inductive Event : Type :=
| Spawned (c : Cmd)
| StartFailed (c : Cmd)
| Waited (c : Cmd)
| Printed (line : string).

Definition Trace := list Event.

(** ** The monad of system calls *)

Definition IO (A : Type) : Type := World -> Trace * option A.

Definition ret {A} (a : A) : IO A := fun _ => ([], Some a).

Definition bind {A B} (m : IO A) (k : A -> IO B) : IO B :=
  fun w =>
    match m w with
    | (tr, None) => (tr, None)
    | (tr, Some a) => let (tr', b) := k a w in ((tr ++ tr')%list, b)
    end.

Definition emit (e : Event) : IO unit := fun _ => ([e], Some tt).

Definition block {A} : IO A := fun _ => ([], None).

Definition ask : IO World := fun w => ([], Some w).

Notation "x <- m ;; k" := (bind m (fun x => k))
  (at level 61, m at next level, right associativity).
Notation "' p <- m ;; k" := (bind m (fun x => match x with p => k end))
  (at level 61, p pattern, m at next level, right associativity).
Notation "m ;;; k" := (bind m (fun _ => k))
  (at level 61, right associativity).

Definition trace_of {A} (m : IO A) (w : World) : Trace := fst (m w).
Definition result_of {A} (m : IO A) (w : World) : option A := snd (m w).

(** The commands whose child process was created, in order. *)
Fixpoint spawns (tr : Trace) : list Cmd :=
  match tr with
  | [] => []
  | Spawned c :: tr' => c :: spawns tr'
  | _ :: tr' => spawns tr'
  end.

(** The commands whose start was attempted, in order. *)
Fixpoint starts (tr : Trace) : list Cmd :=
  match tr with
  | [] => []
  | Spawned c :: tr' => c :: starts tr'
  | StartFailed c :: tr' => c :: starts tr'
  | _ :: tr' => starts tr'
  end.

(** *** System calls *)

Definition os_Stat (path : string) : IO StatResult :=
  w <- ask ;; ret (w_stat w path).

Definition os_Environ : IO (list string) :=
  w <- ask ;; ret (w_environ w).

(** [os.IsNotExist] of the error of [os.Stat]. *)
Definition IsNotExist (r : StatResult) : bool :=
  match r with StatNotExist => true | _ => false end.

(** [cmd.StdoutPipe()], [cmd.StderrPipe()]: the reading end, or an error. *)
Definition StdoutPipe (c : Cmd) : IO (Stream + error) :=
  w <- ask ;;
  match stdoutPipeErr (w_spawn w c) with
  | Some e => ret (inr e)
  | None => ret (inl (child_stdout (w_spawn w c)))
  end.

Definition StderrPipe (c : Cmd) : IO (Stream + error) :=
  w <- ask ;;
  match stderrPipeErr (w_spawn w c) with
  | Some e => ret (inr e)
  | None => ret (inl (child_stderr (w_spawn w c)))
  end.

(** [cmd.Start()]. *)
Definition Start (c : Cmd) : IO (option error) :=
  w <- ask ;;
  match startErr (w_spawn w c) with
  | Some e => emit (StartFailed c) ;;; ret (Some e)
  | None => emit (Spawned c) ;;; ret None
  end.

(** [cmd.Wait()]: blocks until the child exits; an [*exec.ExitError] when
    the exit status is not zero. *)
Definition Wait (c : Cmd) : IO (option error) :=
  w <- ask ;;
  emit (Waited c) ;;;
  match child_exit (w_spawn w c) with
  | None => block
  | Some code => if (code =? 0)%Z then ret None else ret (Some (ExitError code))
  end.

(** [io.ReadAll]: everything up to the end of the stream; end of file is
    not an error here. Blocks for ever on a stream that stays open. *)
Definition ReadAll (s : Stream) : IO (string * option error) :=
  match s_end s with
  | AtEOF => ret (s_data s, None)
  | Broken m => ret (s_data s, Some (SyscallError m))
  | StaysOpen => block
  end.

(** ** main.go *)

Record Tart : Type := mkTart {
  ConfigDir : string;
  Host : string
}.

(** [setTartHome] writes to the command it is given; the updated command is
    returned next to the error. *)
Definition setTartHome (t : Tart) (cmd : Cmd) : IO (Cmd * option error) :=
  if nonempty (ConfigDir t) then
    st <- os_Stat (ConfigDir t) ;;
    if IsNotExist st then
      ret (cmd, Some (errorString "config directory does not exist"))
    else
      env <- os_Environ ;;
      ret ({| Path := Path cmd; Args := Args cmd;
              Env := Some (env ++ [("TART_HOME=" ++ ConfigDir t)%string])%list |}, None)
  else ret (cmd, None).

(** [run]: the error of [setTartHome] is dropped. *)
Definition run (t : Tart) (args : list string) : IO (string * option error) :=
  let cmd := exec_Command "tart" args in
  '(cmd, _) <- setTartHome t cmd ;;
  stdoutPipe <- StdoutPipe cmd ;;
  match stdoutPipe with
  | inr err => ret ("", Some (Errorf_w "failed to create stdout pipe: " err ""))
  | inl stdoutPipe =>
    stderrPipe <- StderrPipe cmd ;;
    match stderrPipe with
    | inr err => ret ("", Some (Errorf_w "failed to create stderr pipe: " err ""))
    | inl stderrPipe =>
      err <- Start cmd ;;
      match err with
      | Some err => ret ("", Some (Errorf_w "failed to start command: " err ""))
      | None =>
        '(stdout, err) <- ReadAll stdoutPipe ;;
        match err with
        | Some err => ret ("", Some (Errorf_w "failed to read stdout: " err ""))
        | None =>
          '(stderr, err) <- ReadAll stderrPipe ;;
          match err with
          | Some err => ret ("", Some (Errorf_w "failed to read stderr: " err ""))
          | None =>
            err <- Wait cmd ;;
            match err with
            | Some err =>
                ret ("", Some (Errorf_w "command failed: " err (", stderr: " ++ stderr)))
            | None => ret (stdout, None)
            end
          end
        end
      end
    end
  end.

(** ** encoding/json, as far as [List] uses it *)

Module JSON.

(** A JSON text after the scanner: numbers keep their literal, strings
    are unquoted, object members keep their order and their duplicates. *)
Inductive value : Type :=
| Null
| Bool (b : bool)
| Number (lit : string)
| Str (s : string)
| Array (elems : list value)
| Object (members : list (string * value)).

Definition byte (c : ascii) : N := N_of_ascii c.

Definition isSpace (c : ascii) : bool :=
  match byte c with
  | 32%N | 9%N | 13%N | 10%N => true
  | _ => false
  end.

Definition isDigit (c : ascii) : bool :=
  ((48 <=? byte c) && (byte c <=? 57))%N.

Fixpoint skipSpace (s : string) : string :=
  match s with
  | String c r => if isSpace c then skipSpace r else s
  | EmptyString => s
  end.

(** The longest prefix of digits, and what follows it. *)
Fixpoint digits (s : string) : string * string :=
  match s with
  | String c r =>
      if isDigit c then let (d, r') := digits r in (String c d, r')
      else (EmptyString, s)
  | EmptyString => (EmptyString, s)
  end.

Definition digits1 (s : string) : option (string * string) :=
  match digits s with
  | (EmptyString, _) => None
  | (d, r) => Some (d, r)
  end.

(** An optional minus sign, then a single zero or a run of digits that
    does not start with zero. *)
Definition scanSign (s : string) : string * string :=
  match s with
  | String c r => if Ascii.eqb c "-" then ("-", r) else (EmptyString, s)
  | EmptyString => (EmptyString, s)
  end.

Definition scanInt (s : string) : option (string * string) :=
  let (sign, s1) := scanSign s in
  match s1 with
  | String c r =>
      if Ascii.eqb c "0" then Some (sign ++ "0", r)
      else
        match digits1 s1 with
        | Some (d, r) => Some (sign ++ d, r)
        | None => None
        end
  | EmptyString => None
  end.

Definition scanFrac (s : string) : option (string * string) :=
  match s with
  | String c r =>
      if Ascii.eqb c "." then
        match digits1 r with
        | Some (d, r') => Some (String "." d, r')
        | None => None
        end
      else Some (EmptyString, s)
  | EmptyString => Some (EmptyString, s)
  end.

Definition scanExp (s : string) : option (string * string) :=
  match s with
  | String c r =>
      if (Ascii.eqb c "e" || Ascii.eqb c "E")%bool then
        let (sign, r1) :=
          match r with
          | String x r' =>
              if Ascii.eqb x "+" then ("+", r')
              else if Ascii.eqb x "-" then ("-", r')
              else (EmptyString, r)
          | EmptyString => (EmptyString, r)
          end in
        match digits1 r1 with
        | Some (d, r') => Some (String c (sign ++ d), r')
        | None => None
        end
      else Some (EmptyString, s)
  | EmptyString => Some (EmptyString, s)
  end.

Definition scanNumber (s : string) : option (string * string) :=
  match scanInt s with
  | None => None
  | Some (i, r1) =>
      match scanFrac r1 with
      | None => None
      | Some (f, r2) =>
          match scanExp r2 with
          | None => None
          | Some (e, r3) => Some (i ++ f ++ e, r3)
          end
      end
  end.

(** *** Strings *)

Definition hexval (c : ascii) : option N :=
  let b := byte c in
  if ((48 <=? b) && (b <=? 57))%N then Some (b - 48)%N
  else if ((97 <=? b) && (b <=? 102))%N then Some (b - 87)%N
  else if ((65 <=? b) && (b <=? 70))%N then Some (b - 55)%N
  else None.

(** [getu4]: the value of four hex digits. *)
Definition hex4 (a b c d : ascii) : option N :=
  match hexval a, hexval b, hexval c, hexval d with
  | Some x, Some y, Some z, Some t => Some (((x * 16 + y) * 16 + z) * 16 + t)%N
  | _, _, _, _ => None
  end.

Definition chr (n : N) : ascii := ascii_of_N n.

(** [utf8.EncodeRune]. *)
Definition EncodeRune (r : N) : string :=
  if (r <? 128)%N then String (chr r) EmptyString
  else if (r <? 2048)%N then
    String (chr (192 + r / 64)) (String (chr (128 + r mod 64)) EmptyString)
  else if (r <? 65536)%N then
    String (chr (224 + r / 4096))
      (String (chr (128 + (r / 64) mod 64))
         (String (chr (128 + r mod 64)) EmptyString))
  else
    String (chr (240 + r / 262144))
      (String (chr (128 + (r / 4096) mod 64))
         (String (chr (128 + (r / 64) mod 64))
            (String (chr (128 + r mod 64)) EmptyString))).

Definition RuneError : N := 65533.

Definition isSurrogate (r : N) : bool := ((55296 <=? r) && (r <? 57344))%N.

(** [utf16.DecodeRune]. *)
Definition DecodeSurrogates (r1 r2 : N) : N :=
  if ((55296 <=? r1) && (r1 <? 56320) && (56320 <=? r2) && (r2 <? 57344))%N
  then ((r1 - 55296) * 1024 + (r2 - 56320) + 65536)%N
  else RuneError.

Definition cont (c : ascii) : bool := ((128 <=? byte c) && (byte c <=? 191))%N.
Definition between (lo hi : N) (c : ascii) : bool :=
  ((lo <=? byte c) && (byte c <=? hi))%N.

(** The width of the UTF-8 sequence [s] starts with; [0] when it starts
    with none ([utf8.DecodeRune] answers [RuneError] with width one). *)
Definition utf8_width (s : string) : nat :=
  match s with
  | String a r =>
      if (byte a <? 128)%N then 1
      else
        match r with
        | String b r1 =>
            if between 194 223 a && cont b then 2
            else
              match r1 with
              | String c r2 =>
                  if (Ascii.eqb a (chr 224) && between 160 191 b && cont c)
                     || ((between 225 236 a || between 238 239 a) && cont b && cont c)
                     || (Ascii.eqb a (chr 237) && between 128 159 b && cont c)
                  then 3
                  else
                    match r2 with
                    | String d _ =>
                        if (Ascii.eqb a (chr 240) && between 144 191 b && cont c && cont d)
                           || (between 241 243 a && cont b && cont c && cont d)
                           || (Ascii.eqb a (chr 244) && between 128 143 b && cont c && cont d)
                        then 4 else 0
                    | EmptyString => 0
                    end
              | EmptyString => 0
              end
        | EmptyString => 0
        end
  | EmptyString => 0
  end.

Definition quote : ascii := "034".
Definition backslash : ascii := "\".

(** The character a one-letter escape stands for. *)
Definition unescape (e : ascii) : option ascii :=
  match byte e with
  | 34%N => Some quote
  | 92%N => Some backslash
  | 47%N => Some "/"%char
  | 98%N => Some (chr 8)
  | 102%N => Some (chr 12)
  | 110%N => Some (chr 10)
  | 114%N => Some (chr 13)
  | 116%N => Some (chr 9)
  | _ => None
  end.

Definition emit1 (c : ascii) (r : option (string * string)) : option (string * string) :=
  match r with
  | Some (str, rest) => Some (String c str, rest)
  | None => None
  end.

Definition emitRune (rune : N) (r : option (string * string)) : option (string * string) :=
  match r with
  | Some (str, rest) => Some (EncodeRune rune ++ str, rest)
  | None => None
  end.

(** A string literal after its opening quote: the scanner's check and
    [unquote] in one pass. The result is the unquoted text and what follows
    the closing quote. [copy] counts the continuation bytes of a valid
    UTF-8 sequence still to be copied; a byte that starts no valid sequence
    becomes U+FFFD. *)
Fixpoint scanString (copy : nat) (s : string) : option (string * string) :=
  match s with
  | EmptyString => None
  | String c r =>
    match copy with
    | S k => emit1 c (scanString k r)
    | O =>
      if Ascii.eqb c quote then Some (EmptyString, r)
      else if Ascii.eqb c backslash then
        match r with
        | String e r1 =>
          if Ascii.eqb e "u" then
            match r1 with
            | String h1 (String h2 (String h3 (String h4 r2))) =>
              match hex4 h1 h2 h3 h4 with
              | None => None
              | Some rr =>
                if isSurrogate rr then
                  match r2 with
                  | String b2 (String u2 (String g1 (String g2 (String g3 (String g4 r3))))) =>
                    if Ascii.eqb b2 backslash && Ascii.eqb u2 "u" then
                      match hex4 g1 g2 g3 g4 with
                      | Some rr1 =>
                          let dec := DecodeSurrogates rr rr1 in
                          if (dec =? RuneError)%N
                          then emitRune RuneError (scanString 0 r2)
                          else emitRune dec (scanString 0 r3)
                      | None => emitRune RuneError (scanString 0 r2)
                      end
                    else emitRune RuneError (scanString 0 r2)
                  | _ => emitRune RuneError (scanString 0 r2)
                  end
                else emitRune rr (scanString 0 r2)
              end
            | _ => None
            end
          else
            match unescape e with
            | Some ch => emit1 ch (scanString 0 r1)
            | None => None
            end
        | EmptyString => None
        end
      else if (byte c <? 32)%N then None
      else
        match utf8_width s with
        | O => emitRune RuneError (scanString 0 r)
        | S k => emit1 c (scanString k r)
        end
    end
  end.

(** *** Values *)

(** What follows [prefix] in [s], when [s] starts with it. *)
Fixpoint stripPrefix (prefix s : string) : option string :=
  match prefix, s with
  | EmptyString, _ => Some s
  | String _ _, EmptyString => None
  | String p ps, String c cs => if Ascii.eqb p c then stripPrefix ps cs else None
  end.

Definition literal (word : string) (v : value) (s : string) : option (value * string) :=
  match stripPrefix word s with
  | Some r => Some (v, r)
  | None => None
  end.

Section Containers.

Variable parseValue : string -> option (value * string).

(** The elements of an array after the first check for an empty array, up
    to and including the closing bracket. *)
Fixpoint parseElems (fuel : nat) (s : string) : option (list value * string) :=
  match fuel with
  | O => None
  | S f =>
    match parseValue s with
    | None => None
    | Some (v, r) =>
      match skipSpace r with
      | String c r' =>
          if Ascii.eqb c "," then
            match parseElems f r' with
            | Some (vs, r'') => Some (v :: vs, r'')
            | None => None
            end
          else if Ascii.eqb c "]" then Some ([v], r')
          else None
      | EmptyString => None
      end
    end
  end.

(** The members of an object, up to and including the closing brace. *)
Fixpoint parseMembers (fuel : nat) (s : string) : option (list (string * value) * string) :=
  match fuel with
  | O => None
  | S f =>
    match skipSpace s with
    | String q r =>
      if Ascii.eqb q quote then
        match scanString 0 r with
        | None => None
        | Some (key, r1) =>
          match skipSpace r1 with
          | String colon r2 =>
            if Ascii.eqb colon ":" then
              match parseValue r2 with
              | None => None
              | Some (v, r3) =>
                match skipSpace r3 with
                | String c r4 =>
                    if Ascii.eqb c "," then
                      match parseMembers f r4 with
                      | Some (ms, r5) => Some ((key, v) :: ms, r5)
                      | None => None
                      end
                    else if Ascii.eqb c "}" then Some ([(key, v)], r4)
                    else None
                | EmptyString => None
                end
              end
            else None
          | EmptyString => None
          end
        end
      else None
    | EmptyString => None
    end
  end.

(** One value, after optional white space; the values inside an array or
    an object are read by [parseValue]. [deep] says that an array or an
    object here would be nested deeper than the scanner allows. *)
Definition parseOne (fuel : nat) (deep : bool) (s : string) : option (value * string) :=
  match skipSpace s with
  | EmptyString => None
  | String c r as s' =>
    if Ascii.eqb c "n" then literal "null" Null s'
    else if Ascii.eqb c "t" then literal "true" (Bool true) s'
    else if Ascii.eqb c "f" then literal "false" (Bool false) s'
    else if Ascii.eqb c quote then
      match scanString 0 r with
      | Some (str, r') => Some (Str str, r')
      | None => None
      end
    else if (Ascii.eqb c "[" || Ascii.eqb c "{") && deep then None
    else if Ascii.eqb c "[" then
      match stripPrefix "]" (skipSpace r) with
      | Some r' => Some (Array [], r')
      | None =>
        match parseElems fuel r with
        | Some (vs, r') => Some (Array vs, r')
        | None => None
        end
      end
    else if Ascii.eqb c "{" then
      match stripPrefix "}" (skipSpace r) with
      | Some r' => Some (Object [], r')
      | None =>
        match parseMembers fuel r with
        | Some (ms, r') => Some (Object ms, r')
        | None => None
        end
      end
    else
      match scanNumber s' with
      | Some (lit, r') => Some (Number lit, r')
      | None => None
      end
  end.

End Containers.

(** [maxNestingDepth] of the scanner. *)
Definition maxNestingDepth : N := 10000.

(** A value inside [depth] arrays and objects, itself nested at most
    [fuel] deep in arrays and objects of at most [fuel] entries. Opening
    one more array or object than [maxNestingDepth] is a syntax error. *)
Fixpoint parseValue (fuel : nat) (depth : N) (s : string) : option (value * string) :=
  match fuel with
  | O => None
  | S f => parseOne (parseValue f (depth + 1)) f (maxNestingDepth <? depth + 1)%N s
  end.

(** A whole JSON text: one value, white space around it, nothing else.
    [None] is the [SyntaxError] of [checkValid]. The fuel is more than the
    text can use up: every nested call is made on a shorter text, so that
    more fuel gives the same answer. *)
Definition parse (s : string) : option value :=
  match parseValue (S (String.length s)) 0 s with
  | Some (v, r) =>
      match skipSpace r with
      | EmptyString => Some v
      | _ => None
      end
  | None => None
  end.

(** A parser that leaves less than it was given. *)
Definition shortens {A : Type} (p : string -> option (A * string)) : Prop :=
  forall s a r, p s = Some (a, r) -> String.length r < String.length s.

(** Two value parsers that agree on the texts shorter than [n]. *)
Definition agree_below (n : nat) (p q : string -> option (value * string)) : Prop :=
  forall s, String.length s < n -> p s = q s.

End JSON.

(** ** strings.TrimSpace *)

Module Unicode.

Definition byte (c : ascii) : N := N_of_ascii c.

(** The one-byte white space of [unicode.IsSpace]: tab, line feed,
    vertical tab, form feed, carriage return, space. *)
Definition space1 (a : ascii) : bool :=
  match byte a with
  | 9%N | 10%N | 11%N | 12%N | 13%N | 32%N => true
  | _ => false
  end.

(** U+0085 and U+00A0 in UTF-8. *)
Definition space2 (a b : ascii) : bool :=
  match byte a, byte b with
  | 194%N, 133%N | 194%N, 160%N => true
  | _, _ => false
  end.

(** U+1680, U+2000 to U+200A, U+2028, U+2029, U+202F, U+205F and U+3000 in
    UTF-8. *)
Definition space3 (a b c : ascii) : bool :=
  match byte a, byte b, byte c with
  | 225%N, 154%N, 128%N => true
  | 226%N, 128%N, n => ((128 <=? n) && (n <=? 138) || (n =? 168) || (n =? 169) || (n =? 175))%N
  | 226%N, 129%N, 159%N => true
  | 227%N, 128%N, 128%N => true
  | _, _, _ => false
  end.

(** [strings.TrimLeftFunc(s, unicode.IsSpace)]: drop the white-space runes
    the text starts with. *)
Fixpoint TrimLeft (s : string) : string :=
  match s with
  | EmptyString => s
  | String a r =>
    if space1 a then TrimLeft r
    else
      match r with
      | String b r1 =>
        if space2 a b then TrimLeft r1
        else
          match r1 with
          | String c r2 => if space3 a b c then TrimLeft r2 else s
          | EmptyString => s
          end
      | EmptyString => s
      end
  end.

Fixpoint rev_append (s acc : string) : string :=
  match s with
  | EmptyString => acc
  | String c r => rev_append r (String c acc)
  end.

Definition rev (s : string) : string := rev_append s EmptyString.

(** [TrimLeft] on the reversed text: the runes are read last byte first. *)
Fixpoint TrimLeftRev (s : string) : string :=
  match s with
  | EmptyString => s
  | String a r =>
    if space1 a then TrimLeftRev r
    else
      match r with
      | String b r1 =>
        if space2 b a then TrimLeftRev r1
        else
          match r1 with
          | String c r2 => if space3 c b a then TrimLeftRev r2 else s
          | EmptyString => s
          end
      | EmptyString => s
      end
  end.

(** [strings.TrimRightFunc(s, unicode.IsSpace)]. *)
Definition TrimRight (s : string) : string := rev (TrimLeftRev (rev s)).

(** [strings.TrimSpace]. *)
Definition TrimSpace (s : string) : string := TrimRight (TrimLeft s).

(** A text made of white-space runes only. *)
Inductive white : string -> Prop :=
| white_nil : white EmptyString
| white_1 a s : space1 a = true -> white s -> white (String a s)
| white_2 a b s : space2 a b = true -> white s -> white (String a (String b s))
| white_3 a b c s :
    space3 a b c = true -> white s -> white (String a (String b (String c s))).

End Unicode.

(** ** mgmt.go: listing and state *)

Definition SourceLocal : string := "local".
Definition SourceRemote : string := "remote".

Module ListOptions.
Record t : Type := mk { Source : option string }.
(** [ListOptions{}]. *)
Definition zero : t := {| Source := None |}.
End ListOptions.

Module VMState.
Record t : Type := mk {
  SizeOnDisk : Z;
  Disk : Z;
  Name : string;
  Source : string;
  Size : Z;
  State : string
}.
(** [var ret VMState]. *)
Definition zero : t :=
  {| SizeOnDisk := 0; Disk := 0; Name := ""; Source := ""; Size := 0; State := "" |}.

(** The values a Go [int] holds on the 64-bit hosts Tart runs on. *)
Definition int_range (n : Z) : Prop := (- 2 ^ 63 <= n < 2 ^ 63)%Z.
Definition wf (v : t) : Prop :=
  int_range (SizeOnDisk v) /\ int_range (Disk v) /\ int_range (Size v).
End VMState.

(** *** Decoding a [VMState] *)

Module Decode.
Import JSON.

Inductive Field : Type :=
| FSizeOnDisk | FDisk | FName | FSource | FSize | FState.

Definition fields : list Field :=
  [FSizeOnDisk; FDisk; FName; FSource; FSize; FState].

(** The [json:] tag of each field. *)
Definition tag (f : Field) : string :=
  match f with
  | FSizeOnDisk => "sizeOnDisk"
  | FDisk => "disk"
  | FName => "name"
  | FSource => "source"
  | FSize => "size"
  | FState => "state"
  end.

(** [foldName]: ASCII letters in upper case; the Kelvin sign and the long s
    fold to [K] and [S]. No other rune folds to an ASCII letter. *)
Fixpoint foldName (s : string) : string :=
  match s with
  | EmptyString => s
  | String a r =>
    let n := byte a in
    if ((97 <=? n) && (n <=? 122))%N then String (chr (n - 32)) (foldName r)
    else
      match r with
      | String b r1 =>
        if ((n =? 197) && (byte b =? 191))%N then String "S" (foldName r1)
        else
          match r1 with
          | String c r2 =>
            if ((n =? 226) && (byte b =? 132) && (byte c =? 170))%N
            then String "K" (foldName r2)
            else String a (foldName r)
          | EmptyString => String a (foldName r)
          end
      | EmptyString => String a (foldName r)
      end
  end.

(** The field a key names: an exact match with a tag, else a match up to
    case folding. *)
Definition lookupField (key : string) : option Field :=
  match find (fun f => String.eqb (tag f) key) fields with
  | Some f => Some f
  | None => find (fun f => String.eqb (foldName (tag f)) (foldName key)) fields
  end.

Fixpoint digitsValue (s : string) (acc : Z) : option Z :=
  match s with
  | EmptyString => Some acc
  | String c r =>
    if isDigit c then digitsValue r (acc * 10 + Z.of_N (byte c - 48))%Z
    else None
  end.

(** [strconv.ParseInt(s, 10, 64)]. *)
Definition ParseInt (s : string) : option Z :=
  let (neg, body) :=
    match s with
    | String c r =>
        if Ascii.eqb c "-" then (true, r)
        else if Ascii.eqb c "+" then (false, r)
        else (false, s)
    | EmptyString => (false, s)
    end in
  match body with
  | EmptyString => None
  | _ =>
    match digitsValue body 0 with
    | None => None
    | Some n =>
      let v := if neg then (- n)%Z else n in
      if ((- 2 ^ 63 <=? v) && (v <? 2 ^ 63))%Z then Some v else None
    end
  end.

Definition isIntField (f : Field) : bool :=
  match f with
  | FSizeOnDisk | FDisk | FSize => true
  | _ => false
  end.

Definition setInt (f : Field) (n : Z) (v : VMState.t) : VMState.t :=
  match f with
  | FSizeOnDisk =>
      VMState.mk n (VMState.Disk v) (VMState.Name v) (VMState.Source v)
        (VMState.Size v) (VMState.State v)
  | FDisk =>
      VMState.mk (VMState.SizeOnDisk v) n (VMState.Name v) (VMState.Source v)
        (VMState.Size v) (VMState.State v)
  | FSize =>
      VMState.mk (VMState.SizeOnDisk v) (VMState.Disk v) (VMState.Name v)
        (VMState.Source v) n (VMState.State v)
  | _ => v
  end.

Definition setString (f : Field) (s : string) (v : VMState.t) : VMState.t :=
  match f with
  | FName =>
      VMState.mk (VMState.SizeOnDisk v) (VMState.Disk v) s (VMState.Source v)
        (VMState.Size v) (VMState.State v)
  | FSource =>
      VMState.mk (VMState.SizeOnDisk v) (VMState.Disk v) (VMState.Name v) s
        (VMState.Size v) (VMState.State v)
  | FState =>
      VMState.mk (VMState.SizeOnDisk v) (VMState.Disk v) (VMState.Name v)
        (VMState.Source v) (VMState.Size v) s
  | _ => v
  end.

Definition typeName (f : Field) : string :=
  if isIntField f then "int" else "string".

(** One member value stored into one field. A [null] leaves the field as
    it is; a value of the wrong kind, or a number that is not a 64-bit
    integer literal, is an [UnmarshalTypeError] and leaves the field as it
    is. *)
Definition store (f : Field) (x : value) (v : VMState.t) : VMState.t * option error :=
  match x with
  | Null => (v, None)
  | Bool _ => (v, Some (UnmarshalTypeError "bool" (typeName f)))
  | Number lit =>
      if isIntField f then
        match ParseInt lit with
        | Some n => (setInt f n v, None)
        | None => (v, Some (UnmarshalTypeError ("number " ++ lit) (typeName f)))
        end
      else (v, Some (UnmarshalTypeError "number" (typeName f)))
  | Str s =>
      if isIntField f then (v, Some (UnmarshalTypeError "string" (typeName f)))
      else (setString f s v, None)
  | Array _ => (v, Some (UnmarshalTypeError "array" (typeName f)))
  | Object _ => (v, Some (UnmarshalTypeError "object" (typeName f)))
  end.

(** [saveError]: the first error is the one kept. *)
Definition saveError (saved new : option error) : option error :=
  match saved with
  | Some e => Some e
  | None => new
  end.

(** The members of an object stored one after the other; unknown keys are
    skipped. *)
Fixpoint object (ms : list (string * value)) (v : VMState.t) (saved : option error)
  : VMState.t * option error :=
  match ms with
  | [] => (v, saved)
  | (key, x) :: rest =>
    match lookupField key with
    | None => object rest v saved
    | Some f => let (v', err) := store f x v in object rest v' (saveError saved err)
    end
  end.

End Decode.

(** [UnmarshalJSON] of [VMState]: the alias has the fields of [VMState] and
    none of its methods, so the inner [json.Unmarshal] fills the fields of
    [v] through the embedded pointer. [data] is the element as scanned. *)
Definition UnmarshalJSON (v : VMState.t) (data : JSON.value) : VMState.t * option error :=
  match data with
  | JSON.Null => (v, None)
  | JSON.Object ms => Decode.object ms v None
  | JSON.Bool _ => (v, Some (UnmarshalTypeError "bool" "struct"))
  | JSON.Number _ => (v, Some (UnmarshalTypeError "number" "struct"))
  | JSON.Str _ => (v, Some (UnmarshalTypeError "string" "struct"))
  | JSON.Array _ => (v, Some (UnmarshalTypeError "array" "struct"))
  end.

(** The elements of an array decoded into a slice that starts empty: every
    element is a fresh zero [VMState] handed to [UnmarshalJSON]; the error
    of an element ends the decoding. *)
Fixpoint Unmarshal_array (elems : list JSON.value) : list VMState.t * option error :=
  match elems with
  | [] => ([], None)
  | x :: rest =>
    match UnmarshalJSON VMState.zero x with
    | (v, Some err) => ([v], Some err)
    | (v, None) => let (vs, err) := Unmarshal_array rest in (v :: vs, err)
    end
  end.

(** [json.Unmarshal(output, &vms)] for [var vms []VMState]. *)
Definition Unmarshal (output : string) : list VMState.t * option error :=
  match JSON.parse output with
  | None => ([], Some (SyntaxError "invalid JSON"))
  | Some JSON.Null => ([], None)
  | Some (JSON.Array elems) => Unmarshal_array elems
  | Some (JSON.Bool _) => ([], Some (UnmarshalTypeError "bool" "[]tart.VMState"))
  | Some (JSON.Number _) => ([], Some (UnmarshalTypeError "number" "[]tart.VMState"))
  | Some (JSON.Str _) => ([], Some (UnmarshalTypeError "string" "[]tart.VMState"))
  | Some (JSON.Object _) => ([], Some (UnmarshalTypeError "object" "[]tart.VMState"))
  end.

Definition ListArgs (config : ListOptions.t) : list string :=
  let args := ["list"; "--format"; "json"] in
  match ListOptions.Source config with
  | Some source => args +++ ["--source"; source]
  | None => args
  end.

(** The guard of [List]: a source that is given is [local] or [remote]. *)
Definition invalidSource (config : ListOptions.t) : option error :=
  match ListOptions.Source config with
  | Some source =>
      if negb (String.eqb source SourceLocal) && negb (String.eqb source SourceRemote)
      then Some (errorString ("invalid source: " ++ source))
      else None
  | None => None
  end.

(** [List]. A nil slice is the empty list. *)
Definition List (t : Tart) (config : ListOptions.t) : IO (list VMState.t * option error) :=
  match invalidSource config with
  | Some err => ret ([], Some err)
  | None =>
    '(output, err) <- run t (ListArgs config) ;;
    match err with
    | Some err =>
        ret ([], Some (Errorf_w "failed to list VMs: " err (", output: " ++ output)))
    | None =>
      let (vms, err) := Unmarshal output in
      match err with
      | Some err => ret ([], Some err)
      | None => ret (vms, None)
      end
    end
  end.

(** The loop of [State]: the first entry with the name, else [ret] as it
    was. *)
Fixpoint State_loop (vms : list VMState.t) (name : string) (ret : VMState.t) : VMState.t :=
  match vms with
  | [] => ret
  | s :: rest => if String.eqb (VMState.Name s) name then s else State_loop rest name ret
  end.

Definition State (t : Tart) (name : string) : IO (VMState.t * option error) :=
  let ret0 := VMState.zero in
  '(vms, err) <- List t ListOptions.zero ;;
  match err with
  | Some err => ret (ret0, Some (Errorf_w "failed to get VM state: " err ""))
  | None => ret (State_loop vms name ret0, None)
  end.

Definition IPArgs (name : string) (wait : Z) (resolver : string) : list string :=
  let args := ["ip"; name] in
  let args := if (wait >? 0)%Z then args +++ ["--wait"; itoa wait] else args in
  let args := if nonempty resolver then args +++ ["--resolver"; resolver] else args in
  args.

Definition IP (t : Tart) (name : string) (wait : Z) (resolver : string)
  : IO (string * option error) :=
  '(output, err) <- run t (IPArgs name wait resolver) ;;
  match err with
  | Some err => ret ("", Some (Errorf_w "failed to get VM IP: " err (", output: " ++ output)))
  | None => ret (Unicode.TrimSpace output, None)
  end.

(** The loop over [localVMs] in [Exists], [Create], [Clone] and [Import]:
    some entry has the name. *)
Fixpoint nameTaken (localVMs : list VMState.t) (name : string) : bool :=
  match localVMs with
  | [] => false
  | existingVM :: rest =>
      if String.eqb (VMState.Name existingVM) name then true else nameTaken rest name
  end.

Definition Exists (t : Tart) (name : string) : IO (bool * option error) :=
  '(localVMs, err) <- List t ListOptions.zero ;;
  match err with
  | Some err => ret (false, Some (Errorf_w "failed to list local VMs: " err ""))
  | None => ret (nameTaken localVMs name, None)
  end.

Definition Running (t : Tart) (name : string) : IO (bool * option error) :=
  '(s, err) <- State t name ;;
  match err with
  | Some err => ret (false, Some (Errorf_w "failed to get VM state: " err ""))
  | None => ret (String.eqb (VMState.State s) "running", None)
  end.

Definition Stopped (t : Tart) (name : string) : IO (bool * option error) :=
  '(s, err) <- State t name ;;
  match err with
  | Some err => ret (false, Some (Errorf_w "failed to get VM state: " err ""))
  | None => ret (String.eqb (VMState.State s) "stopped", None)
  end.

Definition Suspended (t : Tart) (name : string) : IO (bool * option error) :=
  '(s, err) <- State t name ;;
  match err with
  | Some err => ret (false, Some (Errorf_w "failed to get VM state: " err ""))
  | None => ret (String.eqb (VMState.State s) "suspended", None)
  end.

(** The descriptor of a machine as a JSON object: the six fields, each
    under the key [keys] gives it, numbers as decimal integers. *)
Definition record (keys : Decode.Field -> string) (v : VMState.t) : JSON.value :=
  JSON.Object
    [(keys Decode.FSizeOnDisk, JSON.Number (itoa (VMState.SizeOnDisk v)));
     (keys Decode.FDisk, JSON.Number (itoa (VMState.Disk v)));
     (keys Decode.FName, JSON.Str (VMState.Name v));
     (keys Decode.FSource, JSON.Str (VMState.Source v));
     (keys Decode.FSize, JSON.Number (itoa (VMState.Size v)));
     (keys Decode.FState, JSON.Str (VMState.State v))].

(** Keys the decoder takes for the fields they are meant for: the tags
    themselves, or the tags in another case. *)
Definition names_fields (keys : Decode.Field -> string) : Prop :=
  forall f, Decode.lookupField (keys f) = Some f.

(** The keys [tart list] prints. *)
Definition capitalized (f : Decode.Field) : string :=
  match f with
  | Decode.FSizeOnDisk => "SizeOnDisk"
  | Decode.FDisk => "Disk"
  | Decode.FName => "Name"
  | Decode.FSource => "Source"
  | Decode.FSize => "Size"
  | Decode.FState => "State"
  end.

(** The element [x] of a listing decodes to the machine [v] without an
    error. *)
Definition decodes (x : JSON.value) (v : VMState.t) : Prop :=
  UnmarshalJSON VMState.zero x = (v, None).

(** The value of a run of decimal digits after the digits that gave
    [acc]. *)
Fixpoint uintValue (d : Decimal.uint) (acc : Z) : Z :=
  match d with
  | Decimal.Nil => acc
  | Decimal.D0 l => uintValue l (acc * 10 + 0)
  | Decimal.D1 l => uintValue l (acc * 10 + 1)
  | Decimal.D2 l => uintValue l (acc * 10 + 2)
  | Decimal.D3 l => uintValue l (acc * 10 + 3)
  | Decimal.D4 l => uintValue l (acc * 10 + 4)
  | Decimal.D5 l => uintValue l (acc * 10 + 5)
  | Decimal.D6 l => uintValue l (acc * 10 + 6)
  | Decimal.D7 l => uintValue l (acc * 10 + 7)
  | Decimal.D8 l => uintValue l (acc * 10 + 8)
  | Decimal.D9 l => uintValue l (acc * 10 + 9)
  end%Z.

(** ** run.go: starting a machine *)

Module DirMount.
Record t : Type := mk {
  Name : string;
  Path : string;
  ReadOnly : bool;
  Sync : string;
  Tag : string
}.
End DirMount.

Module RunOptions.
Record t : Type := mk {
  NoGraphics : bool;
  Serial : bool;
  SerialPath : string;
  NoAudio : bool;
  NoClipboard : bool;
  Recovery : bool;
  VNC : bool;
  VNCExperimental : bool;
  Disk : list string;
  Rosetta : string;
  Dir : list DirMount.t;
  NetBridged : string;
  NetSoftnet : bool;
  NetSoftnetAllow : string;
  NetHost : bool;
  RootDiskOpts : string;
  Suspendable : bool;
  CaptureSystemKeys : bool
}.
(** [RunOptions{}]. *)
Definition zero : t :=
  mk false false "" false false false false false [] "" [] "" false "" false "" false false.
End RunOptions.

(** The body of the loop over [options.Dir]: the value of [dirArg] when it
    is appended to the arguments. *)
Definition dirArg (dir : DirMount.t) : string :=
  let dirArg := "" in
  let dirArg :=
    if nonempty (DirMount.Name dir) then dirArg ++ DirMount.Name dir ++ ":" else dirArg in
  let dirArg := dirArg ++ DirMount.Path dir in
  if DirMount.ReadOnly dir || nonempty (DirMount.Tag dir) then
    let dirArg := dirArg ++ ":" in
    let dirArg :=
      if DirMount.ReadOnly dir then
        let dirArg := dirArg ++ "ro" in
        if nonempty (DirMount.Tag dir) then dirArg ++ "," else dirArg
      else dirArg in
    let dirArg :=
      if nonempty (DirMount.Tag dir) then dirArg ++ "tag=" ++ DirMount.Tag dir else dirArg in
    let dirArg :=
      if nonempty (DirMount.Sync dir) then dirArg ++ "sync=" ++ DirMount.Sync dir else dirArg in
    dirArg
  else dirArg.

(** The argument list [Run] builds, from [args := []string{"run"}] to
    [args = append(args, name)]. *)
Definition RunArgs (name : string) (options : RunOptions.t) : list string :=
  let args := ["run"] in
  let args := if RunOptions.NoGraphics options then args +++ ["--no-graphics"] else args in
  let args := if RunOptions.Serial options then args +++ ["--serial"] else args in
  let args :=
    if nonempty (RunOptions.SerialPath options)
    then args +++ ["--serial-path"; RunOptions.SerialPath options] else args in
  let args := if RunOptions.NoAudio options then args +++ ["--no-audio"] else args in
  let args := if RunOptions.NoClipboard options then args +++ ["--no-clipboard"] else args in
  let args := if RunOptions.Recovery options then args +++ ["--recovery"] else args in
  let args := if RunOptions.VNC options then args +++ ["--vnc"] else args in
  let args :=
    if RunOptions.VNCExperimental options then args +++ ["--vnc-experimental"] else args in
  let args :=
    fold_left (fun args disk => args +++ ["--disk"; disk]) (RunOptions.Disk options) args in
  let args :=
    if nonempty (RunOptions.Rosetta options)
    then args +++ ["--rosetta"; RunOptions.Rosetta options] else args in
  let args :=
    fold_left (fun args dir => args +++ ["--dir"; dirArg dir]) (RunOptions.Dir options) args in
  let args :=
    if nonempty (RunOptions.NetBridged options)
    then args +++ ["--net-bridged"; RunOptions.NetBridged options] else args in
  let args := if RunOptions.NetSoftnet options then args +++ ["--net-softnet"] else args in
  let args :=
    if nonempty (RunOptions.NetSoftnetAllow options)
    then args +++ ["--net-softnet-allow"; RunOptions.NetSoftnetAllow options] else args in
  let args := if RunOptions.NetHost options then args +++ ["--net-host"] else args in
  let args :=
    if nonempty (RunOptions.RootDiskOpts options)
    then args +++ ["--root-disk-opts"; RunOptions.RootDiskOpts options] else args in
  let args := if RunOptions.Suspendable options then args +++ ["--suspendable"] else args in
  let args :=
    if RunOptions.CaptureSystemKeys options then args +++ ["--capture-system-keys"] else args in
  args +++ [name].

(** The parts of the token for [--dir]: the path with its optional name,
    and the options [ro] and [tag=TAG] joined by a comma. *)
Definition dirHead (dir : DirMount.t) : string :=
  (if nonempty (DirMount.Name dir) then DirMount.Name dir ++ ":" else "")
  ++ DirMount.Path dir.

Definition dirOptions (dir : DirMount.t) : string :=
  match DirMount.ReadOnly dir, nonempty (DirMount.Tag dir) with
  | true, true => "ro,tag=" ++ DirMount.Tag dir
  | true, false => "ro"
  | false, true => "tag=" ++ DirMount.Tag dir
  | false, false => ""
  end.

(** The token by the grammar of the specification,
    [[name:]path[:ro][,tag=TAG][,sync=MODE]], read in favour of the code: a
    tag without [ro] opens the options with a colon, and the sync segment
    is there only when there is a tag and a sync mode. *)
Definition grammarToken (dir : DirMount.t) : string :=
  dirHead dir
  ++ (if DirMount.ReadOnly dir || nonempty (DirMount.Tag dir)
      then ":" ++ dirOptions dir else "")
  ++ (if nonempty (DirMount.Tag dir) && nonempty (DirMount.Sync dir)
      then ",sync=" ++ DirMount.Sync dir else "").

(** A flag that is there when [b] holds. *)
Definition flag (b : bool) (elems : list string) : list string :=
  if b then elems else [].

(** The flags of [Run] in the order of the code, between the subcommand
    and the name. *)
Definition RunFlags (options : RunOptions.t) : list string :=
  (flag (RunOptions.NoGraphics options) ["--no-graphics"]
   ++ flag (RunOptions.Serial options) ["--serial"]
   ++ flag (nonempty (RunOptions.SerialPath options))
        ["--serial-path"; RunOptions.SerialPath options]
   ++ flag (RunOptions.NoAudio options) ["--no-audio"]
   ++ flag (RunOptions.NoClipboard options) ["--no-clipboard"]
   ++ flag (RunOptions.Recovery options) ["--recovery"]
   ++ flag (RunOptions.VNC options) ["--vnc"]
   ++ flag (RunOptions.VNCExperimental options) ["--vnc-experimental"]
   ++ flat_map (fun disk => ["--disk"; disk]) (RunOptions.Disk options)
   ++ flag (nonempty (RunOptions.Rosetta options)) ["--rosetta"; RunOptions.Rosetta options]
   ++ flat_map (fun dir => ["--dir"; dirArg dir]) (RunOptions.Dir options)
   ++ flag (nonempty (RunOptions.NetBridged options))
        ["--net-bridged"; RunOptions.NetBridged options]
   ++ flag (RunOptions.NetSoftnet options) ["--net-softnet"]
   ++ flag (nonempty (RunOptions.NetSoftnetAllow options))
        ["--net-softnet-allow"; RunOptions.NetSoftnetAllow options]
   ++ flag (RunOptions.NetHost options) ["--net-host"]
   ++ flag (nonempty (RunOptions.RootDiskOpts options))
        ["--root-disk-opts"; RunOptions.RootDiskOpts options]
   ++ flag (RunOptions.Suspendable options) ["--suspendable"]
   ++ flag (RunOptions.CaptureSystemKeys options) ["--capture-system-keys"])%list.

(** *** The readiness watcher *)

Definition newline : ascii := "010".

(** The text up to and including the first [delim], and the text after it;
    [None] when there is no [delim]. *)
Fixpoint cutAfter (delim : ascii) (data : string) : option (string * string) :=
  match data with
  | EmptyString => None
  | String c r =>
    if Ascii.eqb c delim then Some (String c EmptyString, r)
    else
      match cutAfter delim r with
      | Some (line, rest) => Some (String c line, rest)
      | None => None
      end
  end.

(** [reader.ReadString(delim)] on a [bufio.Reader] over the stream: the
    line with its delimiter, or what was read before the stream ended and
    the error that ended it. The third component is the reader after the
    call. Blocks for ever when the stream stays open without a delimiter. *)
Definition ReadString (reader : Stream) (delim : ascii)
  : IO (string * option error * Stream) :=
  match cutAfter delim (s_data reader) with
  | Some (line, rest) => ret (line, None, {| s_data := rest; s_end := s_end reader |})
  | None =>
    match s_end reader with
    | AtEOF => ret (s_data reader, Some EOF, {| s_data := ""; s_end := AtEOF |})
    | Broken m =>
        ret (s_data reader, Some (SyscallError m), {| s_data := ""; s_end := Broken m |})
    | StaysOpen => block
    end
  end.

(** [err == io.EOF]. *)
Definition isEOF (err : error) : bool :=
  match err with EOF => true | _ => false end.

(** How the [for] loop of [Run] is left: by [break], or by a [return] with
    the error of [Run]. [OutOfFuel] is the bound of the model, see
    [watch_fuel]. *)
Inductive LoopExit : Type :=
| Break
| Return (err : option error)
| OutOfFuel.

Definition marker : string := "VM is up".

Fixpoint watch (fuel : nat) (reader : Stream) : IO LoopExit :=
  match fuel with
  | O => ret OutOfFuel
  | S fuel' =>
    '(line, err, reader') <- ReadString reader newline ;;
    match err with
    | Some err =>
        if isEOF err then ret Break
        else ret (Return (Some (Errorf_w "failed to read serial output: " err "")))
    | None =>
        if Contains line marker then
          emit (Printed "VM is up and running") ;;; ret (Return None)
        else watch fuel' reader'
    end
  end.

(** Every turn of the loop takes at least one byte off the stream. *)
Definition watch_fuel (serialOut : Stream) : nat := S (String.length (s_data serialOut)).

Definition Run (t : Tart) (name : string) (options : RunOptions.t) : IO (option error) :=
  '(s, err) <- State t name ;;
  match err with
  | Some err => ret (Some (Errorf_w "failed to get VM state: " err ""))
  | None =>
    if String.eqb (VMState.State s) "running" then
      ret (Some (errorString "VM is already running"))
    else if negb (String.eqb (VMState.Name s) name) then
      ret (Some (errorString ("VM with name " ++ name ++ " does not exist")))
    else
      let args := RunArgs name options in
      let cmd := exec_Command "tart" args in
      '(cmd, _) <- setTartHome t cmd ;;
      serialOut <- StdoutPipe cmd ;;
      match serialOut with
      | inr err => ret (Some (Errorf_w "failed to create stdout pipe: " err ""))
      | inl serialOut =>
        err <- Start cmd ;;
        match err with
        | Some err => ret (Some (Errorf_w "failed to start VM: " err ""))
        | None =>
          exit <- watch (watch_fuel serialOut) serialOut ;;
          match exit with
          | Return err => ret err
          | OutOfFuel => block
          | Break =>
            err <- Wait cmd ;;
            match err with
            | Some err => ret (Some (Errorf_w "VM process exited with error: " err ""))
            | None => ret None
            end
          end
        end
      end
  end.

(** ** mgmt.go: configuration and life cycle *)

Module VMConfig.
Record display : Type := mkDisplay { Width : Z; Height : Z }.
Record t : Type := mk {
  Version : Z;
  OS : string;
  Arch : string;
  CPUCountMin : Z;
  CPUCount : Z;
  MemorySizeMin : Z;
  MemorySize : Z;
  MACAddress : string;
  Display : display
}.
End VMConfig.

Module CreateOptions.
Record t : Type := mk { FromIPSW : string; Linux : bool; DiskSize : Z }.
End CreateOptions.

Module CloneOptions.
Record t : Type := mk { NewName : string; Insecure : bool; Concurrency : Z }.
End CloneOptions.

Module PruneOptions.
Record t : Type := mk { Entries : string; OlderThan : Z; SpaceBudget : Z }.
End PruneOptions.

Definition SetConfigArgs (name : string) (config : VMConfig.t) : list string :=
  let args := ["set"; name] in
  let args :=
    if (VMConfig.CPUCount config >? 0)%Z
    then args +++ ["--cpu"; itoa (VMConfig.CPUCount config)] else args in
  let args :=
    if (VMConfig.MemorySize config >? 0)%Z
    then args +++ ["--memory"; itoa (VMConfig.MemorySize config)] else args in
  let args :=
    if ((VMConfig.Width (VMConfig.Display config) >? 0)
        && (VMConfig.Height (VMConfig.Display config) >? 0))%Z
    then args +++ ["--display";
                   (itoa (VMConfig.Width (VMConfig.Display config)) ++ "x"
                    ++ itoa (VMConfig.Height (VMConfig.Display config)))%string]
    else args in
  let args :=
    if String.eqb (VMConfig.MACAddress config) "random"
    then args +++ ["--random-mac"] else args in
  args.

Definition SetConfig (t : Tart) (name : string) (config : VMConfig.t) : IO (option error) :=
  '(output, err) <- run t (SetConfigArgs name config) ;;
  match err with
  | Some err =>
      ret (Some (Errorf_w "failed to set VM configuration: " err (", output: " ++ output)))
  | None => ret None
  end.

Definition GetConfigArgs (name format : string) : list string :=
  let args := ["get"; name] in
  if nonempty format then args +++ ["--format"; format] else args.

Definition GetConfig (t : Tart) (name format : string) : IO (string * option error) :=
  '(output, err) <- run t (GetConfigArgs name format) ;;
  match err with
  | Some err =>
      ret ("", Some (Errorf_w "failed to get VM configuration: " err (", output: " ++ output)))
  | None => ret (output, None)
  end.

Definition Rename (t : Tart) (oldName newName : string) : IO (option error) :=
  '(output, err) <- run t ["rename"; oldName; newName] ;;
  match err with
  | Some err => ret (Some (Errorf_w "failed to rename VM: " err (", output: " ++ output)))
  | None => ret None
  end.

Definition CreateArgs (name : string) (options : CreateOptions.t) : list string :=
  let args := ["create"; name] in
  let args :=
    if nonempty (CreateOptions.FromIPSW options)
    then args +++ ["--from-ipsw"; CreateOptions.FromIPSW options] else args in
  let args := if CreateOptions.Linux options then args +++ ["--linux"] else args in
  let args :=
    if (CreateOptions.DiskSize options >? 0)%Z
    then args +++ ["--disk-size"; itoa (CreateOptions.DiskSize options)] else args in
  args.

Definition Create (t : Tart) (name : string) (options : CreateOptions.t) : IO (option error) :=
  '(localVMs, err) <- List t ListOptions.zero ;;
  match err with
  | Some err => ret (Some (Errorf_w "failed to list local VMs: " err ""))
  | None =>
    if nameTaken localVMs name then
      ret (Some (errorString ("VM with name " ++ name ++ " already exists")))
    else
      '(output, err) <- run t (CreateArgs name options) ;;
      match err with
      | Some err => ret (Some (Errorf_w "failed to create VM: " err (", output: " ++ output)))
      | None => ret None
      end
  end.

Definition CloneArgs (sourceName newName : string) (options : CloneOptions.t) : list string :=
  let args := ["clone"; sourceName; newName] in
  let args := if CloneOptions.Insecure options then args +++ ["--insecure"] else args in
  let args :=
    if (CloneOptions.Concurrency options >? 0)%Z
    then args +++ ["--concurrency"; itoa (CloneOptions.Concurrency options)] else args in
  args.

Definition Clone (t : Tart) (sourceName newName : string) (options : CloneOptions.t)
  : IO (option error) :=
  '(localVMs, err) <- List t ListOptions.zero ;;
  match err with
  | Some err => ret (Some (Errorf_w "failed to list local VMs: " err ""))
  | None =>
    if nameTaken localVMs newName then
      ret (Some (errorString ("VM with name " ++ newName ++ " already exists")))
    else
      '(output, err) <- run t (CloneArgs sourceName newName options) ;;
      match err with
      | Some err => ret (Some (Errorf_w "failed to clone VM: " err (", output: " ++ output)))
      | None => ret None
      end
  end.

Definition Import (t : Tart) (path name : string) : IO (option error) :=
  '(localVMs, err) <- List t ListOptions.zero ;;
  match err with
  | Some err => ret (Some (Errorf_w "failed to list local VMs: " err ""))
  | None =>
    if nameTaken localVMs name then
      ret (Some (errorString ("VM with name " ++ name ++ " already exists")))
    else
      '(output, err) <- run t ["import"; path; name] ;;
      match err with
      | Some err => ret (Some (Errorf_w "failed to import VM: " err (", output: " ++ output)))
      | None => ret None
      end
  end.

Definition ExportArgs (name path : string) : list string :=
  let args := ["export"; name] in
  if nonempty path then args +++ [path] else args.

Definition Export (t : Tart) (name path : string) : IO (option error) :=
  '(output, err) <- run t (ExportArgs name path) ;;
  match err with
  | Some err => ret (Some (Errorf_w "failed to export VM: " err (", output: " ++ output)))
  | None => ret None
  end.

Definition Suspend (t : Tart) (name : string) : IO (option error) :=
  '(output, err) <- run t ["suspend"; name] ;;
  match err with
  | Some err => ret (Some (Errorf_w "failed to suspend VM: " err (", output: " ++ output)))
  | None => ret None
  end.

Definition StopArgs (name : string) (timeout : Z) : list string :=
  let args := ["stop"; name] in
  if (timeout >? 0)%Z then args +++ ["--timeout"; itoa timeout] else args.

Definition Stop (t : Tart) (name : string) (timeout : Z) : IO (option error) :=
  '(output, err) <- run t (StopArgs name timeout) ;;
  match err with
  | Some err => ret (Some (Errorf_w "failed to stop VM: " err (", output: " ++ output)))
  | None => ret None
  end.

Definition Delete (t : Tart) (name : string) : IO (option error) :=
  '(output, err) <- run t ["delete"; name] ;;
  match err with
  | Some err => ret (Some (Errorf_w "failed to delete VM: " err (", output: " ++ output)))
  | None => ret None
  end.

Definition PruneArgs (options : PruneOptions.t) : list string :=
  let args := ["prune"] in
  let args :=
    if nonempty (PruneOptions.Entries options)
    then args +++ ["--entries"; PruneOptions.Entries options] else args in
  let args :=
    if (PruneOptions.OlderThan options >? 0)%Z
    then args +++ ["--older-than"; itoa (PruneOptions.OlderThan options)] else args in
  let args :=
    if (PruneOptions.SpaceBudget options >? 0)%Z
    then args +++ ["--space-budget"; itoa (PruneOptions.SpaceBudget options)] else args in
  args.

Definition Prune (t : Tart) (options : PruneOptions.t) : IO (option error) :=
  '(output, err) <- run t (PruneArgs options) ;;
  match err with
  | Some err => ret (Some (Errorf_w "failed to prune: " err (", output: " ++ output)))
  | None => ret None
  end.

(** ** run.go: the registry operations *)

Module LoginOptions.
Record t : Type := mk {
  Username : string;
  PasswordStdin : bool;
  Insecure : bool;
  NoValidate : bool
}.
End LoginOptions.

Module PushOptions.
Record t : Type := mk {
  RemoteNames : list string;
  Insecure : bool;
  Concurrency : Z;
  ChunkSize : Z;
  PopulateCache : bool
}.
End PushOptions.

Definition LoginArgs (t : Tart) (opts : LoginOptions.t) : list string :=
  let args := ["login"; Host t] in
  let args :=
    if nonempty (LoginOptions.Username opts)
    then args +++ ["--username"; LoginOptions.Username opts] else args in
  let args := if LoginOptions.PasswordStdin opts then args +++ ["--password-stdin"] else args in
  let args := if LoginOptions.Insecure opts then args +++ ["--insecure"] else args in
  let args := if LoginOptions.NoValidate opts then args +++ ["--no-validate"] else args in
  args.

Definition Login (t : Tart) (opts : LoginOptions.t) : IO (option error) :=
  '(output, err) <- run t (LoginArgs t opts) ;;
  match err with
  | Some err => ret (Some (Errorf_w "failed to login: " err (", output: " ++ output)))
  | None => ret None
  end.

Definition Logout (t : Tart) : IO (option error) :=
  '(output, err) <- run t ["logout"; Host t] ;;
  match err with
  | Some err => ret (Some (Errorf_w "failed to logout: " err (", output: " ++ output)))
  | None => ret None
  end.

Definition PushArgs (name : string) (options : PushOptions.t) : list string :=
  let args := ["push"; name] in
  let args := args +++ PushOptions.RemoteNames options in
  let args := if PushOptions.Insecure options then args +++ ["--insecure"] else args in
  let args :=
    if (PushOptions.Concurrency options >? 0)%Z
    then args +++ ["--concurrency"; itoa (PushOptions.Concurrency options)] else args in
  let args :=
    if (PushOptions.ChunkSize options >? 0)%Z
    then args +++ ["--chunk-size"; itoa (PushOptions.ChunkSize options)] else args in
  let args := if PushOptions.PopulateCache options then args +++ ["--populate-cache"] else args in
  args.

Definition Push (t : Tart) (name : string) (options : PushOptions.t) : IO (option error) :=
  '(output, err) <- run t (PushArgs name options) ;;
  match err with
  | Some err => ret (Some (Errorf_w "failed to push VM: " err (", output: " ++ output)))
  | None => ret None
  end.

Definition PullArgs (name : string) (insecure : bool) (concurrency : Z) : list string :=
  let args := ["pull"; name] in
  let args := if insecure then args +++ ["--insecure"] else args in
  let args :=
    if (concurrency >? 0)%Z then args +++ ["--concurrency"; itoa concurrency] else args in
  args.

Definition Pull (t : Tart) (name : string) (insecure : bool) (concurrency : Z)
  : IO (option error) :=
  '(output, err) <- run t (PullArgs name insecure concurrency) ;;
  match err with
  | Some err => ret (Some (Errorf_w "failed to pull VM: " err (", output: " ++ output)))
  | None => ret None
  end.

(** ** What a call starts *)

(** The command [run] and [Run] hand to the system for the arguments
    [args]: [exec.Command("tart", args...)] after [setTartHome]. *)
Definition cmdOf (t : Tart) (args : list string) (w : World) : Cmd :=
  match result_of (setTartHome t (exec_Command "tart" args)) w with
  | Some (cmd, _) => cmd
  | None => exec_Command "tart" args
  end.

(** The child the system makes of that command. *)
Definition childOf (t : Tart) (args : list string) (w : World) : Child :=
  w_spawn w (cmdOf t args w).

(** [run], call by call: which answers of the system lead to which result
    and which events. *)
Definition run_spec (t : Tart) (args : list string) (w : World)
  : Trace * option (string * option error) :=
  let cmd := cmdOf t args w in
  let c := w_spawn w cmd in
  match stdoutPipeErr c with
  | Some e => ([], Some ("", Some (Errorf_w "failed to create stdout pipe: " e "")))
  | None =>
    match stderrPipeErr c with
    | Some e => ([], Some ("", Some (Errorf_w "failed to create stderr pipe: " e "")))
    | None =>
      match startErr c with
      | Some e =>
          ([StartFailed cmd], Some ("", Some (Errorf_w "failed to start command: " e "")))
      | None =>
        match s_end (child_stdout c) with
        | StaysOpen => ([Spawned cmd], None)
        | Broken m =>
            ([Spawned cmd],
             Some ("", Some (Errorf_w "failed to read stdout: " (SyscallError m) "")))
        | AtEOF =>
          match s_end (child_stderr c) with
          | StaysOpen => ([Spawned cmd], None)
          | Broken m =>
              ([Spawned cmd],
               Some ("", Some (Errorf_w "failed to read stderr: " (SyscallError m) "")))
          | AtEOF =>
            match child_exit c with
            | None => ([Spawned cmd; Waited cmd], None)
            | Some code =>
              if (code =? 0)%Z then
                ([Spawned cmd; Waited cmd], Some (s_data (child_stdout c), None))
              else
                ([Spawned cmd; Waited cmd],
                 Some ("", Some (Errorf_w "command failed: " (ExitError code)
                                   (", stderr: " ++ s_data (child_stderr c)))))
            end
          end
        end
      end
    end
  end.


(** What [Run] does once the checks on the state of the machine have
    passed: the command, the pipe, the start, the watch, and the wait when
    the watch is left by [break]. *)
Definition Run_launch (t : Tart) (name : string) (options : RunOptions.t) (w : World)
  : Trace * option (option error) :=
  let cmd := cmdOf t (RunArgs name options) w in
  let c := w_spawn w cmd in
  match stdoutPipeErr c with
  | Some e => ([], Some (Some (Errorf_w "failed to create stdout pipe: " e "")))
  | None =>
    match startErr c with
    | Some e => ([StartFailed cmd], Some (Some (Errorf_w "failed to start VM: " e "")))
    | None =>
      match watch (watch_fuel (child_stdout c)) (child_stdout c) w with
      | (tr, None) => (Spawned cmd :: tr, None)
      | (tr, Some OutOfFuel) => (Spawned cmd :: tr, None)
      | (tr, Some (Return err)) => (Spawned cmd :: tr, Some err)
      | (tr, Some Break) =>
        match child_exit c with
        | None => (Spawned cmd :: tr ++ [Waited cmd], None)
        | Some code =>
            (Spawned cmd :: tr ++ [Waited cmd],
             Some (if (code =? 0)%Z then None
                   else Some (Errorf_w "VM process exited with error: " (ExitError code) "")))
        end
      end
    end
  end.

(** The lines a stream delivers, one after the other. *)
Fixpoint join (lines : list string) : string :=
  match lines with
  | [] => ""
  | l :: rest => l ++ join rest
  end.

(** A line as [ReadString] returns it: its only newline is its last byte. *)
Definition is_line (l : string) : Prop := cutAfter newline l = Some (l, "").

(** A line that does not hold the readiness marker. *)
Definition quiet_line (l : string) : Prop := is_line l /\ Contains l marker = false.

(** ** Sample systems *)

Module Sample.

Definition eof (data : string) : Stream := {| s_data := data; s_end := AtEOF |}.

(** A child that starts, writes [out] and [err], and exits with [code]. *)
Definition exits (out err : string) (code : Z) : Child :=
  {| stdoutPipeErr := None; stderrPipeErr := None; startErr := None;
     child_stdout := eof out; child_stderr := eof err; child_exit := Some code |}.

(** A command the system cannot start. *)
Definition unstartable (why : string) : Child :=
  {| stdoutPipeErr := None; stderrPipeErr := None; startErr := Some (SyscallError why);
     child_stdout := eof ""; child_stderr := eof ""; child_exit := None |}.

(** A child that writes [out], keeps its output open and never exits. *)
Definition lingers (out : string) : Child :=
  {| stdoutPipeErr := None; stderrPipeErr := None; startErr := None;
     child_stdout := {| s_data := out; s_end := StaysOpen |};
     child_stderr := eof ""; child_exit := None |}.

(** A child that writes [out] and whose output then fails with [why]; it
    never exits. *)
Definition breaks (out why : string) : Child :=
  {| stdoutPipeErr := None; stderrPipeErr := None; startErr := None;
     child_stdout := {| s_data := out; s_end := Broken why |};
     child_stderr := eof ""; child_exit := None |}.

(** A line of output. *)
Definition ln (s : string) : string := s ++ String newline "".

(** A JSON string literal of a text without special characters. *)
Definition q (s : string) : string := String JSON.quote (s ++ String JSON.quote "").

(** The listing of one stopped machine, [vm], as [tart list --format json]
    prints it. *)
Definition listing : string :=
  "[{" ++ q "SizeOnDisk" ++ ":22," ++ q "Disk" ++ ":50," ++ q "Name" ++ ":" ++ q "vm" ++ ","
       ++ q "Source" ++ ":" ++ q "local" ++ "," ++ q "Size" ++ ":21," ++ q "State" ++ ":"
       ++ q "stopped" ++ "}]".

(** A system with an empty environment where every path exists. *)
Definition system (spawn : Cmd -> Child) : World :=
  {| w_stat := fun _ => StatOk; w_environ := []; w_spawn := spawn |}.

(** The same, with no directory at all. *)
Definition bare (spawn : Cmd -> Child) : World :=
  {| w_stat := fun _ => StatNotExist; w_environ := ["HOME=/Users/me"]; w_spawn := spawn |}.

(** [tart list] answers [listing]; every other command behaves as [other]. *)
Definition hosting (listing : string) (other : Child) : Cmd -> Child :=
  fun cmd =>
    match Args cmd with
    | "list" :: _ => exits listing "" 0
    | _ => other
    end.

Definition tart : Tart := {| ConfigDir := ""; Host := "ghcr.io" |}.
Definition homed : Tart := {| ConfigDir := "/Users/me/.tart"; Host := "ghcr.io" |}.

End Sample.

(** ** main.go: New and getConfigDir *)

Module Filepath.

Definition separator : ascii := "/".

(** The elements of a path: the texts between its separators. [cur] is
    the element being read. *)
Fixpoint elements (path cur : string) : list string :=
  match path with
  | EmptyString => [cur]
  | String c r =>
      if Ascii.eqb c separator then cur :: elements r EmptyString
      else elements r (cur ++ String c EmptyString)
  end.

(** One element against the elements kept so far, last kept first: empty
    and [.] elements are dropped; [..] takes back the last real element,
    is dropped at the root, and is kept at the front of a relative path. *)
Definition step (rooted : bool) (kept : list string) (e : string) : list string :=
  if String.eqb e "" || String.eqb e "." then kept
  else if String.eqb e ".." then
    match kept with
    | top :: rest => if String.eqb top ".." then e :: kept else rest
    | [] => if rooted then [] else [e]
    end
  else e :: kept.

(** The elements after a first one, each behind a separator. *)
Fixpoint tail (elems : list string) : string :=
  match elems with
  | [] => ""
  | e :: rest => "/" ++ e ++ tail rest
  end.

Definition render (rooted : bool) (elems : list string) : string :=
  match elems with
  | [] => if rooted then "/" else "."
  | e :: rest => if rooted then tail elems else e ++ tail rest
  end.

(** [filepath.Clean] where the separator is the slash and there are no
    volume names. *)
Definition Clean (path : string) : string :=
  match path with
  | EmptyString => "."
  | String c _ =>
      let rooted := Ascii.eqb c separator in
      render rooted (List.rev (fold_left (step rooted) (elements path "") []))
  end.

(** [filepath.Join(a, b)]: empty arguments are left out, the rest is
    joined by a separator and cleaned. *)
Definition Join (a b : string) : string :=
  if String.eqb a "" then (if String.eqb b "" then "" else Clean b)
  else Clean (a ++ "/" ++ b).

(** An element as [Clean] keeps it: not empty, not [.], not [..], without
    a separator. *)
Fixpoint noSeparator (s : string) : bool :=
  match s with
  | EmptyString => true
  | String c r => negb (Ascii.eqb c separator) && noSeparator r
  end.

Definition real (e : string) : bool :=
  noSeparator e
  && negb (String.eqb e "") && negb (String.eqb e ".") && negb (String.eqb e "..").

End Filepath.

(** What the machine answers when the client is made: [exec.LookPath] for
    an executable, and [os.UserHomeDir]. *)
Record Machine : Type := mkMachine {
  m_lookPath : string -> string + error;
  m_home : string + error
}.

(** A change to the file system: [os.Mkdir(path, perm)]. *)
Inductive FsEvent : Type :=
| Mkdir (path : string) (perm : N).

(** A call returns, or panics with a value. *)
Inductive Outcome (A : Type) : Type :=
| Returned (a : A)
| Panicked (v : error).
Arguments Returned {A} a.
Arguments Panicked {A} v.

(** [getConfigDir]. The error of [os.Mkdir] is dropped. *)
Definition getConfigDir (m : Machine) (w : World) : list FsEvent * Outcome string :=
  match m_home m with
  | inr err => ([], Panicked err)
  | inl homeDir =>
    let configDir := Filepath.Join homeDir ".tart" in
    if IsNotExist (w_stat w configDir)
    then ([Mkdir configDir 448], Returned configDir)
    else ([], Returned configDir)
  end.

(** [New]. The pointer it returns is [None] when it is nil. *)
Definition New (m : Machine) (w : World)
  : list FsEvent * Outcome (option Tart * option error) :=
  match m_lookPath m "tart" with
  | inr _ => ([], Returned (None, Some (errorString "tart command not found in PATH")))
  | inl _ =>
    match getConfigDir m w with
    | (evs, Panicked v) => (evs, Panicked v)
    | (evs, Returned configDir) =>
        (evs, Returned (Some {| ConfigDir := configDir; Host := "" |}, None))
    end
  end.

(** ** Further notions for the properties *)

(** The error at the bottom of a chain of wrapped errors: what
    [errors.Unwrap] reaches when it is applied until it answers nil. *)
Fixpoint cause (e : error) : error :=
  match e with
  | wrapError _ inner => cause inner
  | _ => e
  end.

(** The value of a field of a [VMState]: an integer or a text. *)
Definition field (f : Decode.Field) (v : VMState.t) : Z + string :=
  match f with
  | Decode.FSizeOnDisk => inl (VMState.SizeOnDisk v)
  | Decode.FDisk => inl (VMState.Disk v)
  | Decode.FName => inr (VMState.Name v)
  | Decode.FSource => inr (VMState.Source v)
  | Decode.FSize => inl (VMState.Size v)
  | Decode.FState => inr (VMState.State v)
  end.

(** A member of an object whose key names a field. *)
Definition known (member : string * JSON.value) : bool :=
  match Decode.lookupField (fst member) with
  | Some _ => true
  | None => false
  end.

(** A JSON value a field takes: [null] for every field, a text for a text
    field, a number that [ParseInt] reads for an integer field. *)
Definition fits (f : Decode.Field) (x : JSON.value) : bool :=
  match x with
  | JSON.Null => true
  | JSON.Number lit =>
      Decode.isIntField f
      && match Decode.ParseInt lit with Some _ => true | None => false end
  | JSON.Str _ => negb (Decode.isIntField f)
  | _ => false
  end.

(** A member that names no field, or names one that takes its value. *)
Definition member_fits (member : string * JSON.value) : bool :=
  match Decode.lookupField (fst member) with
  | Some f => fits f (snd member)
  | None => true
  end.

(** ** What a listing says *)

Definition Field_eqb (f g : Decode.Field) : bool :=
  match f, g with
  | Decode.FSizeOnDisk, Decode.FSizeOnDisk
  | Decode.FDisk, Decode.FDisk
  | Decode.FName, Decode.FName
  | Decode.FSource, Decode.FSource
  | Decode.FSize, Decode.FSize
  | Decode.FState, Decode.FState => true
  | _, _ => false
  end.

(** A member that gives the field [f] a value: its key names [f] and its
    value is not [null]. *)
Definition sets (f : Decode.Field) (member : string * JSON.value) : bool :=
  match Decode.lookupField (fst member), snd member with
  | Some _, JSON.Null => false
  | Some g, _ => Field_eqb g f
  | None, _ => false
  end.

(** What an object says of the field [f]: the value of the last of its
    members that gives [f] a value, if there is one. *)
Fixpoint said (f : Decode.Field) (ms : list (string * JSON.value)) : option JSON.value :=
  match ms with
  | [] => None
  | member :: rest =>
    match said f rest with
    | Some x => Some x
    | None => if sets f member then Some (snd member) else None
    end
  end.

(** A JSON value read as the value of a field: the text of a string, the
    integer of an integer literal. *)
Definition denotes (x : JSON.value) : option (Z + string) :=
  match x with
  | JSON.Str s => Some (inr s)
  | JSON.Number lit =>
      match Decode.ParseInt lit with
      | Some n => Some (inl n)
      | None => None
      end
  | _ => None
  end.

(** The machine [v] is the one the element [x] of a listing describes:
    every field has the value the object says, and the zero value when
    the object does not say one; [null] describes the zero machine. *)
Definition describes (x : JSON.value) (v : VMState.t) : Prop :=
  match x with
  | JSON.Null => v = VMState.zero
  | JSON.Object ms =>
      forall f,
        match said f ms with
        | Some y => denotes y = Some (field f v)
        | None => field f v = field f VMState.zero
        end
  | _ => False
  end.

(** An element of a listing that is a descriptor: [null], or an object in
    which every member that names a field holds [null] or a value of the
    kind of the field. *)
Definition element_fits (x : JSON.value) : bool :=
  match x with
  | JSON.Null => true
  | JSON.Object ms => forallb member_fits ms
  | _ => false
  end.

(** ** Operations as calls *)

(** The operations that run one command and return nothing but its error,
    as calls. *)
Inductive Call : Type :=
| CallSetConfig (name : string) (config : VMConfig.t)
| CallRename (oldName newName : string)
| CallExport (name path : string)
| CallSuspend (name : string)
| CallStop (name : string) (timeout : Z)
| CallDelete (name : string)
| CallPrune (options : PruneOptions.t)
| CallLogin (opts : LoginOptions.t)
| CallLogout
| CallPush (name : string) (options : PushOptions.t)
| CallPull (name : string) (insecure : bool) (concurrency : Z).

Definition perform (t : Tart) (c : Call) : IO (option error) :=
  match c with
  | CallSetConfig name config => SetConfig t name config
  | CallRename oldName newName => Rename t oldName newName
  | CallExport name path => Export t name path
  | CallSuspend name => Suspend t name
  | CallStop name timeout => Stop t name timeout
  | CallDelete name => Delete t name
  | CallPrune options => Prune t options
  | CallLogin opts => Login t opts
  | CallLogout => Logout t
  | CallPush name options => Push t name options
  | CallPull name insecure concurrency => Pull t name insecure concurrency
  end.

(** The arguments each of them hands to [run]. *)
Definition arguments (t : Tart) (c : Call) : list string :=
  match c with
  | CallSetConfig name config => SetConfigArgs name config
  | CallRename oldName newName => ["rename"; oldName; newName]
  | CallExport name path => ExportArgs name path
  | CallSuspend name => ["suspend"; name]
  | CallStop name timeout => StopArgs name timeout
  | CallDelete name => ["delete"; name]
  | CallPrune options => PruneArgs options
  | CallLogin opts => LoginArgs t opts
  | CallLogout => ["logout"; Host t]
  | CallPush name options => PushArgs name options
  | CallPull name insecure concurrency => PullArgs name insecure concurrency
  end.

(** The operations that make a machine under a new name, as calls. *)
Inductive Making : Type :=
| MakeCreate (name : string) (options : CreateOptions.t)
| MakeClone (sourceName newName : string) (options : CloneOptions.t)
| MakeImport (path name : string).

Definition make (t : Tart) (c : Making) : IO (option error) :=
  match c with
  | MakeCreate name options => Create t name options
  | MakeClone sourceName newName options => Clone t sourceName newName options
  | MakeImport path name => Import t path name
  end.

(** The name of the machine to be. *)
Definition newName (c : Making) : string :=
  match c with
  | MakeCreate name _ => name
  | MakeClone _ newName _ => newName
  | MakeImport _ name => name
  end.

Definition makingArgs (c : Making) : list string :=
  match c with
  | MakeCreate name options => CreateArgs name options
  | MakeClone sourceName newName options => CloneArgs sourceName newName options
  | MakeImport path name => ["import"; path; name]
  end.

(** What a caller of [run] that wraps its error returns, given what [run]
    returned: nil for nil, and for an error [err] an error that wraps it
    under a message that ends with the output. *)
Definition wraps (ran : option (string * option error)) (got : option (option error)) : Prop :=
  match ran with
  | None => got = None
  | Some (_, None) => got = Some None
  | Some (output, Some err) =>
      exists pre, got = Some (Some (wrapError (pre ++ Error err ++ ", output: ") err))
  end.

(** ** Sample systems *)

Module Cases.

(** A system with an environment of its own, a home for Tart that exists,
    and one behaviour for every command. *)
Definition settled (spawn : Cmd -> Child) : World :=
  {| w_stat := fun _ => StatOk;
     w_environ := ["HOME=/Users/me"; "TART_HOME=/tmp/elsewhere"];
     w_spawn := spawn |}.

(** A system where no path can be looked at: [os.Stat] fails with an error
    that is not "does not exist". *)
Definition locked (spawn : Cmd -> Child) : World :=
  {| w_stat := fun _ => StatOtherError;
     w_environ := ["HOME=/Users/me"];
     w_spawn := spawn |}.

(** A child whose standard error breaks after its standard output has
    ended. *)
Definition garbled (out why : string) : Child :=
  {| stdoutPipeErr := None; stderrPipeErr := None; startErr := None;
     child_stdout := Sample.eof out;
     child_stderr := {| s_data := ""; s_end := Broken why |};
     child_exit := Some 0%Z |}.

(** A machine with [tart] on the path and a home directory. *)
Definition mac : Machine :=
  {| m_lookPath := fun _ => inl "/opt/homebrew/bin/tart"; m_home := inl "/Users/me" |}.

(** A machine without [tart], and without a home. *)
Definition bare : Machine :=
  {| m_lookPath := fun _ => inr (errorString "executable file not found in $PATH");
     m_home := inr (errorString "$HOME is not defined") |}.

(** A machine with [tart] and without a home. *)
Definition homeless : Machine :=
  {| m_lookPath := fun _ => inl "/opt/homebrew/bin/tart";
     m_home := inr (errorString "$HOME is not defined") |}.

(** A listing of two machines in which the disk size of the second is not
    an integer. *)
Definition fractional : string :=
  "[{" ++ Sample.q "Name" ++ ":" ++ Sample.q "a" ++ "," ++ Sample.q "Disk" ++ ":50},{"
       ++ Sample.q "Name" ++ ":" ++ Sample.q "b" ++ "," ++ Sample.q "Disk" ++ ":1.5}]".

(** A listing with two machines of one name, the first running and the
    second stopped. *)
Definition twins : string :=
  "[{" ++ Sample.q "Name" ++ ":" ++ Sample.q "vm" ++ "," ++ Sample.q "State" ++ ":"
       ++ Sample.q "running" ++ "},{"
       ++ Sample.q "Name" ++ ":" ++ Sample.q "vm" ++ "," ++ Sample.q "State" ++ ":"
       ++ Sample.q "stopped" ++ "}]".

(** A system in which every command exits with status 1 after a line on
    its standard error. *)
Definition refusing : World :=
  Sample.system (fun _ => Sample.exits "" "no such thing" 1).

(** A listing whose machine has a disk of 2^63 units, one more than a Go
    [int] holds. *)
Definition overflowing : string :=
  "[{" ++ Sample.q "Name" ++ ":" ++ Sample.q "vm" ++ "," ++ Sample.q "Disk"
       ++ ":9223372036854775808}]".

End Cases.
(** * Properties *)

(** ** The process runner *)

Lemma setTartHome_result (t : Tart) (cmd : Cmd) (w : World) :
  exists cmd' err, setTartHome t cmd w = ([], Some (cmd', err)).
Proof.
  unfold setTartHome.
  destruct (nonempty (ConfigDir t)); [| eexists; eexists; reflexivity].
  unfold bind, os_Stat, ask, ret; simpl.
  destruct (IsNotExist (w_stat w (ConfigDir t))); simpl;
    eexists; eexists; reflexivity.
Qed.

Lemma setTartHome_cmdOf (t : Tart) (args : list string) (w : World) :
  exists err,
    setTartHome t (exec_Command "tart" args) w = ([], Some (cmdOf t args w, err)).
Proof.
  destruct (setTartHome_result t (exec_Command "tart" args) w) as (c & e & H).
  exists e. unfold cmdOf, result_of. rewrite H. reflexivity.
Qed.

Lemma run_unfold (t : Tart) (args : list string) (w : World) :
  run t args w = run_spec t args w.
Proof.
  unfold run, run_spec.
  destruct (setTartHome_cmdOf t args w) as (e0 & H0).
  unfold bind at 1. rewrite H0. simpl.
  set (cmd := cmdOf t args w).
  cbv [bind StdoutPipe StderrPipe Start Wait ReadAll ask ret emit block].
  destruct (stdoutPipeErr (w_spawn w cmd)); simpl; [reflexivity |].
  destruct (stderrPipeErr (w_spawn w cmd)); simpl; [reflexivity |].
  destruct (startErr (w_spawn w cmd)); simpl; [reflexivity |].
  destruct (s_end (child_stdout (w_spawn w cmd))); simpl; try reflexivity.
  destruct (s_end (child_stderr (w_spawn w cmd))); simpl; try reflexivity.
  destruct (child_exit (w_spawn w cmd)) as [code |]; simpl; [| reflexivity].
  destruct (code =? 0)%Z; reflexivity.
Qed.

Lemma HasPrefix_app (p s : string) : HasPrefix (p ++ s) p = true.
Proof.
  induction p as [| c p IH]; simpl.
  - destruct s; reflexivity.
  - rewrite Ascii.eqb_refl. exact IH.
Qed.

Lemma append_empty_r (s : string) : s ++ "" = s.
Proof. induction s as [| c s IH]; simpl; [reflexivity | now rewrite IH]. Qed.

Lemma Error_Errorf_w (pre : string) (e : error) :
  Error (Errorf_w pre e "") = pre ++ Error e.
Proof. simpl. now rewrite append_empty_r. Qed.

(** C1. [run] by the fate of the child. When the pipes can be made: a
    command that cannot be started gives an error that wraps the cause,
    reads "failed to start command: ...", is not a "command failed: ..."
    error, comes with no output and with no child made; a child that is
    started, closes both streams and exits with status zero gives all the
    bytes of its standard output and no error; one that exits with another
    status gives no output and an error that wraps the exit error and
    carries the text of its standard error. *)
Theorem run_result_by_exit (t : Tart) (args : list string) (w : World) :
  let cmd := cmdOf t args w in
  let c := childOf t args w in
  stdoutPipeErr c = None ->
  stderrPipeErr c = None ->
  (forall e, startErr c = Some e ->
     exists err,
       run t args w = ([StartFailed cmd], Some ("", Some err)) /\
       Unwrap err = Some e /\
       Error err = "failed to start command: " ++ Error e /\
       HasPrefix (Error err) "command failed: " = false)
  /\
  (startErr c = None ->
   s_end (child_stdout c) = AtEOF ->
   s_end (child_stderr c) = AtEOF ->
   (child_exit c = Some 0%Z ->
      run t args w = ([Spawned cmd; Waited cmd], Some (s_data (child_stdout c), None)))
   /\
   (forall code, child_exit c = Some code -> code <> 0%Z ->
      exists err,
        run t args w = ([Spawned cmd; Waited cmd], Some ("", Some err)) /\
        Unwrap err = Some (ExitError code) /\
        Error err = "command failed: " ++ Error (ExitError code)
                      ++ ", stderr: " ++ s_data (child_stderr c) /\
        HasPrefix (Error err) "command failed: " = true)).
Proof.
  intros cmd c Hout Herr. subst c cmd. unfold childOf in *.
  rewrite run_unfold. unfold run_spec. rewrite Hout, Herr.
  split.
  - intros e He. rewrite He. eexists. split; [reflexivity |].
    split; [reflexivity |]. split; [apply Error_Errorf_w | reflexivity].
  - intros Hs Ho He. rewrite Hs, Ho, He. split.
    + intros Hx. rewrite Hx. reflexivity.
    + intros code Hx Hne. rewrite Hx.
      destruct (Z.eqb_spec code 0) as [-> | _]; [congruence |].
      eexists. split; [reflexivity |]. split; [reflexivity |].
      split; [reflexivity |].
      unfold Errorf_w, Error. apply HasPrefix_app.
Qed.

(** The three cases of C1 on sample systems: a child that prints a line
    and exits with zero, one that complains and exits with one, and an
    executable that cannot be started. *)
Lemma run_result_by_exit_witness :
  run Sample.tart ["get"; "vm"] (Sample.system (fun _ => Sample.exits (Sample.ln "hello") "" 0))
  = ([Spawned (exec_Command "tart" ["get"; "vm"]);
      Waited (exec_Command "tart" ["get"; "vm"])], Some ((Sample.ln "hello"), None))
  /\ (exists err,
        run Sample.tart ["get"; "vm"] (Sample.system (fun _ => Sample.exits "" "no such VM" 1))
        = ([Spawned (exec_Command "tart" ["get"; "vm"]);
            Waited (exec_Command "tart" ["get"; "vm"])], Some ("", Some err))
        /\ Error err = "command failed: exit status 1, stderr: no such VM")
  /\ (exists err,
        run Sample.tart ["get"; "vm"]
          (Sample.system (fun _ => Sample.unstartable "permission denied"))
        = ([StartFailed (exec_Command "tart" ["get"; "vm"])], Some ("", Some err))
        /\ Error err = "failed to start command: permission denied").
Proof.
  split; [| split].
  - apply (run_result_by_exit Sample.tart ["get"; "vm"]
             (Sample.system (fun _ => Sample.exits (Sample.ln "hello") "" 0))); reflexivity.
  - destruct (run_result_by_exit Sample.tart ["get"; "vm"]
                (Sample.system (fun _ => Sample.exits "" "no such VM" 1))
                eq_refl eq_refl) as [_ H].
    destruct (H eq_refl eq_refl eq_refl) as [_ H1].
    destruct (H1 1%Z eq_refl ltac:(discriminate)) as (err & Hr & _ & He & _).
    exists err. split; [exact Hr | exact He].
  - destruct (run_result_by_exit Sample.tart ["get"; "vm"]
                (Sample.system (fun _ => Sample.unstartable "permission denied"))
                eq_refl eq_refl) as [H _].
    destruct (H _ eq_refl) as (err & Hr & _ & He & _).
    exists err. split; [exact Hr | exact He].
Defined.

Lemma nonempty_true (s : string) : s <> "" -> nonempty s = true.
Proof.
  intros H. unfold nonempty. destruct (String.eqb_spec s ""); [contradiction | reflexivity].
Qed.

(** The events of [run] after a successful start: the child is made, and
    nothing else is started. *)
Lemma run_spawns (t : Tart) (args : list string) (w : World) :
  stdoutPipeErr (childOf t args w) = None ->
  stderrPipeErr (childOf t args w) = None ->
  startErr (childOf t args w) = None ->
  spawns (trace_of (run t args) w) = [cmdOf t args w].
Proof.
  unfold childOf, trace_of. intros Ho He Hs.
  rewrite run_unfold. unfold run_spec. rewrite Ho, He, Hs.
  destruct (s_end (child_stdout _)); try reflexivity.
  destruct (s_end (child_stderr _)); try reflexivity.
  destruct (child_exit _) as [code |]; [| reflexivity].
  destruct (code =? 0)%Z; reflexivity.
Qed.

(** C10. [run] drops the error of [setTartHome]. For a [Tart] whose
    [ConfigDir] is not empty and names a directory that does not exist,
    [setTartHome] answers "config directory does not exist" and leaves the
    command as it was, with a nil [Env]; [run] goes on with that command,
    and when the system lets it make the pipes and start the process the
    child is spawned from the command without any [TART_HOME], under
    the environment of the parent. *)
Theorem run_drops_setTartHome_error (t : Tart) (args : list string) (w : World) :
  let cmd := exec_Command "tart" args in
  ConfigDir t <> "" ->
  w_stat w (ConfigDir t) = StatNotExist ->
  stdoutPipeErr (w_spawn w cmd) = None ->
  stderrPipeErr (w_spawn w cmd) = None ->
  startErr (w_spawn w cmd) = None ->
  setTartHome t cmd w = ([], Some (cmd, Some (errorString "config directory does not exist")))
  /\ Env cmd = None
  /\ spawns (trace_of (run t args) w) = [cmd].
Proof.
  intros cmd Hdir Hstat Ho He Hs.
  assert (Hset : setTartHome t cmd w
                 = ([], Some (cmd, Some (errorString "config directory does not exist")))).
  { unfold setTartHome. rewrite (nonempty_true _ Hdir).
    cbv [bind os_Stat ask ret]. rewrite Hstat. reflexivity. }
  assert (Hcmd : cmdOf t args w = cmd).
  { unfold cmdOf, result_of. fold cmd. rewrite Hset. reflexivity. }
  split; [exact Hset |]. split; [reflexivity |].
  rewrite run_spawns; unfold childOf; rewrite Hcmd; [reflexivity | assumption ..].
Qed.

(** C10 on a sample system without the directory [/Users/me/.tart]: the
    child of [tart get vm] is spawned with a nil [Env]. *)
Lemma run_drops_setTartHome_error_witness :
  spawns (trace_of (run Sample.homed ["get"; "vm"])
            (Sample.bare (fun _ => Sample.exits "{}" "" 0)))
  = [{| Path := "tart"; Args := ["get"; "vm"]; Env := None |}].
Proof.
  apply (run_drops_setTartHome_error Sample.homed ["get"; "vm"]
           (Sample.bare (fun _ => Sample.exits "{}" "" 0)));
    [discriminate | reflexivity | reflexivity | reflexivity | reflexivity].
Defined.

(** ** The readiness watcher *)

Lemma List_State (t : Tart) (name : string) (w : World) tr vms :
  List t ListOptions.zero w = (tr, Some (vms, None)) ->
  State t name w = (tr, Some (State_loop vms name VMState.zero, None)).
Proof.
  intros H. unfold State. cbv [bind]. rewrite H. cbv [ret].
  now rewrite app_nil_r.
Qed.

Lemma Run_unfold (t : Tart) (name : string) (options : RunOptions.t) (w : World) tr0 s :
  State t name w = (tr0, Some (s, None)) ->
  String.eqb (VMState.State s) "running" = false ->
  String.eqb (VMState.Name s) name = true ->
  Run t name options w
  = ((tr0 ++ fst (Run_launch t name options w))%list, snd (Run_launch t name options w)).
Proof.
  intros HS Hrun Hname. unfold Run. unfold bind at 1. rewrite HS.
  rewrite Hrun, Hname. cbn [negb].
  destruct (setTartHome_cmdOf t (RunArgs name options) w) as (e0 & H0).
  unfold Run_launch. set (cmd := cmdOf t (RunArgs name options) w) in *.
  unfold bind at 1. rewrite H0. cbn [app].
  cbv [bind StdoutPipe Start Wait ask ret emit block].
  destruct (stdoutPipeErr (w_spawn w cmd)); [reflexivity |].
  destruct (startErr (w_spawn w cmd)); [reflexivity |].
  destruct (watch _ _ w) as [tr [[| err |] |]]; cbn; try reflexivity.
  - destruct (child_exit (w_spawn w cmd)) as [code |]; cbn; [| reflexivity].
    destruct (code =? 0)%Z; reflexivity.
  - now rewrite app_nil_r.
  - now rewrite app_nil_r.
Qed.

Lemma cutAfter_line (d : ascii) (l rest : string) :
  cutAfter d l = Some (l, "") -> cutAfter d (l ++ rest) = Some (l, rest).
Proof.
  induction l as [| c l IH]; simpl; [discriminate |].
  destruct (Ascii.eqb c d).
  - intros H. injection H as H. now subst l.
  - destruct (cutAfter d l) as [[l' r'] |] eqn:E; [| discriminate].
    intros H. injection H as H1 H2. subst l' r'.
    now rewrite (IH eq_refl).
Qed.

Lemma cutAfter_none_app (d : ascii) (l : string) :
  cutAfter d l = None -> forall rest, cutAfter d (l ++ rest) =
    match cutAfter d rest with
    | Some (x, r) => Some (l ++ x, r)
    | None => None
    end.
Proof.
  induction l as [| c l IH]; simpl; intros H rest.
  - destruct (cutAfter d rest) as [[x r] |]; reflexivity.
  - destruct (Ascii.eqb c d); [discriminate |].
    destruct (cutAfter d l) as [[l' r'] |] eqn:E; [discriminate |].
    rewrite (IH eq_refl rest).
    destruct (cutAfter d rest) as [[x r] |]; reflexivity.
Qed.

Lemma is_line_length (l : string) : is_line l -> 1 <= String.length l.
Proof. destruct l; [discriminate | simpl; lia]. Qed.

Lemma length_append (a b : string) :
  String.length (a ++ b) = String.length a + String.length b.
Proof. induction a as [| c a IH]; simpl; [reflexivity | now rewrite IH]. Qed.

Lemma join_length (pre : list string) :
  Forall quiet_line pre -> length pre <= String.length (join pre).
Proof.
  induction 1 as [| l pre [Hl _] _ IH]; simpl; [lia |].
  rewrite length_append. pose proof (is_line_length _ Hl). lia.
Qed.

(** One turn of the loop on a line without the marker. *)
Lemma watch_quiet_line (w : World) (l data : string) (e : StreamEnd) (fuel : nat) :
  quiet_line l ->
  watch (S fuel) {| s_data := l ++ data; s_end := e |} w
  = watch fuel {| s_data := data; s_end := e |} w.
Proof.
  intros [Hl Hq]. cbn [watch]. unfold ReadString. cbn [s_data s_end].
  rewrite (cutAfter_line _ _ data Hl). cbv [bind ret]. rewrite Hq.
  destruct (watch fuel _ w) as [tr r]. reflexivity.
Qed.

Lemma watch_quiet_lines (w : World) (data : string) (e : StreamEnd) (pre : list string) :
  Forall quiet_line pre ->
  forall fuel,
    watch (length pre + fuel) {| s_data := join pre ++ data; s_end := e |} w
    = watch fuel {| s_data := data; s_end := e |} w.
Proof.
  induction 1 as [| l pre Hl _ IH]; intros fuel; [reflexivity |].
  cbn [join length Nat.add].
  replace ((l ++ join pre) ++ data) with (l ++ (join pre ++ data)).
  - rewrite (watch_quiet_line w _ _ e _ Hl). apply IH.
  - clear. induction l as [| c l IHl]; simpl; [reflexivity | now rewrite IHl].
Qed.

(** The fuel [Run] gives the loop covers the lines before the one that
    decides. *)
Lemma watch_fuel_split (pre : list string) (data : string) (e : StreamEnd) :
  Forall quiet_line pre ->
  exists k,
    watch_fuel {| s_data := join pre ++ data; s_end := e |} = length pre + S k.
Proof.
  intros H. unfold watch_fuel. cbn [s_data]. rewrite length_append.
  pose proof (join_length _ H).
  exists (String.length (join pre) - length pre + String.length data). lia.
Qed.

(** *** The bound of the loop *)

Lemma cutAfter_length (d : ascii) (s l r : string) :
  cutAfter d s = Some (l, r) -> String.length r < String.length s.
Proof.
  revert l r. induction s as [| c s IH]; intros l r; cbn [cutAfter]; [discriminate |].
  destruct (Ascii.eqb c d).
  - intros [= _ <-]. simpl. lia.
  - destruct (cutAfter d s) as [[l' r'] |]; [| discriminate].
    intros [= _ <-]. specialize (IH l' r' eq_refl). simpl. lia.
Qed.

(** The loop of [Run] never stops for want of fuel. *)
Lemma watch_fuel_enough (w : World) (fuel : nat) :
  forall reader,
    String.length (s_data reader) < fuel ->
    snd (watch fuel reader w) <> Some OutOfFuel.
Proof.
  induction fuel as [| fuel IH]; intros reader Hlen; [lia |].
  cbn [watch]. unfold ReadString.
  destruct (cutAfter newline (s_data reader)) as [[line rest] |] eqn:E.
  - apply cutAfter_length in E. cbv [bind ret emit].
    destruct (Contains line marker); cbn; [discriminate |].
    specialize (IH {| s_data := rest; s_end := s_end reader |}).
    cbn [s_data] in IH.
    destruct (watch fuel _ w) as [tr res]. cbn in *. apply IH. lia.
  - destruct (s_end reader); cbv [bind ret block isEOF]; cbn; discriminate.
Qed.

Lemma Run_watch_fuel_enough (w : World) (serialOut : Stream) :
  snd (watch (watch_fuel serialOut) serialOut w) <> Some OutOfFuel.
Proof. apply watch_fuel_enough. unfold watch_fuel. lia. Qed.

(** *** What the loop decides *)

Lemma Run_watch (t : Tart) (name : string) (options : RunOptions.t) (w : World)
      tr0 s (pre : list string) (data : string) (e : StreamEnd) :
  State t name w = (tr0, Some (s, None)) ->
  VMState.State s <> "running" ->
  VMState.Name s = name ->
  stdoutPipeErr (childOf t (RunArgs name options) w) = None ->
  startErr (childOf t (RunArgs name options) w) = None ->
  child_stdout (childOf t (RunArgs name options) w)
  = {| s_data := join pre ++ data; s_end := e |} ->
  Forall quiet_line pre ->
  exists k,
    Run t name options w
    = let cmd := cmdOf t (RunArgs name options) w in
      match watch (S k) {| s_data := data; s_end := e |} w with
      | (tr, None) => ((tr0 ++ Spawned cmd :: tr)%list, None)
      | (tr, Some OutOfFuel) => ((tr0 ++ Spawned cmd :: tr)%list, None)
      | (tr, Some (Return err)) => ((tr0 ++ Spawned cmd :: tr)%list, Some err)
      | (tr, Some Break) =>
        match child_exit (childOf t (RunArgs name options) w) with
        | None => ((tr0 ++ Spawned cmd :: tr ++ [Waited cmd])%list, None)
        | Some code =>
            ((tr0 ++ Spawned cmd :: tr ++ [Waited cmd])%list,
             Some (if (code =? 0)%Z then None
                   else Some (Errorf_w "VM process exited with error: " (ExitError code) "")))
        end
      end.
Proof.
  unfold childOf. intros HS Hrun Hname Ho Hst Hout Hpre.
  destruct (watch_fuel_split pre data e Hpre) as [k Hk]. exists k.
  rewrite (Run_unfold t name options w tr0 s HS).
  - unfold Run_launch. rewrite Ho, Hst, Hout, Hk.
    rewrite (watch_quiet_lines w data e pre Hpre).
    destruct (watch (S k) _ w) as [tr [[| err |] |]]; cbn [fst snd]; try reflexivity.
    destruct (child_exit _); reflexivity.
  - now apply String.eqb_neq.
  - now apply String.eqb_eq.
Qed.

(** C2. Once the checks on the machine have passed and the process is
    started: if the standard output delivers some lines without the marker
    and then a line that contains "VM is up", [Run] returns nil when it has
    read that line. Whatever follows on the stream, whether the stream is
    ever closed and whether the child ever exits plays no part: after the
    start the only event is the message printed, and the child is not
    waited for. *)
Theorem Run_returns_at_marker (t : Tart) (name : string) (options : RunOptions.t)
        (w : World) tr0 s (pre : list string) (line rest : string) (e : StreamEnd) :
  State t name w = (tr0, Some (s, None)) ->
  VMState.State s <> "running" ->
  VMState.Name s = name ->
  stdoutPipeErr (childOf t (RunArgs name options) w) = None ->
  startErr (childOf t (RunArgs name options) w) = None ->
  child_stdout (childOf t (RunArgs name options) w)
  = {| s_data := join pre ++ line ++ rest; s_end := e |} ->
  Forall quiet_line pre ->
  is_line line ->
  Contains line marker = true ->
  Run t name options w
  = ((tr0 ++ [Spawned (cmdOf t (RunArgs name options) w);
              Printed "VM is up and running"])%list,
     Some None).
Proof.
  intros HS Hrun Hname Ho Hst Hout Hpre Hline Hmark.
  destruct (Run_watch t name options w tr0 s pre _ e HS Hrun Hname Ho Hst Hout Hpre) as [k ->].
  cbn [watch]. unfold ReadString. cbn [s_data s_end].
  rewrite (cutAfter_line _ _ rest Hline). cbv [bind ret emit]. rewrite Hmark.
  reflexivity.
Qed.

(** C2 on the stream of the specification: "booting..." and "VM is up",
    then silence on a stream that stays open, from a child that never
    exits. *)
Lemma Run_returns_at_marker_witness :
  Run Sample.tart "vm" RunOptions.zero
      (Sample.system
         (Sample.hosting Sample.listing
            (Sample.lingers (Sample.ln "booting..." ++ Sample.ln "VM is up"))))
  = ([Spawned (exec_Command "tart" ["list"; "--format"; "json"]);
      Waited (exec_Command "tart" ["list"; "--format"; "json"]);
      Spawned (exec_Command "tart" ["run"; "vm"]);
      Printed "VM is up and running"],
     Some None).
Proof.
  apply (Run_returns_at_marker Sample.tart "vm" RunOptions.zero _
           [Spawned (exec_Command "tart" ["list"; "--format"; "json"]);
            Waited (exec_Command "tart" ["list"; "--format"; "json"])]
           (VMState.mk 22 50 "vm" "local" 21 "stopped")
           [Sample.ln "booting..."] (Sample.ln "VM is up") "" StaysOpen).
  - vm_compute. reflexivity.
  - discriminate.
  - reflexivity.
  - reflexivity.
  - reflexivity.
  - reflexivity.
  - repeat constructor.
  - reflexivity.
  - reflexivity.
Defined.

(** C3. Once the checks on the machine have passed and the process is
    started, let the standard output deliver lines without the marker and
    then end before another line is complete. If it ends with end of file,
    [Run] waits for the child and returns nil for exit status zero and a
    "VM process exited with error" error otherwise. If it ends with a read
    error that is not end of file, [Run] returns a "failed to read serial
    output" error that wraps it, and the child is not waited for. If it
    never ends, [Run] does not return. *)
Theorem Run_at_end_of_stream (t : Tart) (name : string) (options : RunOptions.t)
        (w : World) tr0 s (pre : list string) (tail : string) (e : StreamEnd) :
  State t name w = (tr0, Some (s, None)) ->
  VMState.State s <> "running" ->
  VMState.Name s = name ->
  stdoutPipeErr (childOf t (RunArgs name options) w) = None ->
  startErr (childOf t (RunArgs name options) w) = None ->
  child_stdout (childOf t (RunArgs name options) w)
  = {| s_data := join pre ++ tail; s_end := e |} ->
  Forall quiet_line pre ->
  cutAfter newline tail = None ->
  let cmd := cmdOf t (RunArgs name options) w in
  match e with
  | AtEOF =>
      forall code, child_exit (childOf t (RunArgs name options) w) = Some code ->
        Run t name options w
        = ((tr0 ++ [Spawned cmd; Waited cmd])%list,
           Some (if (code =? 0)%Z then None
                 else Some (wrapError ("VM process exited with error: "
                                       ++ Error (ExitError code))
                                      (ExitError code))))
  | Broken m =>
      Run t name options w
      = ((tr0 ++ [Spawned cmd])%list,
         Some (Some (wrapError ("failed to read serial output: " ++ m) (SyscallError m))))
  | StaysOpen =>
      Run t name options w = ((tr0 ++ [Spawned cmd])%list, None)
  end.
Proof.
  intros HS Hrun Hname Ho Hst Hout Hpre Htail cmd.
  destruct (Run_watch t name options w tr0 s pre _ e HS Hrun Hname Ho Hst Hout Hpre)
    as [k HR].
  cbn [watch] in HR. unfold ReadString in HR. cbn [s_data s_end] in HR.
  rewrite Htail in HR. fold cmd in HR.
  destruct e as [| m |]; cbv [bind ret block isEOF] in HR; cbn in HR.
  - intros code Hcode. rewrite Hcode in HR. rewrite HR.
    unfold Errorf_w. rewrite append_empty_r. reflexivity.
  - rewrite HR. unfold Errorf_w. cbn [Error]. rewrite append_empty_r. reflexivity.
  - exact HR.
Qed.

(** C3 on two sample streams that hold one line, "booting...": one that
    reaches end of file from a child that exits with status one, and one
    that breaks with "input/output error". *)
Lemma Run_at_end_of_stream_witness :
  Run Sample.tart "vm" RunOptions.zero
      (Sample.system
         (Sample.hosting Sample.listing (Sample.exits (Sample.ln "booting...") "" 1)))
  = ([Spawned (exec_Command "tart" ["list"; "--format"; "json"]);
      Waited (exec_Command "tart" ["list"; "--format"; "json"]);
      Spawned (exec_Command "tart" ["run"; "vm"]);
      Waited (exec_Command "tart" ["run"; "vm"])],
     Some (Some (wrapError "VM process exited with error: exit status 1" (ExitError 1))))
  /\
  Run Sample.tart "vm" RunOptions.zero
      (Sample.system
         (Sample.hosting Sample.listing
            (Sample.breaks (Sample.ln "booting...") "input/output error")))
  = ([Spawned (exec_Command "tart" ["list"; "--format"; "json"]);
      Waited (exec_Command "tart" ["list"; "--format"; "json"]);
      Spawned (exec_Command "tart" ["run"; "vm"])],
     Some (Some (wrapError "failed to read serial output: input/output error"
                   (SyscallError "input/output error")))).
Proof.
  split.
  - refine (Run_at_end_of_stream Sample.tart "vm" RunOptions.zero _
              [Spawned (exec_Command "tart" ["list"; "--format"; "json"]);
               Waited (exec_Command "tart" ["list"; "--format"; "json"])]
              (VMState.mk 22 50 "vm" "local" 21 "stopped")
              [Sample.ln "booting..."] "" AtEOF _ _ _ _ _ _ _ _ 1%Z _);
      first [reflexivity | discriminate | repeat constructor].
  - refine (Run_at_end_of_stream Sample.tart "vm" RunOptions.zero _
              [Spawned (exec_Command "tart" ["list"; "--format"; "json"]);
               Waited (exec_Command "tart" ["list"; "--format"; "json"])]
              (VMState.mk 22 50 "vm" "local" 21 "stopped")
              [Sample.ln "booting..."] "" (Broken "input/output error") _ _ _ _ _ _ _ _);
      first [reflexivity | discriminate | repeat constructor].
Defined.

(** ** The checks before a command *)

Lemma cmdOf_Args (t : Tart) (args : list string) (w : World) :
  Args (cmdOf t args w) = args.
Proof.
  unfold cmdOf, result_of, setTartHome.
  destruct (nonempty (ConfigDir t)); [| reflexivity].
  cbv [bind os_Stat os_Environ ask ret]. cbn.
  destruct (IsNotExist (w_stat w (ConfigDir t))); reflexivity.
Qed.

(** [run] starts the command of its arguments and nothing else. *)
Lemma run_starts (t : Tart) (args : list string) (w : World) :
  Forall (fun c => Args c = args) (starts (trace_of (run t args) w)).
Proof.
  unfold trace_of. rewrite run_unfold. unfold run_spec.
  pose proof (cmdOf_Args t args w) as HA.
  destruct (stdoutPipeErr _); [constructor |].
  destruct (stderrPipeErr _); [constructor |].
  destruct (startErr _); [repeat constructor; exact HA |].
  destruct (s_end (child_stdout _)); try (repeat constructor; exact HA).
  destruct (s_end (child_stderr _)); try (repeat constructor; exact HA).
  destruct (child_exit _) as [code |]; [| repeat constructor; exact HA].
  destruct (code =? 0)%Z; repeat constructor; exact HA.
Qed.

(** [List] starts [tart list] and nothing else. *)
Lemma List_starts (t : Tart) (config : ListOptions.t) (w : World) :
  Forall (fun c => Args c = ListArgs config) (starts (trace_of (List t config) w)).
Proof.
  unfold trace_of, List.
  destruct (invalidSource config); [constructor |].
  pose proof (run_starts t (ListArgs config) w) as H. unfold trace_of in H.
  cbv [bind]. destruct (run t (ListArgs config) w) as [tr [[output [err |]] |]];
    cbn [fst] in *.
  - cbv [ret]. now rewrite app_nil_r.
  - destruct (Unmarshal output) as [vms [err |]]; cbv [ret]; now rewrite app_nil_r.
  - exact H.
Qed.

Lemma nameTaken_In (vms : list VMState.t) (name : string) :
  nameTaken vms name = true <-> In name (map VMState.Name vms).
Proof.
  induction vms as [| v vms IH]; simpl; [split; [discriminate | tauto] |].
  destruct (String.eqb_spec (VMState.Name v) name) as [E | NE].
  - split; auto.
  - rewrite IH. split; [auto | intros [H | H]; [contradiction | exact H]].
Qed.

Lemma State_loop_missing (vms : list VMState.t) (name : string) (ret0 : VMState.t) :
  ~ In name (map VMState.Name vms) -> State_loop vms name ret0 = ret0.
Proof.
  induction vms as [| v vms IH]; simpl; [reflexivity |].
  intros H. destruct (String.eqb_spec (VMState.Name v) name) as [E | NE]; [tauto |].
  apply IH. tauto.
Qed.

Lemma State_loop_found (vms : list VMState.t) (name : string) (ret0 : VMState.t) :
  In name (map VMState.Name vms) ->
  In (State_loop vms name ret0) vms /\ VMState.Name (State_loop vms name ret0) = name.
Proof.
  induction vms as [| v vms IH]; simpl; [tauto |].
  intros H. destruct (String.eqb_spec (VMState.Name v) name) as [E | NE]; [auto |].
  destruct IH as [H1 H2]; [tauto | auto].
Qed.

(** A machine that is listed as running is not started again: [Run] ends
    with the events of the listing. *)
Lemma Run_already_running (t : Tart) (name : string) (options : RunOptions.t)
      (w : World) tr vms :
  List t ListOptions.zero w = (tr, Some (vms, None)) ->
  VMState.State (State_loop vms name VMState.zero) = "running" ->
  Run t name options w = (tr, Some (Some (errorString "VM is already running"))).
Proof.
  intros HL Hr. unfold Run. unfold bind at 1.
  rewrite (List_State t name w tr vms HL). rewrite Hr. cbn. f_equal. apply app_nil_r.
Qed.

(** A machine that is not listed is not started, when its name is not
    empty. *)
Lemma Run_does_not_exist (t : Tart) (name : string) (options : RunOptions.t)
      (w : World) tr vms :
  List t ListOptions.zero w = (tr, Some (vms, None)) ->
  ~ In name (map VMState.Name vms) ->
  name <> "" ->
  Run t name options w
  = (tr, Some (Some (errorString ("VM with name " ++ name ++ " does not exist")))).
Proof.
  intros HL Hmiss Hne. unfold Run. unfold bind at 1.
  rewrite (List_State t name w tr vms HL).
  rewrite (State_loop_missing vms name _ Hmiss). cbn [VMState.State VMState.Name VMState.zero].
  destruct name as [| c name']; [congruence |].
  cbn. f_equal. apply app_nil_r.
Qed.

(** [Create] and [Clone] stop at a name that is listed, with the events of
    the listing. *)
Lemma Create_already_exists (t : Tart) (name : string) (options : CreateOptions.t)
      (w : World) tr vms :
  List t ListOptions.zero w = (tr, Some (vms, None)) ->
  In name (map VMState.Name vms) ->
  Create t name options w
  = (tr, Some (Some (errorString ("VM with name " ++ name ++ " already exists"))))
  /\ Forall (fun c => Args c = ["list"; "--format"; "json"])
            (starts (trace_of (Create t name options) w)).
Proof.
  intros HL Hin.
  assert (E : Create t name options w
              = (tr, Some (Some (errorString ("VM with name " ++ name ++ " already exists"))))).
  { unfold Create. unfold bind at 1. rewrite HL.
    apply nameTaken_In in Hin. rewrite Hin. cbv [ret]. now rewrite app_nil_r. }
  split; [exact E |]. unfold trace_of. rewrite E.
  pose proof (List_starts t ListOptions.zero w) as H. unfold trace_of in H.
  now rewrite HL in H.
Qed.

Lemma Clone_already_exists (t : Tart) (sourceName newName : string)
      (options : CloneOptions.t) (w : World) tr vms :
  List t ListOptions.zero w = (tr, Some (vms, None)) ->
  In newName (map VMState.Name vms) ->
  Clone t sourceName newName options w
  = (tr, Some (Some (errorString ("VM with name " ++ newName ++ " already exists"))))
  /\ Forall (fun c => Args c = ["list"; "--format"; "json"])
            (starts (trace_of (Clone t sourceName newName options) w)).
Proof.
  intros HL Hin.
  assert (E : Clone t sourceName newName options w
              = (tr, Some (Some (errorString
                                   ("VM with name " ++ newName ++ " already exists"))))).
  { unfold Clone. unfold bind at 1. rewrite HL.
    apply nameTaken_In in Hin. rewrite Hin. cbv [ret]. now rewrite app_nil_r. }
  split; [exact E |]. unfold trace_of. rewrite E.
  pose proof (List_starts t ListOptions.zero w) as H. unfold trace_of in H.
  now rewrite HL in H.
Qed.

(** C4, at the input where it fails. [Run] takes the zero [VMState] that
    [State] returns for a missing machine and compares its empty [Name]
    with the name asked for. For the empty name the two are equal: with no
    machine listed at all, [Run] goes on, starts [tart run] with an empty
    name and waits for it, and the error it returns is the exit status of
    that child, not "does not exist". *)
Theorem Run_empty_name_is_started :
  Run Sample.tart "" RunOptions.zero
      (Sample.system (Sample.hosting "[]" (Sample.exits "" "no such VM" 1)))
  = ([Spawned (exec_Command "tart" ["list"; "--format"; "json"]);
      Waited (exec_Command "tart" ["list"; "--format"; "json"]);
      Spawned (exec_Command "tart" ["run"; ""]);
      Waited (exec_Command "tart" ["run"; ""])],
     Some (Some (wrapError "VM process exited with error: exit status 1" (ExitError 1)))).
Proof. vm_compute. reflexivity. Qed.

(** ** The argument builders *)

Lemma append_assoc (a b c : string) : (a ++ b) ++ c = a ++ b ++ c.
Proof. induction a as [| x a IH]; simpl; [reflexivity | now rewrite IH]. Qed.

(** C5, as stated, fails: the code appends the sync mode whenever the
    options segment exists, also without a tag, and puts no comma before
    it. A read-only mount without tag and with sync mode [full] gets the
    token [/tmp/x:rosync=full]; by the grammar of the specification the sync mode
    is dropped and the token is [/tmp/x:ro]. *)
Lemma dirArg_sync_without_tag :
  dirArg (DirMount.mk "" "/tmp/x" true "full" "") = "/tmp/x:rosync=full"
  /\ grammarToken (DirMount.mk "" "/tmp/x" true "full" "") = "/tmp/x:ro"
  /\ dirArg (DirMount.mk "" "/tmp/x" true "full" "")
     <> grammarToken (DirMount.mk "" "/tmp/x" true "full" "").
Proof. repeat split; try reflexivity. discriminate. Qed.

(** C5, amended. The token starts with the path, preceded by the name and
    a colon only when the name is not empty. When the mount is neither
    read-only nor tagged the token is exactly that, without a trailing
    colon, and a sync mode is dropped. When it is read-only or tagged the
    token goes on with a colon and the options [ro], [tag=TAG] or
    [ro,tag=TAG]; with an empty sync mode it ends there, and with a sync
    mode it ends with [sync=MODE], tag or no tag. The two tokens of the
    specification are as it says. *)
Theorem dirArg_token (dir : DirMount.t) :
  (DirMount.ReadOnly dir = false -> DirMount.Tag dir = "" -> dirArg dir = dirHead dir)
  /\ (DirMount.ReadOnly dir || nonempty (DirMount.Tag dir) = true ->
      HasPrefix (dirArg dir) (dirHead dir ++ ":" ++ dirOptions dir) = true
      /\ (DirMount.Sync dir = "" -> dirArg dir = dirHead dir ++ ":" ++ dirOptions dir)
      /\ (DirMount.Sync dir <> "" ->
          exists front, dirArg dir = front ++ "sync=" ++ DirMount.Sync dir))
  /\ dirArg (DirMount.mk "shared" "/tmp/x" true "" "t1") = "shared:/tmp/x:ro,tag=t1"
  /\ dirArg (DirMount.mk "" "/tmp/y" false "" "") = "/tmp/y".
Proof.
  destruct dir as [name path ro sync tag].
  unfold dirArg, dirHead, dirOptions.
  cbn [DirMount.Name DirMount.Path DirMount.ReadOnly DirMount.Sync DirMount.Tag].
  split; [| split; [| split; reflexivity]].
  - intros -> ->. reflexivity.
  - intros Hopt. rewrite Hopt.
    match goal with
    | |- HasPrefix ?token ?prefix = true /\ _ =>
        assert (E : token = prefix ++ (if nonempty sync then "sync=" ++ sync else ""))
    end.
    { clear Hopt.
      destruct ro, (nonempty tag), (nonempty name), (nonempty sync);
        cbn [append]; repeat (rewrite append_assoc; cbn [append]);
        rewrite ?append_empty_r; reflexivity. }
    rewrite E. split; [apply HasPrefix_app |]. split.
    + intros ->. apply append_empty_r.
    + intros Hsync. rewrite (nonempty_true _ Hsync). eexists. reflexivity.
Qed.

(** C5, amended, on the mount of the specification. *)
Lemma dirArg_token_witness :
  dirArg (DirMount.mk "shared" "/tmp/x" true "" "t1")
  = dirHead (DirMount.mk "shared" "/tmp/x" true "" "t1") ++ ":"
    ++ dirOptions (DirMount.mk "shared" "/tmp/x" true "" "t1").
Proof.
  apply (dirArg_token (DirMount.mk "shared" "/tmp/x" true "" "t1")); reflexivity.
Defined.

Lemma flag_append (b : bool) (args elems : list string) :
  (if b then args +++ elems else args) = args +++ flag b elems.
Proof. destruct b; simpl; [reflexivity | now rewrite app_nil_r]. Qed.

Lemma fold_left_append {A : Type} (f : A -> list string) (l : list A) (args : list string) :
  fold_left (fun args x => args +++ f x) l args = args +++ flat_map f l.
Proof.
  revert args. induction l as [| x l IH]; intros args; simpl.
  - now rewrite app_nil_r.
  - rewrite IH. now rewrite <- app_assoc.
Qed.

(** The arguments of [Run]: the subcommand, the flags, the name. *)
Lemma RunArgs_flags (name : string) (options : RunOptions.t) :
  RunArgs name options = ("run" :: RunFlags options ++ [name])%list.
Proof.
  unfold RunArgs, RunFlags. cbv zeta.
  rewrite ?flag_append.
  rewrite (fold_left_append (fun disk => ["--disk"; disk])).
  rewrite (fold_left_append (fun dir => ["--dir"; dirArg dir])).
  rewrite <- !app_assoc. reflexivity.
Qed.

Lemma last_snoc (pre : list string) (x d : string) : last (pre ++ [x]) d = x.
Proof.
  induction pre as [| y pre IH]; [reflexivity |].
  simpl. destruct (pre ++ [x])%list eqn:E; [| exact IH].
  destruct pre; discriminate.
Qed.

(** C6, as stated, fails: [Stop] and [Create] put the name right after the
    subcommand and the flags after the name. With a timeout the last
    argument of [Stop] is the number of seconds; with the Linux flag the
    last argument of [Create] is the flag. *)
Lemma StopArgs_name_not_last :
  StopArgs "vm" 30 = ["stop"; "vm"; "--timeout"; "30"]
  /\ last (StopArgs "vm" 30) "" <> "vm"
  /\ CreateArgs "vm" (CreateOptions.mk "" true 0) = ["create"; "vm"; "--linux"]
  /\ last (CreateArgs "vm" (CreateOptions.mk "" true 0)) "" <> "vm".
Proof. repeat split; try reflexivity; discriminate. Qed.

(** C6, amended. [Run] puts the name of the machine last, after all its
    flags. The builders of [Create], [Clone], [Stop], [SetConfig],
    [GetConfig], [Export], [IP], [Push] and [Pull] put the name, or the
    names, right after the subcommand, and every flag after them. *)
Theorem name_position :
  (forall name options,
     RunArgs name options = ("run" :: RunFlags options ++ [name])%list
     /\ last (RunArgs name options) "" = name)
  /\ (forall name options,
        CreateArgs name options
        = ("create" :: name
           :: flag (nonempty (CreateOptions.FromIPSW options))
                ["--from-ipsw"; CreateOptions.FromIPSW options]
           ++ flag (CreateOptions.Linux options) ["--linux"]
           ++ flag (CreateOptions.DiskSize options >? 0)%Z
                ["--disk-size"; itoa (CreateOptions.DiskSize options)])%list)
  /\ (forall sourceName newName options,
        CloneArgs sourceName newName options
        = ("clone" :: sourceName :: newName
           :: flag (CloneOptions.Insecure options) ["--insecure"]
           ++ flag (CloneOptions.Concurrency options >? 0)%Z
                ["--concurrency"; itoa (CloneOptions.Concurrency options)])%list)
  /\ (forall name timeout,
        StopArgs name timeout
        = "stop" :: name :: flag (timeout >? 0)%Z ["--timeout"; itoa timeout])
  /\ (forall name config, exists flags, SetConfigArgs name config = "set" :: name :: flags)
  /\ (forall name format,
        GetConfigArgs name format
        = "get" :: name :: flag (nonempty format) ["--format"; format])
  /\ (forall name path,
        ExportArgs name path = "export" :: name :: flag (nonempty path) [path])
  /\ (forall name wait resolver,
        IPArgs name wait resolver
        = ("ip" :: name
           :: flag (wait >? 0)%Z ["--wait"; itoa wait]
           ++ flag (nonempty resolver) ["--resolver"; resolver])%list)
  /\ (forall name options, exists rest, PushArgs name options = "push" :: name :: rest)
  /\ (forall name insecure concurrency,
        PullArgs name insecure concurrency
        = ("pull" :: name
           :: flag insecure ["--insecure"]
           ++ flag (concurrency >? 0)%Z ["--concurrency"; itoa concurrency])%list).
Proof.
  repeat match goal with |- _ /\ _ => split end.
  - intros name options. rewrite RunArgs_flags. split; [reflexivity |].
    change ("run" :: RunFlags options ++ [name])%list
      with (("run" :: RunFlags options) ++ [name])%list.
    apply last_snoc.
  - intros name options. unfold CreateArgs. cbv zeta.
    rewrite ?flag_append, <- ?app_assoc. reflexivity.
  - intros sourceName newName options. unfold CloneArgs. cbv zeta.
    rewrite ?flag_append, <- ?app_assoc. reflexivity.
  - intros name timeout. unfold StopArgs. cbv zeta.
    rewrite ?flag_append. reflexivity.
  - intros name config. unfold SetConfigArgs. cbv zeta.
    rewrite ?flag_append, <- ?app_assoc. eexists. reflexivity.
  - intros name format. unfold GetConfigArgs. cbv zeta.
    rewrite ?flag_append. reflexivity.
  - intros name path. unfold ExportArgs. cbv zeta.
    rewrite ?flag_append. reflexivity.
  - intros name wait resolver. unfold IPArgs. cbv zeta.
    rewrite ?flag_append, <- ?app_assoc. reflexivity.
  - intros name options. unfold PushArgs. cbv zeta.
    rewrite ?flag_append, <- ?app_assoc. eexists. reflexivity.
  - intros name insecure concurrency. unfold PullArgs. cbv zeta.
    rewrite ?flag_append, <- ?app_assoc. reflexivity.
Qed.

(** ** strings.TrimSpace *)

Module TrimFacts.
Import Unicode.

Lemma white_app (x y : string) : white x -> white y -> white (x ++ y).
Proof.
  induction 1; intros Hy; simpl; auto using white.
Qed.

Lemma rev_append_app (s acc : string) : rev_append s acc = rev s ++ acc.
Proof.
  unfold rev. revert acc. induction s as [| c s IH]; intros acc; simpl; [reflexivity |].
  rewrite IH. rewrite (IH (String c "")). now rewrite append_assoc.
Qed.

Lemma rev_cons (c : ascii) (s : string) : rev (String c s) = rev s ++ String c "".
Proof. unfold rev at 1. simpl. apply rev_append_app. Qed.

Lemma rev_app (a b : string) : rev (a ++ b) = rev b ++ rev a.
Proof.
  induction a as [| c a IH]; simpl.
  - now rewrite append_empty_r.
  - rewrite !rev_cons, IH. apply append_assoc.
Qed.

Lemma rev_involutive (s : string) : rev (rev s) = s.
Proof.
  induction s as [| c s IH]; [reflexivity |].
  rewrite rev_cons, rev_app, IH. reflexivity.
Qed.

(** [TrimLeft] takes a run of white-space runes off the front. *)
Lemma TrimLeft_split (s : string) : exists l, s = l ++ TrimLeft s /\ white l.
Proof.
  assert (H : forall n s, String.length s <= n -> exists l, s = l ++ TrimLeft s /\ white l).
  { induction n as [| n IH]; intros s0 Hn.
    - destruct s0; [| simpl in Hn; lia]. exists "". split; [reflexivity | constructor].
    - destruct s0 as [| a r]; [exists ""; split; [reflexivity | constructor] |].
      cbn [TrimLeft]. destruct (space1 a) eqn:E1.
      { destruct (IH r) as (l & Hl & Wl); [simpl in Hn; lia |].
        exists (String a l). split; [simpl; now rewrite <- Hl | now constructor]. }
      destruct r as [| b r1]; [exists ""; split; [reflexivity | constructor] |].
      destruct (space2 a b) eqn:E2.
      { destruct (IH r1) as (l & Hl & Wl); [simpl in Hn; lia |].
        exists (String a (String b l)). split; [simpl; now rewrite <- Hl | now constructor]. }
      destruct r1 as [| c r2]; [exists ""; split; [reflexivity | constructor] |].
      destruct (space3 a b c) eqn:E3.
      { destruct (IH r2) as (l & Hl & Wl); [simpl in Hn; lia |].
        exists (String a (String b (String c l))).
        split; [simpl; now rewrite <- Hl | now constructor]. }
      exists "". split; [reflexivity | constructor]. }
  apply (H (String.length s)). lia.
Qed.

(** [TrimLeftRev] takes a run of reversed white-space runes off the
    front. *)
Lemma TrimLeftRev_split (s : string) : exists l, s = l ++ TrimLeftRev s /\ white (rev l).
Proof.
  assert (H : forall n s, String.length s <= n ->
                          exists l, s = l ++ TrimLeftRev s /\ white (rev l)).
  { induction n as [| n IH]; intros s0 Hn.
    - destruct s0; [| simpl in Hn; lia]. exists "". split; [reflexivity | constructor].
    - destruct s0 as [| a r]; [exists ""; split; [reflexivity | constructor] |].
      cbn [TrimLeftRev]. destruct (space1 a) eqn:E1.
      { destruct (IH r) as (l & Hl & Wl); [simpl in Hn; lia |].
        exists (String a l). split; [simpl; now rewrite <- Hl |].
        rewrite rev_cons. apply white_app; [exact Wl | now repeat constructor]. }
      destruct r as [| b r1]; [exists ""; split; [reflexivity | constructor] |].
      destruct (space2 b a) eqn:E2.
      { destruct (IH r1) as (l & Hl & Wl); [simpl in Hn; lia |].
        exists (String a (String b l)). split; [simpl; now rewrite <- Hl |].
        rewrite !rev_cons, append_assoc.
        apply white_app; [exact Wl | now repeat constructor]. }
      destruct r1 as [| c r2]; [exists ""; split; [reflexivity | constructor] |].
      destruct (space3 c b a) eqn:E3.
      { destruct (IH r2) as (l & Hl & Wl); [simpl in Hn; lia |].
        exists (String a (String b (String c l))). split; [simpl; now rewrite <- Hl |].
        rewrite !rev_cons, !append_assoc.
        apply white_app; [exact Wl | now repeat constructor]. }
      exists "". split; [reflexivity | constructor]. }
  apply (H (String.length s)). lia.
Qed.

Lemma TrimRight_split (s : string) : exists r, s = TrimRight s ++ r /\ white r.
Proof.
  destruct (TrimLeftRev_split (rev s)) as (l & Hl & Wl).
  exists (rev l). split; [| exact Wl].
  unfold TrimRight. rewrite <- rev_app, <- Hl. symmetry. apply rev_involutive.
Qed.

(** [TrimSpace] gives the text without a run of white space at its front
    and one at its end, and changes nothing between them. *)
Lemma TrimSpace_split (s : string) :
  exists l r, s = l ++ TrimSpace s ++ r /\ white l /\ white r.
Proof.
  destruct (TrimLeft_split s) as (l & Hl & Wl).
  destruct (TrimRight_split (TrimLeft s)) as (r & Hr & Wr).
  exists l, r. unfold TrimSpace. rewrite <- Hr. auto.
Qed.

Lemma TrimLeft_length (s : string) : String.length (TrimLeft s) <= String.length s.
Proof.
  destruct (TrimLeft_split s) as (l & Hl & _).
  rewrite Hl at 2. rewrite length_append. lia.
Qed.

Lemma TrimLeftRev_length (s : string) : String.length (TrimLeftRev s) <= String.length s.
Proof.
  destruct (TrimLeftRev_split s) as (l & Hl & _).
  rewrite Hl at 2. rewrite length_append. lia.
Qed.

Lemma rev_length (s : string) : String.length (rev s) = String.length s.
Proof.
  induction s as [| c s IH]; [reflexivity |].
  rewrite rev_cons, length_append, IH. simpl. lia.
Qed.

(** The equations of [TrimLeft] and [TrimLeftRev]. *)
Lemma TrimLeft_1 (a : ascii) (r : string) :
  space1 a = true -> TrimLeft (String a r) = TrimLeft r.
Proof. intros H. cbn [TrimLeft]. now rewrite H. Qed.

Lemma TrimLeft_2 (a b : ascii) (r : string) :
  space1 a = false -> space2 a b = true -> TrimLeft (String a (String b r)) = TrimLeft r.
Proof.
  intros H1 H2. change (TrimLeft (String a (String b r)))
    with (if space1 a then TrimLeft (String b r)
          else if space2 a b then TrimLeft r
               else match r with
                    | String c r2 =>
                        if space3 a b c then TrimLeft r2 else String a (String b r)
                    | EmptyString => String a (String b r)
                    end).
  now rewrite H1, H2.
Qed.

Lemma TrimLeft_3 (a b c : ascii) (r : string) :
  space1 a = false -> space2 a b = false -> space3 a b c = true ->
  TrimLeft (String a (String b (String c r))) = TrimLeft r.
Proof.
  intros H1 H2 H3. change (TrimLeft (String a (String b (String c r))))
    with (if space1 a then TrimLeft (String b (String c r))
          else if space2 a b then TrimLeft (String c r)
               else if space3 a b c then TrimLeft r
                    else String a (String b (String c r))).
  now rewrite H1, H2, H3.
Qed.

Lemma TrimLeftRev_1 (a : ascii) (r : string) :
  space1 a = true -> TrimLeftRev (String a r) = TrimLeftRev r.
Proof. intros H. cbn [TrimLeftRev]. now rewrite H. Qed.

Lemma TrimLeftRev_2 (a b : ascii) (r : string) :
  space1 a = false -> space2 b a = true ->
  TrimLeftRev (String a (String b r)) = TrimLeftRev r.
Proof.
  intros H1 H2. change (TrimLeftRev (String a (String b r)))
    with (if space1 a then TrimLeftRev (String b r)
          else if space2 b a then TrimLeftRev r
               else match r with
                    | String c r2 =>
                        if space3 c b a then TrimLeftRev r2 else String a (String b r)
                    | EmptyString => String a (String b r)
                    end).
  now rewrite H1, H2.
Qed.

Lemma TrimLeftRev_3 (a b c : ascii) (r : string) :
  space1 a = false -> space2 b a = false -> space3 c b a = true ->
  TrimLeftRev (String a (String b (String c r))) = TrimLeftRev r.
Proof.
  intros H1 H2 H3. change (TrimLeftRev (String a (String b (String c r))))
    with (if space1 a then TrimLeftRev (String b (String c r))
          else if space2 b a then TrimLeftRev (String c r)
               else if space3 c b a then TrimLeftRev r
                    else String a (String b (String c r))).
  now rewrite H1, H2, H3.
Qed.

(** [TrimLeft] takes something off a text that starts with a white-space
    rune. *)
Lemma TrimLeft_shorter (l r : string) :
  white l -> l <> "" -> String.length (TrimLeft (l ++ r)) < String.length (l ++ r).
Proof.
  intros Wl Hne. destruct Wl as [| a s Ha Ws | a b s Hab Ws | a b c s Habc Ws];
    [congruence | ..]; cbn [append].
  - rewrite (TrimLeft_1 a _ Ha). pose proof (TrimLeft_length (s ++ r)). simpl. lia.
  - destruct (space1 a) eqn:E1.
    + rewrite (TrimLeft_1 a _ E1).
      pose proof (TrimLeft_length (String b (s ++ r))) as L. simpl in *. lia.
    + rewrite (TrimLeft_2 a b _ E1 Hab). pose proof (TrimLeft_length (s ++ r)). simpl. lia.
  - destruct (space1 a) eqn:E1.
    + rewrite (TrimLeft_1 a _ E1).
      pose proof (TrimLeft_length (String b (String c (s ++ r)))) as L. simpl in *. lia.
    + destruct (space2 a b) eqn:E2.
      * rewrite (TrimLeft_2 a b _ E1 E2).
        pose proof (TrimLeft_length (String c (s ++ r))) as L. simpl in *. lia.
      * rewrite (TrimLeft_3 a b c _ E1 E2 Habc).
        pose proof (TrimLeft_length (s ++ r)). simpl. lia.
Qed.

(** A text that [TrimLeft] leaves alone starts with no white-space rune. *)
Lemma TrimLeft_fixed (x : string) :
  TrimLeft x = x -> forall l r, white l -> x = l ++ r -> l = "".
Proof.
  intros Hfix l r Wl Hx. destruct l as [| a l']; [reflexivity | exfalso].
  pose proof (TrimLeft_shorter (String a l') r Wl ltac:(discriminate)) as L.
  rewrite <- Hx, Hfix in L. lia.
Qed.

(** The same for [TrimLeftRev] and runes read last byte first. *)
Lemma TrimLeftRev_fixed1 (a : ascii) (y : string) :
  space1 a = true -> TrimLeftRev (String a y) <> String a y.
Proof.
  intros Ha Hfix. rewrite (TrimLeftRev_1 a y Ha) in Hfix.
  pose proof (TrimLeftRev_length y) as L. rewrite Hfix in L. simpl in L. lia.
Qed.

Lemma TrimLeftRev_fixed2 (a b : ascii) (y : string) :
  space2 a b = true -> TrimLeftRev (String b (String a y)) <> String b (String a y).
Proof.
  intros Hab Hfix. destruct (space1 b) eqn:E1.
  - rewrite (TrimLeftRev_1 b _ E1) in Hfix.
    pose proof (TrimLeftRev_length (String a y)) as L. rewrite Hfix in L. simpl in L. lia.
  - rewrite (TrimLeftRev_2 b a y E1 Hab) in Hfix.
    pose proof (TrimLeftRev_length y) as L. rewrite Hfix in L. simpl in L. lia.
Qed.

Lemma TrimLeftRev_fixed3 (a b c : ascii) (y : string) :
  space3 a b c = true ->
  TrimLeftRev (String c (String b (String a y))) <> String c (String b (String a y)).
Proof.
  intros Habc Hfix. destruct (space1 c) eqn:E1.
  - rewrite (TrimLeftRev_1 c _ E1) in Hfix.
    pose proof (TrimLeftRev_length (String b (String a y))) as L. rewrite Hfix in L.
    simpl in L. lia.
  - destruct (space2 b c) eqn:E2.
    + rewrite (TrimLeftRev_2 c b _ E1 E2) in Hfix.
      pose proof (TrimLeftRev_length (String a y)) as L. rewrite Hfix in L.
      simpl in L. lia.
    + rewrite (TrimLeftRev_3 c b a y E1 E2 Habc) in Hfix.
      pose proof (TrimLeftRev_length y) as L. rewrite Hfix in L. simpl in L. lia.
Qed.

(** A run of white space that is not empty ends with a white-space rune. *)
Lemma white_last (w : string) :
  white w ->
  w = ""
  \/ (exists w' a, w = w' ++ String a "" /\ space1 a = true)
  \/ (exists w' a b, w = w' ++ String a (String b "") /\ space2 a b = true)
  \/ (exists w' a b c, w = w' ++ String a (String b (String c "")) /\ space3 a b c = true).
Proof.
  induction 1 as [| a s Ha Ws IH | a b s Hab Ws IH | a b c s Habc Ws IH]; [now left | ..];
    right.
  - destruct IH as [-> | [(w' & x & -> & Hx) | [(w' & x & y & -> & Hx)
                                               | (w' & x & y & z & -> & Hx)]]].
    + left. exists "", a. auto.
    + left. exists (String a w'), x. auto.
    + right; left. exists (String a w'), x, y. auto.
    + right; right. exists (String a w'), x, y, z. auto.
  - destruct IH as [-> | [(w' & x & -> & Hx) | [(w' & x & y & -> & Hx)
                                               | (w' & x & y & z & -> & Hx)]]].
    + right; left. exists "", a, b. auto.
    + left. exists (String a (String b w')), x. auto.
    + right; left. exists (String a (String b w')), x, y. auto.
    + right; right. exists (String a (String b w')), x, y, z. auto.
  - destruct IH as [-> | [(w' & x & -> & Hx) | [(w' & x & y & -> & Hx)
                                               | (w' & x & y & z & -> & Hx)]]].
    + right; right. exists "", a, b, c. auto.
    + left. exists (String a (String b (String c w'))), x. auto.
    + right; left. exists (String a (String b (String c w'))), x, y. auto.
    + right; right. exists (String a (String b (String c w'))), x, y, z. auto.
Qed.

(** A text that [TrimRight] leaves alone ends with no white-space rune. *)
Lemma TrimRight_fixed (x : string) :
  TrimRight x = x -> forall l r, white r -> x = l ++ r -> r = "".
Proof.
  intros Hfix l r Wr Hx.
  assert (Hrev : TrimLeftRev (rev x) = rev x).
  { unfold TrimRight in Hfix. rewrite <- Hfix at 2. now rewrite rev_involutive. }
  destruct (white_last r Wr) as [E | [(w' & a & -> & Ha) | [(w' & a & b & -> & Hab)
                                                          | (w' & a & b & c & -> & Habc)]]];
    [exact E | exfalso ..]; subst x; rewrite !rev_app in Hrev; cbn in Hrev.
  - exact (TrimLeftRev_fixed1 a _ Ha Hrev).
  - exact (TrimLeftRev_fixed2 a b _ Hab Hrev).
  - exact (TrimLeftRev_fixed3 a b c _ Habc Hrev).
Qed.

Lemma TrimLeft_idempotent (s : string) : TrimLeft (TrimLeft s) = TrimLeft s.
Proof.
  assert (H : forall n s, String.length s <= n -> TrimLeft (TrimLeft s) = TrimLeft s).
  { induction n as [| n IH]; intros s0 Hn.
    - destruct s0; [reflexivity | simpl in Hn; lia].
    - destruct s0 as [| a r]; [reflexivity |].
      destruct (space1 a) eqn:E1.
      { rewrite (TrimLeft_1 a r E1). apply IH. simpl in Hn; lia. }
      destruct r as [| b r1]; [cbn [TrimLeft]; rewrite E1; cbn [TrimLeft]; now rewrite E1 |].
      destruct (space2 a b) eqn:E2.
      { rewrite (TrimLeft_2 a b r1 E1 E2). apply IH. simpl in Hn; lia. }
      destruct r1 as [| c r2].
      { assert (E : TrimLeft (String a (String b "")) = String a (String b "")).
        { cbn [TrimLeft]. now rewrite E1, E2. }
        now rewrite !E. }
      destruct (space3 a b c) eqn:E3.
      { rewrite (TrimLeft_3 a b c r2 E1 E2 E3). apply IH. simpl in Hn; lia. }
      assert (E : TrimLeft (String a (String b (String c r2)))
                  = String a (String b (String c r2))).
      { change (TrimLeft (String a (String b (String c r2))))
          with (if space1 a then TrimLeft (String b (String c r2))
                else if space2 a b then TrimLeft (String c r2)
                     else if space3 a b c then TrimLeft r2
                          else String a (String b (String c r2))).
        now rewrite E1, E2, E3. }
      now rewrite !E. }
  apply (H (String.length s)). lia.
Qed.

Lemma TrimLeftRev_idempotent (s : string) : TrimLeftRev (TrimLeftRev s) = TrimLeftRev s.
Proof.
  assert (H : forall n s, String.length s <= n ->
                          TrimLeftRev (TrimLeftRev s) = TrimLeftRev s).
  { induction n as [| n IH]; intros s0 Hn.
    - destruct s0; [reflexivity | simpl in Hn; lia].
    - destruct s0 as [| a r]; [reflexivity |].
      destruct (space1 a) eqn:E1.
      { rewrite (TrimLeftRev_1 a r E1). apply IH. simpl in Hn; lia. }
      destruct r as [| b r1];
        [cbn [TrimLeftRev]; rewrite E1; cbn [TrimLeftRev]; now rewrite E1 |].
      destruct (space2 b a) eqn:E2.
      { rewrite (TrimLeftRev_2 a b r1 E1 E2). apply IH. simpl in Hn; lia. }
      destruct r1 as [| c r2].
      { assert (E : TrimLeftRev (String a (String b "")) = String a (String b "")).
        { cbn [TrimLeftRev]. now rewrite E1, E2. }
        now rewrite !E. }
      destruct (space3 c b a) eqn:E3.
      { rewrite (TrimLeftRev_3 a b c r2 E1 E2 E3). apply IH. simpl in Hn; lia. }
      assert (E : TrimLeftRev (String a (String b (String c r2)))
                  = String a (String b (String c r2))).
      { change (TrimLeftRev (String a (String b (String c r2))))
          with (if space1 a then TrimLeftRev (String b (String c r2))
                else if space2 b a then TrimLeftRev (String c r2)
                     else if space3 c b a then TrimLeftRev r2
                          else String a (String b (String c r2))).
        now rewrite E1, E2, E3. }
      now rewrite !E. }
  apply (H (String.length s)). lia.
Qed.

Lemma TrimRight_idempotent (s : string) : TrimRight (TrimRight s) = TrimRight s.
Proof.
  unfold TrimRight. now rewrite rev_involutive, TrimLeftRev_idempotent.
Qed.

(** What [TrimLeft] leaves alone, it leaves alone in every prefix. *)
Lemma TrimLeft_prefix (x r : string) : TrimLeft (x ++ r) = x ++ r -> TrimLeft x = x.
Proof.
  intros Hfix. destruct (TrimLeft_split x) as (l & Hl & Wl).
  assert (E : l = "").
  { apply (TrimLeft_fixed (x ++ r) Hfix l (TrimLeft x ++ r) Wl).
    rewrite Hl at 1. apply append_assoc. }
  subst l. now rewrite Hl at 2.
Qed.

(** The result of [TrimSpace] neither starts nor ends with white space. *)
Lemma TrimSpace_tight (s : string) :
  (forall l m, white l -> TrimSpace s = l ++ m -> l = "")
  /\ (forall m r, white r -> TrimSpace s = m ++ r -> r = "").
Proof.
  split.
  - apply TrimLeft_fixed. unfold TrimSpace.
    destruct (TrimRight_split (TrimLeft s)) as (r & Hr & _).
    apply (TrimLeft_prefix _ r). rewrite <- Hr. apply TrimLeft_idempotent.
  - apply TrimRight_fixed. unfold TrimSpace. apply TrimRight_idempotent.
Qed.

End TrimFacts.

(** ** The JSON scanner uses up its text *)

Module JSONFacts.
Import JSON.

Lemma skipSpace_length (s : string) : String.length (skipSpace s) <= String.length s.
Proof.
  induction s as [| c s IH]; simpl; [lia |].
  destruct (isSpace c); simpl; lia.
Qed.

Lemma digits_length (s d r : string) :
  digits s = (d, r) -> String.length s = String.length d + String.length r.
Proof.
  revert d r. induction s as [| c s IH]; intros d r; simpl.
  - intros [= <- <-]. reflexivity.
  - destruct (isDigit c).
    + destruct (digits s) as [d' r']. intros [= <- <-]. simpl.
      now rewrite (IH d' r' eq_refl).
    + intros [= <- <-]. reflexivity.
Qed.

Lemma digits1_length (s d r : string) :
  digits1 s = Some (d, r) -> String.length r < String.length s.
Proof.
  unfold digits1. destruct (digits s) as [d' r'] eqn:E.
  apply digits_length in E. destruct d'; [discriminate |].
  intros [= <- <-]. simpl in E. lia.
Qed.

Lemma scanSign_length (s sign s1 : string) :
  scanSign s = (sign, s1) -> String.length s1 <= String.length s.
Proof.
  unfold scanSign. destruct s as [| c r]; [intros [= _ <-]; lia |].
  destruct (Ascii.eqb c "-"); intros [= _ <-]; simpl; lia.
Qed.

Lemma scanInt_length (s i r : string) :
  scanInt s = Some (i, r) -> String.length r < String.length s.
Proof.
  unfold scanInt. destruct (scanSign s) as [sign s1] eqn:E.
  apply scanSign_length in E.
  destruct s1 as [| c s2]; [discriminate |].
  destruct (Ascii.eqb c "0"); [intros [= _ <-]; simpl in *; lia |].
  destruct (digits1 (String c s2)) as [[d r0] |] eqn:D; [| discriminate].
  intros [= _ <-]. apply digits1_length in D. lia.
Qed.

Lemma scanFrac_length (s f r : string) :
  scanFrac s = Some (f, r) -> String.length r <= String.length s.
Proof.
  unfold scanFrac. destruct s as [| c s1]; [intros [= _ <-]; lia |].
  destruct (Ascii.eqb c "."); [| intros [= _ <-]; lia].
  destruct (digits1 s1) as [[d r'] |] eqn:E; [| discriminate].
  intros [= _ <-]. apply digits1_length in E. simpl. lia.
Qed.

Lemma scanExp_length (s e r : string) :
  scanExp s = Some (e, r) -> String.length r <= String.length s.
Proof.
  unfold scanExp. destruct s as [| c s1]; [intros [= _ <-]; lia |].
  destruct (Ascii.eqb c "e" || Ascii.eqb c "E")%bool; [| intros [= _ <-]; lia].
  assert (H : forall sign r1,
             String.length r1 <= String.length s1 ->
             match digits1 r1 with
             | Some (d, r') => Some (String c (sign ++ d), r')
             | None => None
             end = Some (e, r) -> String.length r <= String.length (String c s1)).
  { intros sign r1 Hr1 H. destruct (digits1 r1) as [[d r'] |] eqn:E; [| discriminate].
    injection H as _ <-. apply digits1_length in E. simpl. lia. }
  destruct s1 as [| x s2]; [apply (H "" ""); lia |].
  destruct (Ascii.eqb x "+"); [apply (H "+"); simpl; lia |].
  destruct (Ascii.eqb x "-"); [apply (H "-"); simpl; lia |].
  apply (H "" (String x s2)); lia.
Qed.

Lemma scanNumber_length (s lit r : string) :
  scanNumber s = Some (lit, r) -> String.length r < String.length s.
Proof.
  unfold scanNumber.
  destruct (scanInt s) as [[i r1] |] eqn:E1; [| discriminate].
  destruct (scanFrac r1) as [[f r2] |] eqn:E2; [| discriminate].
  destruct (scanExp r2) as [[e r3] |] eqn:E3; [| discriminate].
  intros [= _ <-].
  apply scanInt_length in E1. apply scanFrac_length in E2. apply scanExp_length in E3. lia.
Qed.

Lemma stripPrefix_length (w s r : string) :
  stripPrefix w s = Some r -> String.length s = String.length w + String.length r.
Proof.
  revert s. induction w as [| p w IH]; intros s; simpl.
  - intros [= <-]. reflexivity.
  - destruct s as [| c s]; [discriminate |].
    destruct (Ascii.eqb p c); [| discriminate].
    intros E. simpl. now rewrite (IH s E).
Qed.

Lemma emit1_some (c : ascii) (o : option (string * string)) (str r : string) :
  emit1 c o = Some (str, r) -> exists str', o = Some (str', r).
Proof. destruct o as [[a b] |]; [intros [= _ <-]; eauto | discriminate]. Qed.

Lemma emitRune_some (n : N) (o : option (string * string)) (str r : string) :
  emitRune n o = Some (str, r) -> exists str', o = Some (str', r).
Proof. destruct o as [[a b] |]; [intros [= _ <-]; eauto | discriminate]. Qed.

(** A string literal is longer than what follows it. *)
Lemma scanString_length (s : string) :
  forall k str r, scanString k s = Some (str, r) -> String.length r < String.length s.
Proof.
  assert (H : forall n s k str r,
             String.length s <= n ->
             scanString k s = Some (str, r) -> String.length r < String.length s).
  { induction n as [| n IH]; intros s0 k str r Hn Hs.
    - destruct s0; [discriminate | simpl in Hn; lia].
    - assert (Step1 : forall c' k' x str0,
                 String.length x < String.length s0 ->
                 emit1 c' (scanString k' x) = Some (str0, r) ->
                 String.length r < String.length s0).
      { intros c' k' x str0 Hx He. apply emit1_some in He.
        destruct He as [str' He]. apply IH in He; lia. }
      assert (Step2 : forall n' k' x str0,
                 String.length x < String.length s0 ->
                 emitRune n' (scanString k' x) = Some (str0, r) ->
                 String.length r < String.length s0).
      { intros n' k' x str0 Hx He. apply emitRune_some in He.
        destruct He as [str' He]. apply IH in He; lia. }
      destruct s0 as [| c s1]; [discriminate |]. cbn [scanString] in Hs.
      destruct k as [| k];
        [| solve [eapply Step1; [| exact Hs]; simpl; lia]].
      destruct (Ascii.eqb c quote); [injection Hs as _ <-; simpl; lia |].
      destruct (Ascii.eqb c backslash).
      + destruct s1 as [| e r1]; [discriminate |].
        destruct (Ascii.eqb e "u").
        * destruct r1 as [| h1 [| h2 [| h3 [| h4 r2]]]]; try discriminate.
          destruct (hex4 h1 h2 h3 h4) as [rr |]; [| discriminate].
          destruct (isSurrogate rr);
            [| solve [eapply Step2; [| exact Hs]; simpl; lia]].
          destruct r2 as [| b2 [| u2 [| g1 [| g2 [| g3 [| g4 r3]]]]]];
            try solve [eapply Step2; [| exact Hs]; simpl; lia].
          destruct (Ascii.eqb b2 backslash && Ascii.eqb u2 "u")%bool;
            [| solve [eapply Step2; [| exact Hs]; simpl; lia]].
          destruct (hex4 g1 g2 g3 g4) as [rr1 |];
            [| solve [eapply Step2; [| exact Hs]; simpl; lia]].
          cbv zeta in Hs.
          destruct (DecodeSurrogates rr rr1 =? RuneError)%N;
            solve [eapply Step2; [| exact Hs]; simpl; lia].
        * destruct (unescape e); [| discriminate].
          solve [eapply Step1; [| exact Hs]; simpl; lia].
      + destruct (byte c <? 32)%N; [discriminate |].
        destruct (utf8_width (String c s1));
          solve [eapply Step1; [| exact Hs]; simpl; lia
                | eapply Step2; [| exact Hs]; simpl; lia]. }
  intros k str r. apply (H (String.length s)). lia.
Qed.

(** *** Every parser leaves less than it was given *)

Lemma parseElems_shortens (pv : string -> option (value * string)) :
  shortens pv -> forall fuel, shortens (parseElems pv fuel).
Proof.
  intros Hpv. induction fuel as [| f IH]; intros s vs r; cbn [parseElems]; [discriminate |].
  destruct (pv s) as [[v r0] |] eqn:E; [| discriminate]. apply Hpv in E.
  pose proof (skipSpace_length r0) as Hsp.
  destruct (skipSpace r0) as [| c r'] eqn:Er; [discriminate |]. cbn [String.length] in Hsp.
  destruct (Ascii.eqb c ",").
  - destruct (parseElems pv f r') as [[vs' r''] |] eqn:E'; [| discriminate].
    intros [= _ <-]. apply IH in E'. lia.
  - destruct (Ascii.eqb c "]"); [| discriminate]. intros [= _ <-]. lia.
Qed.

Lemma parseMembers_shortens (pv : string -> option (value * string)) :
  shortens pv -> forall fuel, shortens (parseMembers pv fuel).
Proof.
  intros Hpv. induction fuel as [| f IH]; intros s ms r; cbn [parseMembers]; [discriminate |].
  pose proof (skipSpace_length s) as H0.
  destruct (skipSpace s) as [| q r0]; [discriminate |]. cbn [String.length] in H0.
  destruct (Ascii.eqb q quote); [| discriminate].
  destruct (scanString 0 r0) as [[key r1] |] eqn:E1; [| discriminate].
  apply scanString_length in E1.
  pose proof (skipSpace_length r1) as H1.
  destruct (skipSpace r1) as [| colon r2]; [discriminate |]. cbn [String.length] in H1.
  destruct (Ascii.eqb colon ":"); [| discriminate].
  destruct (pv r2) as [[v r3] |] eqn:E3; [| discriminate]. apply Hpv in E3.
  pose proof (skipSpace_length r3) as H3.
  destruct (skipSpace r3) as [| c r4]; [discriminate |]. cbn [String.length] in H3.
  destruct (Ascii.eqb c ",").
  - destruct (parseMembers pv f r4) as [[ms' r5] |] eqn:E5; [| discriminate].
    intros [= _ <-]. apply IH in E5. lia.
  - destruct (Ascii.eqb c "}"); [| discriminate]. intros [= _ <-]. lia.
Qed.

Lemma literal_shortens (word : string) (v : value) :
  1 <= String.length word -> shortens (literal word v).
Proof.
  intros Hw s a r. unfold literal.
  destruct (stripPrefix word s) as [r' |] eqn:E; [| discriminate].
  intros [= _ <-]. apply stripPrefix_length in E. lia.
Qed.

Lemma parseOne_shortens (pv : string -> option (value * string)) (fuel : nat) (deep : bool) :
  shortens pv -> shortens (parseOne pv fuel deep).
Proof.
  intros Hpv s v r. unfold parseOne.
  pose proof (skipSpace_length s) as H0.
  destruct (skipSpace s) as [| c r0]; [discriminate |].
  set (s' := String c r0) in *.
  assert (Hl : forall word x, 1 <= String.length word ->
                 literal word x s' = Some (v, r) -> String.length r < String.length s).
  { intros word x Hw E. apply (literal_shortens word x Hw) in E. lia. }
  destruct (Ascii.eqb c "n"); [apply Hl; simpl; lia |].
  destruct (Ascii.eqb c "t"); [apply Hl; simpl; lia |].
  destruct (Ascii.eqb c "f"); [apply Hl; simpl; lia |].
  subst s'. cbn [String.length] in H0.
  destruct (Ascii.eqb c quote).
  { destruct (scanString 0 r0) as [[str r'] |] eqn:E; [| discriminate].
    intros [= _ <-]. apply scanString_length in E. lia. }
  pose proof (skipSpace_length r0) as H1.
  destruct ((Ascii.eqb c "[" || Ascii.eqb c "{") && deep); [discriminate |].
  destruct (Ascii.eqb c "[").
  { destruct (stripPrefix "]" (skipSpace r0)) as [r' |] eqn:E.
    - intros [= _ <-]. apply stripPrefix_length in E. simpl in E. lia.
    - destruct (parseElems pv fuel r0) as [[vs r'] |] eqn:E'; [| discriminate].
      intros [= _ <-]. apply (parseElems_shortens pv Hpv) in E'. lia. }
  destruct (Ascii.eqb c "{").
  { destruct (stripPrefix "}" (skipSpace r0)) as [r' |] eqn:E.
    - intros [= _ <-]. apply stripPrefix_length in E. simpl in E. lia.
    - destruct (parseMembers pv fuel r0) as [[ms r'] |] eqn:E'; [| discriminate].
      intros [= _ <-]. apply (parseMembers_shortens pv Hpv) in E'. lia. }
  destruct (scanNumber (String c r0)) as [[lit r'] |] eqn:E; [| discriminate].
  intros [= _ <-]. apply scanNumber_length in E. cbn [String.length] in E. lia.
Qed.

Lemma parseValue_shortens (fuel : nat) : forall depth, shortens (parseValue fuel depth).
Proof.
  induction fuel as [| f IH]; intros depth; [intros s v r; discriminate |].
  cbn [parseValue]. apply parseOne_shortens. apply IH.
Qed.

(** *** The fuel of [parse] is enough *)

Lemma parseElems_fuel (p q : string -> option (value * string)) :
  shortens p ->
  forall g s,
    String.length s < g -> agree_below (S (String.length s)) p q ->
    parseElems p g s = parseElems q (S g) s.
Proof.
  intros Hp. induction g as [| g IH]; intros s Hs Hpq; [lia |].
  cbn [parseElems]. rewrite <- (Hpq s) by lia.
  destruct (p s) as [[v r] |] eqn:E; [| reflexivity]. apply Hp in E.
  pose proof (skipSpace_length r) as Hsp.
  destruct (skipSpace r) as [| c r']; [reflexivity |]. cbn [String.length] in Hsp.
  destruct (Ascii.eqb c ","); [| reflexivity].
  assert (IH' : parseElems p g r' = parseElems q (S g) r').
  { apply IH; [lia |]. intros x Hx. apply Hpq. lia. }
  rewrite IH'. reflexivity.
Qed.

Lemma parseMembers_fuel (p q : string -> option (value * string)) :
  shortens p ->
  forall g s,
    String.length s < g -> agree_below (S (String.length s)) p q ->
    parseMembers p g s = parseMembers q (S g) s.
Proof.
  intros Hp. induction g as [| g IH]; intros s Hs Hpq; [lia |].
  cbn [parseMembers].
  pose proof (skipSpace_length s) as H0.
  destruct (skipSpace s) as [| qt r0]; [reflexivity |]. cbn [String.length] in H0.
  destruct (Ascii.eqb qt quote); [| reflexivity].
  destruct (scanString 0 r0) as [[key r1] |] eqn:E1; [| reflexivity].
  apply scanString_length in E1.
  pose proof (skipSpace_length r1) as H1.
  destruct (skipSpace r1) as [| colon r2]; [reflexivity |]. cbn [String.length] in H1.
  destruct (Ascii.eqb colon ":"); [| reflexivity].
  rewrite <- (Hpq r2) by lia.
  destruct (p r2) as [[v r3] |] eqn:E3; [| reflexivity]. apply Hp in E3.
  pose proof (skipSpace_length r3) as H3.
  destruct (skipSpace r3) as [| c r4]; [reflexivity |]. cbn [String.length] in H3.
  destruct (Ascii.eqb c ","); [| reflexivity].
  assert (IH' : parseMembers p g r4 = parseMembers q (S g) r4).
  { apply IH; [lia |]. intros x Hx. apply Hpq. lia. }
  rewrite IH'. reflexivity.
Qed.

(** One more unit of fuel changes nothing once the fuel exceeds the length
    of the text. *)
Lemma parseValue_fuel (f : nat) :
  forall depth s,
    String.length s < f -> parseValue f depth s = parseValue (S f) depth s.
Proof.
  induction f as [| f IH]; intros depth s Hs; [lia |].
  change (parseOne (parseValue f (depth + 1)) f (maxNestingDepth <? depth + 1)%N s
          = parseOne (parseValue (S f) (depth + 1)) (S f) (maxNestingDepth <? depth + 1)%N s).
  unfold parseOne.
  pose proof (skipSpace_length s) as H0.
  destruct (skipSpace s) as [| c r0]; [reflexivity |]. cbn [String.length] in H0.
  assert (Hagree : agree_below (S (String.length r0))
                     (parseValue f (depth + 1)) (parseValue (S f) (depth + 1))).
  { intros x Hx. apply IH. lia. }
  rewrite (parseElems_fuel _ _ (parseValue_shortens f (depth + 1)%N) f r0)
    by (lia || exact Hagree).
  rewrite (parseMembers_fuel _ _ (parseValue_shortens f (depth + 1)%N) f r0)
    by (lia || exact Hagree).
  reflexivity.
Qed.

(** [parse] does not fail for want of fuel: any larger fuel gives the same
    value. *)
Lemma parse_fuel (s : string) (extra : nat) :
  parseValue (S (String.length s) + extra) 0 s = parseValue (S (String.length s)) 0 s.
Proof.
  induction extra as [| k IH]; [now rewrite Nat.add_0_r |].
  rewrite Nat.add_succ_r, <- IH. symmetry. apply parseValue_fuel. lia.
Qed.

End JSONFacts.

(** ** The decoders *)

(** C7, as stated, fails for [GetConfig]: it returns the output as it is.
    For a child that prints [{}] and a newline, the newline is part of the
    result, while [TrimSpace] would take it off. *)
Lemma GetConfig_keeps_newline :
  GetConfig Sample.tart "vm" "" (Sample.system (fun _ => Sample.exits (Sample.ln "{}") "" 0))
  = ([Spawned (exec_Command "tart" ["get"; "vm"]);
      Waited (exec_Command "tart" ["get"; "vm"])],
     Some (Sample.ln "{}", None))
  /\ Unicode.TrimSpace (Sample.ln "{}") = "{}"
  /\ Sample.ln "{}" <> Unicode.TrimSpace (Sample.ln "{}").
Proof. repeat split; try reflexivity. discriminate. Qed.

(** C7, amended. When the command of [IP] succeeds, [IP] returns its
    output without the white space around it: the output is a run of white
    space, the result, and a run of white space, and the result neither
    starts nor ends with white space. When the command of [GetConfig]
    succeeds, [GetConfig] returns its output unchanged. *)
Theorem plain_text_queries (t : Tart) (w : World) (tr : Trace) (output : string) :
  (forall name wait resolver,
     run t (IPArgs name wait resolver) w = (tr, Some (output, None)) ->
     IP t name wait resolver w = (tr, Some (Unicode.TrimSpace output, None))
     /\ (exists l r,
           output = l ++ Unicode.TrimSpace output ++ r
           /\ Unicode.white l /\ Unicode.white r)
     /\ (forall l m, Unicode.white l -> Unicode.TrimSpace output = l ++ m -> l = "")
     /\ (forall m r, Unicode.white r -> Unicode.TrimSpace output = m ++ r -> r = ""))
  /\ (forall name format,
        run t (GetConfigArgs name format) w = (tr, Some (output, None)) ->
        GetConfig t name format w = (tr, Some (output, None))).
Proof.
  split.
  - intros name wait resolver H.
    split; [| split; [apply TrimFacts.TrimSpace_split | apply TrimFacts.TrimSpace_tight]].
    unfold IP. cbv [bind]. rewrite H. cbv [ret]. now rewrite app_nil_r.
  - intros name format H.
    unfold GetConfig. cbv [bind]. rewrite H. cbv [ret]. now rewrite app_nil_r.
Qed.

(** C7, amended, on a sample system: the address printed with a newline
    is returned without it. *)
Lemma plain_text_queries_witness :
  IP Sample.tart "vm" 0 ""
     (Sample.system (fun _ => Sample.exits (Sample.ln "192.168.64.2") "" 0))
  = ([Spawned (exec_Command "tart" ["ip"; "vm"]);
      Waited (exec_Command "tart" ["ip"; "vm"])],
     Some ("192.168.64.2", None)).
Proof.
  apply (plain_text_queries Sample.tart
           (Sample.system (fun _ => Sample.exits (Sample.ln "192.168.64.2") "" 0))
           [Spawned (exec_Command "tart" ["ip"; "vm"]);
            Waited (exec_Command "tart" ["ip"; "vm"])]
           (Sample.ln "192.168.64.2")).
  reflexivity.
Defined.

(** [Running], [Stopped] and [Suspended] compare the [State] field of what
    [State] returns. *)
Lemma state_checks (t : Tart) (name : string) (w : World) tr s :
  State t name w = (tr, Some (s, None)) ->
  Running t name w = (tr, Some (String.eqb (VMState.State s) "running", None))
  /\ Stopped t name w = (tr, Some (String.eqb (VMState.State s) "stopped", None))
  /\ Suspended t name w = (tr, Some (String.eqb (VMState.State s) "suspended", None)).
Proof.
  intros H. unfold Running, Stopped, Suspended. cbv [bind]. rewrite H. cbv [ret].
  now rewrite app_nil_r.
Qed.

(** C9. When the listing succeeds and holds no machine of the name,
    [State] returns the zero [VMState], whose [Name] and [State] are empty,
    and a nil error. Its callers see only that value: [Running], [Stopped]
    and [Suspended] answer false with a nil error, and [Run] compares the
    empty [Name] with the name asked for, so that it reports "does not
    exist" for every name but the empty one and goes on to start the
    machine for the empty name. *)
Theorem State_of_missing (t : Tart) (name : string) (options : RunOptions.t)
        (w : World) tr vms :
  List t ListOptions.zero w = (tr, Some (vms, None)) ->
  ~ In name (map VMState.Name vms) ->
  State t name w = (tr, Some (VMState.zero, None))
  /\ VMState.Name VMState.zero = ""
  /\ VMState.State VMState.zero = ""
  /\ Running t name w = (tr, Some (false, None))
  /\ Stopped t name w = (tr, Some (false, None))
  /\ Suspended t name w = (tr, Some (false, None))
  /\ Run t name options w
     = if String.eqb name ""
       then ((tr ++ fst (Run_launch t name options w))%list,
             snd (Run_launch t name options w))
       else (tr, Some (Some (errorString ("VM with name " ++ name ++ " does not exist")))).
Proof.
  intros HL Hmiss.
  assert (HS : State t name w = (tr, Some (VMState.zero, None))).
  { rewrite (List_State t name w tr vms HL).
    now rewrite (State_loop_missing vms name _ Hmiss). }
  split; [exact HS |]. split; [reflexivity |]. split; [reflexivity |].
  destruct (state_checks t name w tr _ HS) as (HR & HSt & HSu).
  split; [exact HR |]. split; [exact HSt |]. split; [exact HSu |].
  destruct (String.eqb_spec name "") as [-> | Hne].
  - apply (Run_unfold t "" options w tr VMState.zero HS); reflexivity.
  - apply (Run_does_not_exist t name options w tr vms HL Hmiss Hne).
Qed.

(** C9 on a sample system that lists one machine, [vm]: the state of
    [ghost] is the zero value, with a nil error. *)
Lemma State_of_missing_witness :
  State Sample.tart "ghost" (Sample.system (Sample.hosting Sample.listing (Sample.exits "" "" 0)))
  = ([Spawned (exec_Command "tart" ["list"; "--format"; "json"]);
      Waited (exec_Command "tart" ["list"; "--format"; "json"])],
     Some (VMState.zero, None)).
Proof.
  apply (State_of_missing Sample.tart "ghost" RunOptions.zero
           (Sample.system (Sample.hosting Sample.listing (Sample.exits "" "" 0)))
           [Spawned (exec_Command "tart" ["list"; "--format"; "json"]);
            Waited (exec_Command "tart" ["list"; "--format"; "json"])]
           [VMState.mk 22 50 "vm" "local" 21 "stopped"]).
  - vm_compute. reflexivity.
  - simpl. intros [H | []]. discriminate H.
Defined.

(** *** Numbers *)

Module IntFacts.
Import Decode.

Lemma digitsValue_string_of_uint (d : Decimal.uint) (acc : Z) :
  digitsValue (NilEmpty.string_of_uint d) acc = Some (uintValue d acc).
Proof.
  revert acc. induction d; intros acc; cbn [NilEmpty.string_of_uint uintValue];
    [reflexivity | ..]; cbn [digitsValue]; apply IHd.
Qed.

Lemma uintValue_acc (d : Decimal.uint) (acc : positive) :
  uintValue d (Zpos acc) = Zpos (Pos.of_uint_acc d acc).
Proof.
  revert acc. induction d; intros acc; cbn [uintValue Pos.of_uint_acc];
    [reflexivity | ..];
    match goal with
    | |- uintValue _ ?z = Zpos (Pos.of_uint_acc _ ?p) =>
        replace z with (Zpos p) by lia; apply IHd
    end.
Qed.

Lemma uintValue_of_uint (d : Decimal.uint) :
  uintValue d 0 = Z.of_N (Pos.of_uint d).
Proof.
  induction d; cbn [uintValue Pos.of_uint]; [reflexivity | exact IHd | ..];
    cbn [Z.mul Z.add Z.of_N]; apply uintValue_acc.
Qed.

Lemma uintValue_to_uint (p : positive) : uintValue (Pos.to_uint p) 0 = Zpos p.
Proof. rewrite uintValue_of_uint, DecimalPos.Unsigned.of_to. reflexivity. Qed.

(** A string that starts with a digit has no sign for [ParseInt]. *)
Lemma ParseInt_unsigned (c : ascii) (r : string) :
  JSON.isDigit c = true ->
  ParseInt (String c r)
  = match digitsValue (String c r) 0 with
    | None => None
    | Some n => if ((- 2 ^ 63 <=? n) && (n <? 2 ^ 63))%Z then Some n else None
    end.
Proof.
  intros H. unfold ParseInt.
  destruct (Ascii.eqb_spec c "-") as [-> | _]; [discriminate H |].
  destruct (Ascii.eqb_spec c "+") as [-> | _]; [discriminate H |].
  reflexivity.
Qed.

Lemma string_of_uint_digit (d : Decimal.uint) :
  d <> Decimal.Nil ->
  exists c r, NilEmpty.string_of_uint d = String c r /\ JSON.isDigit c = true.
Proof.
  destruct d; [congruence | ..]; intros _; eexists; eexists; split; reflexivity.
Qed.

Lemma NilZero_string_of_uint (d : Decimal.uint) :
  d <> Decimal.Nil -> NilZero.string_of_uint d = NilEmpty.string_of_uint d.
Proof. destruct d; [congruence | reflexivity ..]. Qed.

Lemma ParseInt_pos (p : positive) :
  (Zpos p < 2 ^ 63)%Z -> ParseInt (itoa (Zpos p)) = Some (Zpos p).
Proof.
  intros Hr. unfold itoa. cbn [Z.to_int NilZero.string_of_int].
  pose proof (DecimalPos.Unsigned.to_uint_nonnil p) as Hn.
  rewrite (NilZero_string_of_uint _ Hn).
  destruct (string_of_uint_digit _ Hn) as (c & r & E & Hc).
  rewrite E, (ParseInt_unsigned c r Hc), <- E.
  rewrite digitsValue_string_of_uint, uintValue_to_uint.
  assert (H1 : (- 2 ^ 63 <=? Zpos p)%Z = true) by (apply Z.leb_le; lia).
  assert (H2 : (Zpos p <? 2 ^ 63)%Z = true) by (apply Z.ltb_lt; lia).
  now rewrite H1, H2.
Qed.

Lemma ParseInt_neg (p : positive) :
  (- 2 ^ 63 <= Zneg p)%Z -> ParseInt (itoa (Zneg p)) = Some (Zneg p).
Proof.
  intros Hr. unfold itoa. cbn [Z.to_int NilZero.string_of_int].
  pose proof (DecimalPos.Unsigned.to_uint_nonnil p) as Hn.
  rewrite (NilZero_string_of_uint _ Hn).
  destruct (string_of_uint_digit _ Hn) as (c & r & E & Hc).
  unfold ParseInt. cbn [Ascii.eqb Bool.eqb]. rewrite E, <- E.
  rewrite digitsValue_string_of_uint, uintValue_to_uint.
  assert (H1 : (- 2 ^ 63 <=? - Zpos p)%Z = true) by (apply Z.leb_le; lia).
  assert (H2 : (- Zpos p <? 2 ^ 63)%Z = true) by (apply Z.ltb_lt; lia).
  now rewrite H1, H2.
Qed.

(** [%d] and [ParseInt] agree on the values of a Go [int]: the number that
    is printed is the number that is read. *)
Lemma ParseInt_itoa (n : Z) : VMState.int_range n -> ParseInt (itoa n) = Some n.
Proof.
  unfold VMState.int_range. intros [Hlo Hhi]. destruct n as [| p | p].
  - reflexivity.
  - now apply ParseInt_pos.
  - now apply ParseInt_neg.
Qed.

End IntFacts.

(** *** Records *)

Lemma names_fields_tag : names_fields Decode.tag.
Proof. intros []; reflexivity. Qed.

Lemma names_fields_capitalized : names_fields capitalized.
Proof. intros []; reflexivity. Qed.

(** A record decodes to the machine it describes. *)
Lemma UnmarshalJSON_record (keys : Decode.Field -> string) (v : VMState.t) :
  names_fields keys -> VMState.wf v ->
  UnmarshalJSON VMState.zero (record keys v) = (v, None).
Proof.
  intros Hk (H1 & H2 & H3). destruct v as [sod disk name source size state].
  cbn [VMState.SizeOnDisk VMState.Disk VMState.Size] in H1, H2, H3.
  unfold UnmarshalJSON, record.
  cbn [VMState.SizeOnDisk VMState.Disk VMState.Name VMState.Source VMState.Size
       VMState.State Decode.object].
  rewrite !Hk.
  cbn [Decode.store Decode.isIntField].
  rewrite !IntFacts.ParseInt_itoa by assumption.
  reflexivity.
Qed.

Lemma Unmarshal_array_records (keys : Decode.Field -> string) (vms : list VMState.t) :
  names_fields keys -> Forall VMState.wf vms ->
  Unmarshal_array (map (record keys) vms) = (vms, None).
Proof.
  intros Hk. induction 1 as [| v vms Hv _ IH]; [reflexivity |].
  cbn [map Unmarshal_array]. rewrite (UnmarshalJSON_record keys v Hk Hv), IH. reflexivity.
Qed.

(** Without an error, an array of K elements decodes to K values, each
    the value of the element at its place. *)
Lemma Unmarshal_array_Forall2 (elems : list JSON.value) (vms : list VMState.t) :
  Unmarshal_array elems = (vms, None) -> Forall2 decodes elems vms.
Proof.
  revert vms. induction elems as [| x elems IH]; intros vms; cbn [Unmarshal_array].
  - intros [= <-]. constructor.
  - destruct (UnmarshalJSON VMState.zero x) as [v [e |]] eqn:E; [discriminate |].
    destruct (Unmarshal_array elems) as [vs err]. intros [= <- ->].
    constructor; [exact E | now apply IH].
Qed.

Lemma Unmarshal_array_length (elems : list JSON.value) (vms : list VMState.t) :
  Unmarshal_array elems = (vms, None) -> length vms = length elems.
Proof.
  intros H. symmetry. exact (Forall2_length (Unmarshal_array_Forall2 elems vms H)).
Qed.

Lemma List_unfold (t : Tart) (config : ListOptions.t) (w : World) tr output :
  invalidSource config = None ->
  run t (ListArgs config) w = (tr, Some (output, None)) ->
  List t config w
  = (tr, Some (match Unmarshal output with
               | (_, Some err) => ([], Some err)
               | (vms, None) => (vms, None)
               end)).
Proof.
  intros Hs Hr. unfold List. rewrite Hs. cbv [bind]. rewrite Hr.
  destruct (Unmarshal output) as [vms [err |]]; cbv [ret]; now rewrite app_nil_r.
Qed.


(** * Further properties *)

(** ** The process runner, beyond its three main cases *)

(** X1. [run] reports success only after the whole life of the child: when
    it returns a nil error, the child was started, both streams were read
    to their end, the child was waited for and exited with status zero, and
    the bytes returned are those of its standard output. *)
Theorem run_success_sound (t : Tart) (args : list string) (w : World) tr out :
  run t args w = (tr, Some (out, None)) ->
  tr = [Spawned (cmdOf t args w); Waited (cmdOf t args w)]
  /\ startErr (childOf t args w) = None
  /\ s_end (child_stdout (childOf t args w)) = AtEOF
  /\ s_end (child_stderr (childOf t args w)) = AtEOF
  /\ child_exit (childOf t args w) = Some 0%Z
  /\ out = s_data (child_stdout (childOf t args w)).
Proof.
  rewrite run_unfold. unfold run_spec, childOf.
  destruct (stdoutPipeErr _); [discriminate |].
  destruct (stderrPipeErr _); [discriminate |].
  destruct (startErr _); [discriminate |].
  destruct (s_end (child_stdout _)); try discriminate.
  destruct (s_end (child_stderr _)); try discriminate.
  destruct (child_exit _) as [code |]; [| discriminate].
  destruct (Z.eqb_spec code 0) as [-> | _]; [| discriminate].
  intros [= <- <-]. repeat split.
Qed.

(** X1 on a child that prints [{}] and exits with zero. *)
Lemma run_success_sound_witness :
  child_exit (childOf Sample.tart ["get"; "vm"]
                (Sample.system (fun _ => Sample.exits "{}" "" 0))) = Some 0%Z.
Proof.
  apply (run_success_sound Sample.tart ["get"; "vm"]
           (Sample.system (fun _ => Sample.exits "{}" "" 0))
           [Spawned (exec_Command "tart" ["get"; "vm"]);
            Waited (exec_Command "tart" ["get"; "vm"])] "{}").
  reflexivity.
Defined.

(** X2. [run] never returns output together with an error: on every path
    that ends in an error the bytes are nil, also when the child had
    written to its standard output before it failed. The error wraps the
    error of the first call that failed, which [errors.Unwrap] gives back:
    the error of the first pipe that could not be made, the error of the
    start, the error that broke the first stream that did not reach its
    end, or the exit status of a child that was waited for, which is then
    not zero. *)
Theorem run_error_has_no_output (t : Tart) (args : list string) (w : World) tr out e :
  run t args w = (tr, Some (out, Some e)) ->
  out = ""
  /\ exists inner,
       Unwrap e = Some inner
       /\ (stdoutPipeErr (childOf t args w) = Some inner
           \/ (stdoutPipeErr (childOf t args w) = None
               /\ stderrPipeErr (childOf t args w) = Some inner)
           \/ (stdoutPipeErr (childOf t args w) = None
               /\ stderrPipeErr (childOf t args w) = None
               /\ (startErr (childOf t args w) = Some inner
                   \/ (startErr (childOf t args w) = None
                       /\ ((exists m, inner = SyscallError m
                                      /\ s_end (child_stdout (childOf t args w)) = Broken m)
                           \/ (s_end (child_stdout (childOf t args w)) = AtEOF
                               /\ ((exists m,
                                      inner = SyscallError m
                                      /\ s_end (child_stderr (childOf t args w)) = Broken m)
                                   \/ (s_end (child_stderr (childOf t args w)) = AtEOF
                                       /\ exists code,
                                            inner = ExitError code
                                            /\ child_exit (childOf t args w) = Some code
                                            /\ code <> 0%Z)))))))).
Proof.
  rewrite run_unfold. unfold run_spec, childOf.
  destruct (stdoutPipeErr _) as [e0 |].
  { intros [= <- <- <-]. split; [reflexivity |]. exists e0. split; [reflexivity |]. auto. }
  destruct (stderrPipeErr _) as [e0 |].
  { intros [= <- <- <-]. split; [reflexivity |]. exists e0. split; [reflexivity |]. auto. }
  destruct (startErr _) as [e0 |].
  { intros [= <- <- <-]. split; [reflexivity |]. exists e0. split; [reflexivity |].
    right. right. auto. }
  destruct (s_end (child_stdout _)) as [| m |]; [| | discriminate].
  2:{ intros [= <- <- <-]. split; [reflexivity |]. exists (SyscallError m).
      split; [reflexivity |]. right. right. split; [reflexivity |]. split; [reflexivity |].
      right. split; [reflexivity |]. left. exists m. split; reflexivity. }
  destruct (s_end (child_stderr _)) as [| m |]; [| | discriminate].
  2:{ intros [= <- <- <-]. split; [reflexivity |]. exists (SyscallError m).
      split; [reflexivity |]. right. right. split; [reflexivity |]. split; [reflexivity |].
      right. split; [reflexivity |]. right. split; [reflexivity |]. left.
      exists m. split; reflexivity. }
  destruct (child_exit _) as [code |]; [| discriminate].
  destruct (code =? 0)%Z eqn:Ec; [discriminate |].
  intros [= <- <- <-]. split; [reflexivity |]. exists (ExitError code).
  split; [reflexivity |]. right. right. split; [reflexivity |]. split; [reflexivity |].
  right. split; [reflexivity |]. right. split; [reflexivity |]. right.
  split; [reflexivity |]. exists code. split; [reflexivity |]. split; [reflexivity |].
  apply Z.eqb_neq. exact Ec.
Qed.

(** X2 on a child that writes half of its answer and exits with status 1:
    nothing of what it wrote is returned, and the error wraps the exit
    status. *)
Lemma run_error_has_no_output_witness :
  run Sample.tart ["get"; "vm"]
      (Sample.system (fun _ => Sample.exits "half a configuration" "disk full" 1))
  = ([Spawned (exec_Command "tart" ["get"; "vm"]);
      Waited (exec_Command "tart" ["get"; "vm"])],
     Some ("", Some (wrapError "command failed: exit status 1, stderr: disk full"
                       (ExitError 1))))
  /\ "" = ""
  /\ Unwrap (wrapError "command failed: exit status 1, stderr: disk full" (ExitError 1))
     = Some (ExitError 1).
Proof.
  assert (H : run Sample.tart ["get"; "vm"]
                (Sample.system (fun _ => Sample.exits "half a configuration" "disk full" 1))
              = ([Spawned (exec_Command "tart" ["get"; "vm"]);
                  Waited (exec_Command "tart" ["get"; "vm"])],
                 Some ("", Some (wrapError "command failed: exit status 1, stderr: disk full"
                                   (ExitError 1))))) by reflexivity.
  split; [exact H |].
  destruct (run_error_has_no_output _ _ _ _ _ _ H) as [Hout _].
  split; [exact Hout | reflexivity].
Defined.

(** X3. A child that is started and whose streams do not both reach end of
    file is never waited for. If its standard output breaks, or ends and
    its standard error breaks, [run] returns a "failed to read" error that
    wraps the read error, with the start as its only event. If its standard
    output stays open, or ends while its standard error stays open, [run]
    does not return, whatever the child would exit with. *)
Theorem run_incomplete_streams (t : Tart) (args : list string) (w : World) :
  stdoutPipeErr (childOf t args w) = None ->
  stderrPipeErr (childOf t args w) = None ->
  startErr (childOf t args w) = None ->
  match s_end (child_stdout (childOf t args w)), s_end (child_stderr (childOf t args w)) with
  | Broken m, _ =>
      run t args w
      = ([Spawned (cmdOf t args w)],
         Some ("", Some (wrapError ("failed to read stdout: " ++ m) (SyscallError m))))
  | StaysOpen, _ => run t args w = ([Spawned (cmdOf t args w)], None)
  | AtEOF, Broken m =>
      run t args w
      = ([Spawned (cmdOf t args w)],
         Some ("", Some (wrapError ("failed to read stderr: " ++ m) (SyscallError m))))
  | AtEOF, StaysOpen => run t args w = ([Spawned (cmdOf t args w)], None)
  | AtEOF, AtEOF => In (Waited (cmdOf t args w)) (trace_of (run t args) w)
  end.
Proof.
  unfold childOf, trace_of. intros Ho He Hs.
  rewrite run_unfold. unfold run_spec. rewrite Ho, He, Hs.
  destruct (s_end (child_stdout _)) as [| m |];
    [| unfold Errorf_w; cbn [Error]; now rewrite append_empty_r | reflexivity].
  destruct (s_end (child_stderr _)) as [| m |];
    [| unfold Errorf_w; cbn [Error]; now rewrite append_empty_r | reflexivity].
  destruct (child_exit _) as [code |]; [destruct (code =? 0)%Z |]; simpl; auto.
Qed.

(** X3 on a child that exits with zero after its standard error broke. *)
Lemma run_incomplete_streams_witness :
  run Sample.tart ["get"; "vm"] (Sample.system (fun _ => Cases.garbled "{}" "broken pipe"))
  = ([Spawned (exec_Command "tart" ["get"; "vm"])],
     Some ("", Some (wrapError "failed to read stderr: broken pipe"
                       (SyscallError "broken pipe")))).
Proof.
  exact (run_incomplete_streams Sample.tart ["get"; "vm"]
           (Sample.system (fun _ => Cases.garbled "{}" "broken pipe"))
           eq_refl eq_refl eq_refl).
Defined.

(** X4. With a [ConfigDir] that is not empty and that [os.Stat] does not
    report as missing, also when [os.Stat] fails for another reason, the
    child of [run] gets the environment of the parent followed by
    [TART_HOME=ConfigDir] as its last entry, and [setTartHome] answers nil.
    Path and arguments of the command are as [exec.Command] made them. *)
Theorem run_sets_TART_HOME (t : Tart) (args : list string) (w : World) :
  ConfigDir t <> "" ->
  w_stat w (ConfigDir t) <> StatNotExist ->
  cmdOf t args w
  = {| Path := "tart"; Args := args;
       Env := Some (w_environ w ++ [("TART_HOME=" ++ ConfigDir t)%string])%list |}
  /\ snd (setTartHome t (exec_Command "tart" args) w) = Some (cmdOf t args w, None)
  /\ (stdoutPipeErr (childOf t args w) = None ->
      stderrPipeErr (childOf t args w) = None ->
      startErr (childOf t args w) = None ->
      spawns (trace_of (run t args) w) = [cmdOf t args w]).
Proof.
  intros Hdir Hstat.
  assert (Hset : setTartHome t (exec_Command "tart" args) w
                 = ([], Some ({| Path := "tart"; Args := args;
                                 Env := Some (w_environ w
                                              ++ [("TART_HOME=" ++ ConfigDir t)%string])%list |},
                              None))).
  { unfold setTartHome. rewrite (nonempty_true _ Hdir).
    cbv [bind os_Stat os_Environ ask ret]. cbn [fst snd app].
    destruct (w_stat w (ConfigDir t)); [reflexivity | congruence | reflexivity]. }
  assert (Hcmd : cmdOf t args w
                 = {| Path := "tart"; Args := args;
                      Env := Some (w_environ w
                                   ++ [("TART_HOME=" ++ ConfigDir t)%string])%list |}).
  { unfold cmdOf, result_of. rewrite Hset. reflexivity. }
  split; [exact Hcmd |]. split; [rewrite Hset, Hcmd; reflexivity |].
  apply run_spawns.
Qed.

(** X4 on a system whose environment already names another [TART_HOME],
    and on one where [os.Stat] is refused. *)
Lemma run_sets_TART_HOME_witness :
  cmdOf Sample.homed ["list"] (Cases.settled (fun _ => Sample.exits "[]" "" 0))
  = {| Path := "tart"; Args := ["list"];
       Env := Some ["HOME=/Users/me"; "TART_HOME=/tmp/elsewhere";
                    "TART_HOME=/Users/me/.tart"] |}
  /\ cmdOf Sample.homed ["list"] (Cases.locked (fun _ => Sample.exits "[]" "" 0))
     = {| Path := "tart"; Args := ["list"];
          Env := Some ["HOME=/Users/me"; "TART_HOME=/Users/me/.tart"] |}.
Proof.
  split.
  - apply (run_sets_TART_HOME Sample.homed ["list"]
             (Cases.settled (fun _ => Sample.exits "[]" "" 0))); discriminate.
  - apply (run_sets_TART_HOME Sample.homed ["list"]
             (Cases.locked (fun _ => Sample.exits "[]" "" 0))); discriminate.
Defined.

(** ** Making the client *)

Module PathFacts.
Import Filepath.

Lemma elements_real (e rest cur : string) :
  noSeparator e = true -> elements (e ++ rest) cur = elements rest (cur ++ e).
Proof.
  revert cur. induction e as [| c e IH]; intros cur H; cbn [append elements].
  - now rewrite append_empty_r.
  - cbn [noSeparator] in H. apply andb_true_iff in H as [Hc He].
    apply negb_true_iff in Hc. rewrite Hc, (IH _ He), append_assoc. reflexivity.
Qed.

Lemma elements_tail (segs : list string) :
  Forall (fun e => noSeparator e = true) segs ->
  forall cur, elements (tail segs) cur = cur :: segs.
Proof.
  induction 1 as [| e segs He _ IH]; intros cur; [reflexivity |].
  cbn [tail append elements]. change (Ascii.eqb "/" separator) with true. cbn iota.
  rewrite (elements_real e _ "" He), IH. reflexivity.
Qed.

Lemma real_parts (e : string) :
  real e = true ->
  noSeparator e = true /\ String.eqb e "" = false /\ String.eqb e "." = false
  /\ String.eqb e ".." = false.
Proof.
  unfold real. rewrite !andb_true_iff, !negb_true_iff. tauto.
Qed.

Lemma step_real (rooted : bool) (kept : list string) (e : string) :
  real e = true -> step rooted kept e = e :: kept.
Proof.
  intros H. destruct (real_parts e H) as (_ & H1 & H2 & H3).
  unfold step. now rewrite H1, H2, H3.
Qed.

Lemma fold_step_real (rooted : bool) (segs kept : list string) :
  Forall (fun e => real e = true) segs ->
  fold_left (step rooted) segs kept = (List.rev segs ++ kept)%list.
Proof.
  intros H. revert kept. induction H as [| e segs He _ IH]; intros kept; [reflexivity |].
  cbn [fold_left List.rev]. rewrite (step_real rooted kept e He), IH.
  now rewrite <- app_assoc.
Qed.

(** A rooted path of real elements is clean already. *)
Lemma Clean_tail (segs : list string) :
  Forall (fun e => real e = true) segs -> segs <> [] -> Clean (tail segs) = tail segs.
Proof.
  intros H Hne. destruct segs as [| e segs]; [congruence |].
  assert (Hsep : Forall (fun e => noSeparator e = true) (e :: segs)).
  { eapply Forall_impl; [| exact H]. intros x Hx. apply (real_parts x Hx). }
  unfold Clean. cbn [tail append]. change (Ascii.eqb "/" separator) with true.
  change (String "/" (e ++ tail segs)) with (tail (e :: segs)).
  rewrite (elements_tail _ Hsep "").
  change (fold_left (step true) ("" :: e :: segs) [])
    with (fold_left (step true) (e :: segs) []).
  rewrite (fold_step_real true (e :: segs) [] H), app_nil_r, rev_involutive.
  reflexivity.
Qed.

Lemma tail_app (a b : list string) : tail (a ++ b) = tail a ++ tail b.
Proof.
  induction a as [| e a IH]; [reflexivity |].
  cbn [app tail append]. now rewrite IH, append_assoc.
Qed.

(** The directory of Tart under a clean home. *)
Lemma Join_home (segs : list string) :
  Forall (fun e => real e = true) segs -> segs <> [] ->
  Join (tail segs) ".tart" = tail segs ++ "/.tart".
Proof.
  intros H Hne. unfold Join.
  destruct (String.eqb_spec (tail segs) "") as [E | _].
  { destruct segs; [congruence | discriminate E]. }
  change (tail segs ++ "/" ++ ".tart") with (tail segs ++ tail [".tart"]).
  rewrite <- tail_app. rewrite Clean_tail.
  - apply tail_app.
  - apply Forall_app. split; [exact H | repeat constructor].
  - destruct segs; discriminate.
Qed.

(** [Clean] keeps no empty element. *)
Lemma step_nonempty (rooted : bool) (kept : list string) (e : string) :
  Forall (fun x => x <> "") kept -> Forall (fun x => x <> "") (step rooted kept e).
Proof.
  intros H. unfold step.
  destruct (String.eqb_spec e "") as [-> | Hne]; [exact H |]. cbn [orb].
  destruct (String.eqb e "."); [exact H |].
  destruct (String.eqb e "..").
  - destruct kept as [| top rest]; [destruct rooted; repeat constructor; exact Hne |].
    destruct (String.eqb top ".."); [constructor; [exact Hne | exact H] |].
    now inversion H.
  - constructor; [exact Hne | exact H].
Qed.

Lemma fold_step_nonempty (rooted : bool) (es kept : list string) :
  Forall (fun x => x <> "") kept ->
  Forall (fun x => x <> "") (fold_left (step rooted) es kept).
Proof.
  revert kept. induction es as [| e es IH]; intros kept H; [exact H |].
  cbn [fold_left]. apply IH. now apply step_nonempty.
Qed.

Lemma Clean_nonempty (path : string) : Clean path <> "".
Proof.
  unfold Clean. destruct path as [| c r]; [discriminate |]. cbv zeta.
  set (rooted := Ascii.eqb c separator).
  pose proof (fold_step_nonempty rooted (elements (String c r) "") [] (Forall_nil _)) as H.
  apply Forall_rev in H.
  destruct (List.rev _) as [| e rest]; cbn [render].
  - destruct rooted; discriminate.
  - destruct rooted; [discriminate |]. inversion H; subst.
    destruct e; [congruence | discriminate].
Qed.

Lemma Join_tart_nonempty (home : string) : Join home ".tart" <> "".
Proof.
  unfold Join. destruct (String.eqb home ""); cbn [String.eqb]; apply Clean_nonempty.
Qed.

End PathFacts.

(** X5. What [New] can end in. It returns a client and a nil error, or no
    client and the error "tart command not found in PATH", never both and
    never neither; it panics exactly when [tart] is found and the home
    directory is not known. Without [tart] it looks at nothing else: no
    panic and no directory, whatever the home directory. A client has an
    empty [Host] and the [ConfigDir] that [filepath.Join] makes of the home
    directory and [.tart], which is never empty; the directory is made, for
    the owner only, exactly when [os.Stat] reports it missing. *)
Theorem New_outcome (m : Machine) (w : World) :
  match New m w with
  | (evs, Returned (Some t, None)) =>
      (exists p, m_lookPath m "tart" = inl p)
      /\ (exists home, m_home m = inl home /\ ConfigDir t = Filepath.Join home ".tart")
      /\ Host t = ""
      /\ ConfigDir t <> ""
      /\ evs = (if IsNotExist (w_stat w (ConfigDir t)) then [Mkdir (ConfigDir t) 448] else [])
  | (evs, Returned (None, Some e)) =>
      e = errorString "tart command not found in PATH"
      /\ (exists e', m_lookPath m "tart" = inr e')
      /\ evs = []
  | (evs, Panicked v) =>
      (exists p, m_lookPath m "tart" = inl p) /\ m_home m = inr v /\ evs = []
  | (_, Returned _) => False
  end.
Proof.
  unfold New, getConfigDir.
  destruct (m_lookPath m "tart") as [p | e']; [| eauto].
  destruct (m_home m) as [home | err]; [| eauto].
  cbv zeta.
  destruct (IsNotExist (w_stat w (Filepath.Join home ".tart"))) eqn:E;
    cbn [ConfigDir Host]; rewrite E;
    (split; [eauto |]; split; [eauto |]; split; [reflexivity |];
     split; [apply PathFacts.Join_tart_nonempty | reflexivity]).
Qed.

(** X6. Under a home directory that is a rooted path of real elements
    (none empty, [.] or [..]), the client of [New] has the [ConfigDir]
    [home/.tart], and that is the directory [New] makes when it is
    missing. *)
Theorem New_config_dir (m : Machine) (w : World) (segs : list string) (p : string) :
  m_lookPath m "tart" = inl p ->
  m_home m = inl (Filepath.tail segs) ->
  Forall (fun e => Filepath.real e = true) segs ->
  segs <> [] ->
  New m w
  = ((if IsNotExist (w_stat w (Filepath.tail segs ++ "/.tart"))
      then [Mkdir (Filepath.tail segs ++ "/.tart") 448] else []),
     Returned (Some {| ConfigDir := Filepath.tail segs ++ "/.tart"; Host := "" |}, None)).
Proof.
  intros Hp Hh Hreal Hne. unfold New, getConfigDir. rewrite Hp, Hh. cbv zeta.
  rewrite (PathFacts.Join_home segs Hreal Hne).
  destruct (IsNotExist _); reflexivity.
Qed.

(** X6 on a machine with the home directory [/Users/me], where
    [/Users/me/.tart] is missing. *)
Lemma New_config_dir_witness :
  New Cases.mac (Sample.bare (fun _ => Sample.exits "" "" 0))
  = ([Mkdir "/Users/me/.tart" 448],
     Returned (Some {| ConfigDir := "/Users/me/.tart"; Host := "" |}, None)).
Proof.
  apply (New_config_dir Cases.mac (Sample.bare (fun _ => Sample.exits "" "" 0))
           ["Users"; "me"] "/opt/homebrew/bin/tart").
  - reflexivity.
  - reflexivity.
  - repeat constructor.
  - discriminate.
Defined.

(** A client of [New] has a [ConfigDir] that is not empty. *)
Lemma New_outcome_dir (m : Machine) (w : World) :
  match New m w with
  | (_, Returned (Some t, _)) => ConfigDir t <> ""
  | _ => True
  end.
Proof.
  unfold New, getConfigDir.
  destruct (m_lookPath m "tart"); [| exact I].
  destruct (m_home m) as [home |]; [| exact I]. cbv zeta.
  destruct (IsNotExist _); apply PathFacts.Join_tart_nonempty.
Qed.

(** X7. A client that [New] returned always sends [run] to [os.Stat]: its
    [ConfigDir] is not empty. The command [run] then builds has the
    environment of the parent with [TART_HOME=ConfigDir] at its end, or,
    when the directory is missing at that time (it could not be made, or
    was removed), a nil environment, and the command is started all the
    same. *)
Theorem New_then_run (m : Machine) (w0 : World) evs (t : Tart) :
  New m w0 = (evs, Returned (Some t, None)) ->
  forall (args : list string) (w : World),
    cmdOf t args w
    = {| Path := "tart"; Args := args;
         Env := if IsNotExist (w_stat w (ConfigDir t)) then None
                else Some (w_environ w ++ [("TART_HOME=" ++ ConfigDir t)%string])%list |}
    /\ (stdoutPipeErr (childOf t args w) = None ->
        stderrPipeErr (childOf t args w) = None ->
        startErr (childOf t args w) = None ->
        spawns (trace_of (run t args) w) = [cmdOf t args w]).
Proof.
  intros HN args w. split; [| apply run_spawns].
  pose proof (New_outcome_dir m w0) as H. rewrite HN in H.
  unfold cmdOf, result_of, setTartHome. rewrite (nonempty_true _ H).
  cbv [bind os_Stat os_Environ ask ret]. cbn [fst snd app].
  destruct (IsNotExist (w_stat w (ConfigDir t))); reflexivity.
Qed.

(** X7 on the client of a machine with the home directory [/Users/me],
    used on a system where [/Users/me/.tart] is missing. *)
Lemma New_then_run_witness :
  cmdOf {| ConfigDir := "/Users/me/.tart"; Host := "" |} ["list"]
        (Sample.bare (fun _ => Sample.exits "[]" "" 0))
  = {| Path := "tart"; Args := ["list"]; Env := None |}.
Proof.
  apply (New_then_run Cases.mac (Sample.bare (fun _ => Sample.exits "" "" 0))
           [Mkdir "/Users/me/.tart" 448]
           {| ConfigDir := "/Users/me/.tart"; Host := "" |} eq_refl ["list"]
           (Sample.bare (fun _ => Sample.exits "[]" "" 0))).
Defined.

(** ** Decoding a listing *)

Module DecodeFacts.
Import Decode.

Lemma object_app (ms1 ms2 : list (string * JSON.value)) (v : VMState.t) saved :
  object (ms1 ++ ms2) v saved
  = let (v1, saved1) := object ms1 v saved in object ms2 v1 saved1.
Proof.
  revert v saved. induction ms1 as [| [k x] ms1 IH]; intros v saved; [reflexivity |].
  cbn [app object]. destruct (lookupField k) as [f |]; [| apply IH].
  destruct (store f x v) as [v' err]. apply IH.
Qed.

(** An error that is saved stays. *)
Lemma object_saved (ms : list (string * JSON.value)) (v : VMState.t) (e : error) :
  snd (object ms v (Some e)) = Some e.
Proof.
  revert v. induction ms as [| [k x] ms IH]; intros v; [reflexivity |].
  cbn [object]. destruct (lookupField k) as [f |]; [| apply IH].
  destruct (store f x v) as [v' err]. apply IH.
Qed.

Lemma store_fits (f : Field) (x : JSON.value) (v : VMState.t) :
  snd (store f x v) = None <-> fits f x = true.
Proof.
  unfold store, fits. destruct x as [| b | lit | s | elems | ms]; cbn [snd].
  - tauto.
  - split; discriminate.
  - destruct (isIntField f); [| split; discriminate].
    destruct (ParseInt lit); cbn [snd andb]; [tauto | split; discriminate].
  - destruct (isIntField f); cbn [snd negb]; [split; discriminate | tauto].
  - split; discriminate.
  - split; discriminate.
Qed.

(** What does not fit leaves the value as it was. *)
Lemma store_misfit (f : Field) (x : JSON.value) (v : VMState.t) :
  fits f x = false -> fst (store f x v) = v.
Proof.
  unfold store, fits. intros H.
  destruct x as [| b | lit | s | elems | ms]; try reflexivity; try discriminate H.
  - destruct (isIntField f); [| reflexivity].
    destruct (ParseInt lit); [discriminate H | reflexivity].
  - destruct (isIntField f); [reflexivity | discriminate H].
Qed.

Lemma Field_eq_dec (f g : Field) : {f = g} + {f <> g}.
Proof. decide equality. Defined.

(** [store] writes to the field it is given and to no other. *)
Lemma store_other (f g : Field) (x : JSON.value) (v : VMState.t) :
  f <> g -> field g (fst (store f x v)) = field g v.
Proof.
  intros Hne. unfold store. destruct x as [| b | lit | s | elems | ms]; try reflexivity.
  - destruct (isIntField f) eqn:Ef; [| reflexivity].
    destruct (ParseInt lit) as [n |]; [| reflexivity].
    destruct f, g; try reflexivity; try discriminate Ef; congruence.
  - destruct (isIntField f) eqn:Ef; [reflexivity |].
    destruct f, g; try reflexivity; try discriminate Ef; congruence.
Qed.

Lemma ParseInt_range (s : string) (n : Z) : ParseInt s = Some n -> VMState.int_range n.
Proof.
  assert (H : forall (neg : bool) (body : string),
             match body with
             | EmptyString => None
             | _ =>
               match digitsValue body 0 with
               | None => None
               | Some k =>
                 let v := if neg then (- k)%Z else k in
                 if ((- 2 ^ 63 <=? v) && (v <? 2 ^ 63))%Z then Some v else None
               end
             end = Some n -> VMState.int_range n).
  { intros neg body. destruct body as [| c r]; [discriminate |].
    destruct (digitsValue (String c r) 0) as [k |]; [| discriminate]. cbv zeta.
    destruct ((- 2 ^ 63 <=? (if neg then (- k)%Z else k))
              && ((if neg then (- k)%Z else k) <? 2 ^ 63))%Z eqn:E; [| discriminate].
    intros [= <-]. apply andb_true_iff in E as [E1 E2].
    apply Z.leb_le in E1. apply Z.ltb_lt in E2. split; assumption. }
  unfold ParseInt. destruct s as [| c r]; [apply (H false "") |].
  destruct (Ascii.eqb c "-"); [apply (H true r) |].
  destruct (Ascii.eqb c "+"); [apply (H false r) | apply (H false (String c r))].
Qed.

Lemma store_wf (f : Field) (x : JSON.value) (v : VMState.t) :
  VMState.wf v -> VMState.wf (fst (store f x v)).
Proof.
  intros Hv. unfold store.
  destruct x as [| b | lit | s | elems | ms]; try exact Hv.
  - destruct (isIntField f); [| exact Hv].
    destruct (ParseInt lit) as [n |] eqn:E; [| exact Hv].
    apply ParseInt_range in E. destruct v as [sod disk name source size state].
    destruct Hv as (H1 & H2 & H3).
    cbn [VMState.SizeOnDisk VMState.Disk VMState.Size] in H1, H2, H3.
    destruct f; cbn [fst setInt]; unfold VMState.wf;
      cbn [VMState.SizeOnDisk VMState.Disk VMState.Size]; auto.
  - destruct (isIntField f); [exact Hv |].
    destruct v as [sod disk name source size state].
    destruct Hv as (H1 & H2 & H3).
    cbn [VMState.SizeOnDisk VMState.Disk VMState.Size] in H1, H2, H3.
    destruct f; cbn [fst setString]; unfold VMState.wf;
      cbn [VMState.SizeOnDisk VMState.Disk VMState.Size]; auto.
Qed.

Lemma object_wf (ms : list (string * JSON.value)) (v : VMState.t) saved :
  VMState.wf v -> VMState.wf (fst (object ms v saved)).
Proof.
  revert v saved. induction ms as [| [k x] ms IH]; intros v saved Hv; [exact Hv |].
  cbn [object]. destruct (lookupField k) as [f |]; [| now apply IH].
  pose proof (store_wf f x v Hv) as H. destruct (store f x v) as [v' err]. now apply IH.
Qed.

End DecodeFacts.

Lemma zero_wf : VMState.wf VMState.zero.
Proof. repeat split; cbn; lia. Qed.

Lemma UnmarshalJSON_wf (v : VMState.t) (x : JSON.value) :
  VMState.wf v -> VMState.wf (fst (UnmarshalJSON v x)).
Proof.
  intros Hv. destruct x; cbn [UnmarshalJSON fst]; try exact Hv.
  now apply DecodeFacts.object_wf.
Qed.

Lemma Unmarshal_array_wf (elems : list JSON.value) :
  Forall VMState.wf (fst (Unmarshal_array elems)).
Proof.
  induction elems as [| x elems IH]; [constructor |].
  cbn [Unmarshal_array].
  pose proof (UnmarshalJSON_wf VMState.zero x zero_wf) as Hx.
  destruct (UnmarshalJSON VMState.zero x) as [v [err |]]; cbn [fst] in *.
  - constructor; [exact Hx | constructor].
  - destruct (Unmarshal_array elems) as [vs err]. cbn [fst] in *.
    constructor; [exact Hx | exact IH].
Qed.

(** What a successful [List] went through. *)
Lemma List_success (t : Tart) (config : ListOptions.t) (w : World) tr vms :
  List t config w = (tr, Some (vms, None)) ->
  invalidSource config = None
  /\ exists output,
       run t (ListArgs config) w = (tr, Some (output, None))
       /\ Unmarshal output = (vms, None).
Proof.
  unfold List. destruct (invalidSource config); [discriminate |].
  cbv [bind]. destruct (run t (ListArgs config) w) as [tr0 [[output [err |]] |]];
    cbv [ret]; try discriminate.
  destruct (Unmarshal output) as [vs [err |]] eqn:E; [discriminate |].
  rewrite app_nil_r. intros [= <- <-]. split; [reflexivity |].
  exists output. split; [reflexivity | exact E].
Qed.


Lemma object_success (ms : list (string * JSON.value)) (v : VMState.t) saved :
  snd (Decode.object ms v saved) = None
  <-> saved = None /\ forallb member_fits ms = true.
Proof.
  revert v saved. induction ms as [| [k x] ms IH]; intros v saved.
  - cbn. tauto.
  - cbn [Decode.object forallb]. unfold member_fits at 1. cbn [fst snd].
    destruct (Decode.lookupField k) as [f |]; [| rewrite IH; cbn [andb]; tauto].
    pose proof (DecodeFacts.store_fits f x v) as Hs.
    destruct (Decode.store f x v) as [v' err]. cbn [snd] in Hs. rewrite IH.
    destruct saved as [e |]; cbn [Decode.saveError].
    + split; [intros [H _]; discriminate H | intros [H _]; discriminate H].
    + destruct (fits f x); cbn [andb].
      * destruct Hs as [_ Hs]. rewrite (Hs eq_refl). tauto.
      * split; [| intros [_ H]; discriminate H].
        intros [-> _]. destruct Hs as [Hs _]. discriminate (Hs eq_refl).
Qed.

(** X9. An object decodes into a [VMState] without an error exactly when
    every member that names a field, under any spelling the decoder
    accepts, holds [null] or a value of the kind of the field: a text for
    name, source and state, a number that is a 64-bit integer literal for
    the three sizes. Members that name no field never matter. *)
Theorem UnmarshalJSON_success (v : VMState.t) (ms : list (string * JSON.value)) :
  snd (UnmarshalJSON v (JSON.Object ms)) = None <-> forallb member_fits ms = true.
Proof.
  cbn [UnmarshalJSON]. rewrite object_success. tauto.
Qed.

Lemma Unmarshal_array_error (elems : list JSON.value) (x : JSON.value) :
  In x elems ->
  snd (UnmarshalJSON VMState.zero x) <> None ->
  snd (Unmarshal_array elems) <> None.
Proof.
  induction elems as [| y elems IH]; intros Hin Hx; [contradiction |].
  cbn [Unmarshal_array].
  destruct (UnmarshalJSON VMState.zero y) as [v [err |]] eqn:E; [discriminate |].
  destruct Hin as [-> | Hin]; [rewrite E in Hx; contradiction |].
  specialize (IH Hin Hx). destruct (Unmarshal_array elems) as [vs err]. exact IH.
Qed.

(** X10. [List] is all or nothing: when one element of the array does not
    decode, wherever it stands, [List] returns an error and no machine at
    all, not the machines that did decode. *)
Theorem List_all_or_nothing (t : Tart) (config : ListOptions.t) (w : World) tr output
        (elems : list JSON.value) (x : JSON.value) :
  invalidSource config = None ->
  run t (ListArgs config) w = (tr, Some (output, None)) ->
  JSON.parse output = Some (JSON.Array elems) ->
  In x elems ->
  snd (UnmarshalJSON VMState.zero x) <> None ->
  exists err, List t config w = (tr, Some ([], Some err)).
Proof.
  intros Hs Hr Hp Hin Hx. rewrite (List_unfold t config w tr output Hs Hr).
  unfold Unmarshal. rewrite Hp.
  pose proof (Unmarshal_array_error elems x Hin Hx) as He.
  destruct (Unmarshal_array elems) as [vs [err |]]; [eauto | contradiction].
Qed.

(** X10 on a listing of two machines, the second with a disk size of 1.5:
    the first machine is not returned either. *)
Lemma List_all_or_nothing_witness :
  exists err,
    List Sample.tart ListOptions.zero
         (Sample.system (Sample.hosting Cases.fractional (Sample.exits "" "" 0)))
    = ([Spawned (exec_Command "tart" ["list"; "--format"; "json"]);
        Waited (exec_Command "tart" ["list"; "--format"; "json"])],
       Some ([], Some err)).
Proof.
  apply (List_all_or_nothing Sample.tart ListOptions.zero
           (Sample.system (Sample.hosting Cases.fractional (Sample.exits "" "" 0)))
           _ Cases.fractional
           [JSON.Object [("Name", JSON.Str "a"); ("Disk", JSON.Number "50")];
            JSON.Object [("Name", JSON.Str "b"); ("Disk", JSON.Number "1.5")]]
           (JSON.Object [("Name", JSON.Str "b"); ("Disk", JSON.Number "1.5")])).
  - reflexivity.
  - reflexivity.
  - vm_compute. reflexivity.
  - right. left. reflexivity.
  - discriminate.
Defined.

Lemma object_filter_known (ms : list (string * JSON.value)) (v : VMState.t) saved :
  Decode.object ms v saved = Decode.object (filter known ms) v saved.
Proof.
  revert v saved. induction ms as [| [k x] ms IH]; intros v saved; [reflexivity |].
  cbn [Decode.object filter]. unfold known at 1. cbn [fst].
  destruct (Decode.lookupField k) as [f |] eqn:E; [| apply IH].
  cbn [Decode.object]. rewrite E.
  destruct (Decode.store f x v) as [v' err]. apply IH.
Qed.

(** X11. Members whose key names no field of [VMState] are skipped: they
    change neither the value decoded nor the error, whatever their value
    is and wherever they stand in the object. *)
Theorem UnmarshalJSON_skips_unknown (v : VMState.t) (ms : list (string * JSON.value)) :
  UnmarshalJSON v (JSON.Object ms) = UnmarshalJSON v (JSON.Object (filter known ms)).
Proof.
  cbn [UnmarshalJSON]. apply object_filter_known.
Qed.

Lemma object_untouched (g : Decode.Field) (ms : list (string * JSON.value))
      (v : VMState.t) saved :
  (forall member, In member ms -> Decode.lookupField (fst member) <> Some g) ->
  field g (fst (Decode.object ms v saved)) = field g v.
Proof.
  revert v saved. induction ms as [| [k x] ms IH]; intros v saved H; [reflexivity |].
  cbn [Decode.object].
  assert (Hms : forall member, In member ms -> Decode.lookupField (fst member) <> Some g).
  { intros member Hin. apply H. right. exact Hin. }
  pose proof (H (k, x) (or_introl eq_refl)) as Hk. cbn [fst] in Hk.
  destruct (Decode.lookupField k) as [f |]; [| apply IH; exact Hms].
  pose proof (DecodeFacts.store_other f g x v) as Hs.
  destruct (Decode.store f x v) as [v' err]. cbn [fst] in Hs.
  rewrite (IH v' _ Hms). apply Hs. congruence.
Qed.

(** X12. Decoding is an update of the value it is given, not a fresh
    value: a field that no member of the object names keeps the value it
    had, also when the decoding of other members fails. In [List] the
    value given is the zero [VMState], so a field the listing leaves out
    is [0] or the empty text. *)
Theorem UnmarshalJSON_keeps_unnamed (g : Decode.Field) (v : VMState.t)
        (ms : list (string * JSON.value)) :
  (forall member, In member ms -> Decode.lookupField (fst member) <> Some g) ->
  field g (fst (UnmarshalJSON v (JSON.Object ms))) = field g v.
Proof.
  intros H. cbn [UnmarshalJSON]. apply object_untouched. exact H.
Qed.

(** X12 on an object with a name, an unknown key and a disk size of the
    wrong kind: the state stays as it was. *)
Lemma UnmarshalJSON_keeps_unnamed_witness :
  field Decode.FState
    (fst (UnmarshalJSON (VMState.mk 1 2 "old" "local" 3 "running")
            (JSON.Object [("Name", JSON.Str "vm"); ("Running", JSON.Bool true);
                          ("disk", JSON.Str "big")])))
  = inr "running".
Proof.
  apply (UnmarshalJSON_keeps_unnamed Decode.FState
           (VMState.mk 1 2 "old" "local" 3 "running")
           [("Name", JSON.Str "vm"); ("Running", JSON.Bool true);
            ("disk", JSON.Str "big")]).
  intros member [<- | [<- | [<- | []]]]; vm_compute; discriminate.
Defined.

Lemma store_text (f : Decode.Field) (s : string) (v : VMState.t) :
  Decode.isIntField f = false ->
  field f (fst (Decode.store f (JSON.Str s) v)) = inr s.
Proof.
  intros H. unfold Decode.store. rewrite H. destruct f; try discriminate H; reflexivity.
Qed.

Lemma store_integer (f : Decode.Field) (lit : string) (n : Z) (v : VMState.t) :
  Decode.isIntField f = true ->
  Decode.ParseInt lit = Some n ->
  field f (fst (Decode.store f (JSON.Number lit) v)) = inl n.
Proof.
  intros H Hn. unfold Decode.store. rewrite H, Hn.
  destruct f; try discriminate H; reflexivity.
Qed.

(** X13. When a field is named more than once, under any spellings, the
    last member that names it decides: a text there is the text of the
    field, an integer literal there is its integer, a [null] there leaves
    what the members before it have stored, whatever those were. *)
Theorem UnmarshalJSON_last_member (f : Decode.Field) (key : string) (v : VMState.t)
        (ms : list (string * JSON.value)) :
  Decode.lookupField key = Some f ->
  (forall s, Decode.isIntField f = false ->
     field f (fst (UnmarshalJSON v (JSON.Object (ms ++ [(key, JSON.Str s)])))) = inr s)
  /\ (forall lit n, Decode.isIntField f = true -> Decode.ParseInt lit = Some n ->
        field f (fst (UnmarshalJSON v (JSON.Object (ms ++ [(key, JSON.Number lit)])))) = inl n)
  /\ field f (fst (UnmarshalJSON v (JSON.Object (ms ++ [(key, JSON.Null)]))))
     = field f (fst (UnmarshalJSON v (JSON.Object ms))).
Proof.
  intros Hk. cbn [UnmarshalJSON]. repeat split.
  - intros s Hf. rewrite DecodeFacts.object_app.
    destruct (Decode.object ms v None) as [v1 saved1].
    cbn [Decode.object]. rewrite Hk.
    pose proof (store_text f s v1 Hf) as Hs.
    destruct (Decode.store f (JSON.Str s) v1) as [v' err]. exact Hs.
  - intros lit n Hf Hn. rewrite DecodeFacts.object_app.
    destruct (Decode.object ms v None) as [v1 saved1].
    cbn [Decode.object]. rewrite Hk.
    pose proof (store_integer f lit n v1 Hf Hn) as Hs.
    destruct (Decode.store f (JSON.Number lit) v1) as [v' err]. exact Hs.
  - rewrite DecodeFacts.object_app.
    destruct (Decode.object ms v None) as [v1 saved1].
    cbn [Decode.object]. rewrite Hk. reflexivity.
Qed.

(** X13 on an object that gives the state three times. *)
Lemma UnmarshalJSON_last_member_witness :
  field Decode.FState
    (fst (UnmarshalJSON VMState.zero
            (JSON.Object ([("state", JSON.Str "running"); ("State", JSON.Str "suspended")]
                          ++ [("STATE", JSON.Str "stopped")]))))
  = inr "stopped".
Proof.
  apply (UnmarshalJSON_last_member Decode.FState "STATE" VMState.zero
           [("state", JSON.Str "running"); ("State", JSON.Str "suspended")]);
    reflexivity.
Defined.

Lemma foldName_tag_injective (f g : Decode.Field) :
  Decode.foldName (Decode.tag f) = Decode.foldName (Decode.tag g) -> f = g.
Proof.
  destruct f, g; intros H; try reflexivity; vm_compute in H; discriminate H.
Qed.

(** X14. The key of a member names a field exactly when the key and the
    tag of the field are equal after folding: ASCII letters compare without
    case, and the Kelvin sign and the long s count as [k] and [s]. No two
    fields fold to the same text, so the spelling of a key never decides
    between fields, and an exact match names the same field as the folded
    one. *)
Theorem lookupField_folds (key : string) (f : Decode.Field) :
  Decode.lookupField key = Some f
  <-> Decode.foldName key = Decode.foldName (Decode.tag f).
Proof.
  unfold Decode.lookupField.
  destruct (find (fun g => String.eqb (Decode.tag g) key) Decode.fields) as [g |] eqn:E.
  - apply find_some in E. destruct E as [_ E]. apply String.eqb_eq in E. subst key.
    split.
    + intros H. injection H as ->. reflexivity.
    + intros H. f_equal. apply foldName_tag_injective. exact H.
  - split.
    + intros H. apply find_some in H. destruct H as [_ H].
      apply String.eqb_eq in H. symmetry. exact H.
    + intros H. rewrite H. destruct f; reflexivity.
Qed.

Lemma store_error_plain (f : Decode.Field) (x : JSON.value) (v : VMState.t) (e : error) :
  snd (Decode.store f x v) = Some e -> Unwrap e = None.
Proof.
  unfold Decode.store. destruct x as [| b | lit | s | elems | ms]; cbn [snd].
  - discriminate.
  - intros H. injection H as <-. reflexivity.
  - destruct (Decode.isIntField f).
    + destruct (Decode.ParseInt lit); cbn [snd]; [discriminate |].
      intros H. injection H as <-. reflexivity.
    + cbn [snd]. intros H. injection H as <-. reflexivity.
  - destruct (Decode.isIntField f); cbn [snd]; [| discriminate].
    intros H. injection H as <-. reflexivity.
  - intros H. injection H as <-. reflexivity.
  - intros H. injection H as <-. reflexivity.
Qed.

Lemma object_error_plain (ms : list (string * JSON.value)) (v : VMState.t) saved (e : error) :
  (forall e0, saved = Some e0 -> Unwrap e0 = None) ->
  snd (Decode.object ms v saved) = Some e -> Unwrap e = None.
Proof.
  revert v saved. induction ms as [| [k x] ms IH]; intros v saved Hs H.
  - apply Hs. exact H.
  - cbn [Decode.object] in H. destruct (Decode.lookupField k) as [f |].
    + pose proof (store_error_plain f x v) as Hst.
      destruct (Decode.store f x v) as [v' err]. cbn [snd] in Hst.
      apply (IH v' (Decode.saveError saved err)); [| exact H].
      intros e0 He0. destruct saved as [e1 |]; cbn [Decode.saveError] in He0.
      * apply Hs. exact He0.
      * apply Hst. exact He0.
    + apply (IH v saved Hs H).
Qed.

Lemma UnmarshalJSON_error_plain (v : VMState.t) (x : JSON.value) (e : error) :
  snd (UnmarshalJSON v x) = Some e -> Unwrap e = None.
Proof.
  destruct x as [| b | lit | s | elems | ms]; cbn [UnmarshalJSON snd];
    try (intros H; injection H as <-; reflexivity).
  - discriminate.
  - apply object_error_plain. discriminate.
Qed.

Lemma Unmarshal_array_error_plain (elems : list JSON.value) (e : error) :
  snd (Unmarshal_array elems) = Some e -> Unwrap e = None.
Proof.
  induction elems as [| x elems IH]; cbn [Unmarshal_array]; [discriminate |].
  pose proof (UnmarshalJSON_error_plain VMState.zero x) as Hx.
  destruct (UnmarshalJSON VMState.zero x) as [v [err |]]; cbn [snd] in *.
  - intros H. apply Hx. exact H.
  - destruct (Unmarshal_array elems) as [vs err]. exact IH.
Qed.

Lemma Unmarshal_error_plain (output : string) (e : error) :
  snd (Unmarshal output) = Some e -> Unwrap e = None.
Proof.
  unfold Unmarshal.
  destruct (JSON.parse output) as [[| b | lit | s | elems | ms] |]; cbn [snd];
    try (intros H; injection H as <-; reflexivity).
  - discriminate.
  - apply Unmarshal_array_error_plain.
Qed.

(** X15. The errors of [List]. An error never comes with machines. It is
    one of three: the error of the source check, and then nothing was
    started; the error of the command, wrapped, so that [errors.Unwrap]
    gives it back; or the error of the decoding of what a successful
    command printed, returned as it is, so that [errors.Unwrap] gives nil. *)
Theorem List_errors (t : Tart) (config : ListOptions.t) (w : World) tr vms err :
  List t config w = (tr, Some (vms, Some err)) ->
  vms = []
  /\ match invalidSource config with
     | Some e => err = e /\ tr = []
     | None =>
         exists output,
           (exists e, run t (ListArgs config) w = (tr, Some (output, Some e))
                      /\ Unwrap err = Some e)
           \/ (run t (ListArgs config) w = (tr, Some (output, None))
               /\ snd (Unmarshal output) = Some err /\ Unwrap err = None)
     end.
Proof.
  unfold List. destruct (invalidSource config) as [e0 |].
  - cbv [ret]. intros H. injection H as <- <- <-. auto.
  - cbv [bind]. destruct (run t (ListArgs config) w) as [tr0 [[output [e |]] |]];
      [| | discriminate].
    + cbv [ret]. rewrite app_nil_r. intros H. injection H as <- <- <-.
      split; [reflexivity |]. exists output. left. exists e. split; reflexivity.
    + pose proof (Unmarshal_error_plain output) as Hp.
      destruct (Unmarshal output) as [vs [e |]] eqn:EU; cbv [ret]; rewrite app_nil_r;
        intros H; [| discriminate H].
      injection H as <- <- <-. split; [reflexivity |]. exists output. right.
      rewrite EU. split; [reflexivity |]. split; [reflexivity |]. apply Hp. reflexivity.
Qed.

(** X15 on a source that is neither local nor remote. *)
Lemma List_errors_witness :
  @nil VMState.t = [] /\ errorString "invalid source: oci" = errorString "invalid source: oci"
  /\ @nil Event = [].
Proof.
  apply (List_errors Sample.tart {| ListOptions.Source := Some "oci" |}
           Cases.refusing [] [] (errorString "invalid source: oci")).
  reflexivity.
Defined.

(** X16. [Exists] and [State] agree on one listing: [Exists] answers true
    exactly when the name is the name of a listed machine, and then
    [State] returns a listed machine of that name; when [Exists] answers
    false, [State] returns the zero value. *)
Theorem Exists_agrees_with_State (t : Tart) (name : string) (w : World) tr vms :
  List t ListOptions.zero w = (tr, Some (vms, None)) ->
  exists b s,
    Exists t name w = (tr, Some (b, None))
    /\ State t name w = (tr, Some (s, None))
    /\ (b = true <-> In name (map VMState.Name vms))
    /\ (b = true -> In s vms /\ VMState.Name s = name)
    /\ (b = false -> s = VMState.zero).
Proof.
  intros HL. exists (nameTaken vms name), (State_loop vms name VMState.zero).
  split; [| split; [| split; [| split]]].
  - unfold Exists. cbv [bind]. rewrite HL. cbv [ret]. now rewrite app_nil_r.
  - apply List_State. exact HL.
  - apply nameTaken_In.
  - intros Hb. apply State_loop_found. apply nameTaken_In. exact Hb.
  - intros Hb. apply State_loop_missing. intros Hin. apply nameTaken_In in Hin. congruence.
Qed.

(** X16 on the sample listing of one machine. *)
Lemma Exists_agrees_with_State_witness :
  exists b s,
    Exists Sample.tart "vm" (Sample.system (Sample.hosting Sample.listing (Sample.exits "" "" 0)))
    = ([Spawned (exec_Command "tart" ["list"; "--format"; "json"]);
        Waited (exec_Command "tart" ["list"; "--format"; "json"])], Some (b, None))
    /\ State Sample.tart "vm" (Sample.system (Sample.hosting Sample.listing (Sample.exits "" "" 0)))
       = ([Spawned (exec_Command "tart" ["list"; "--format"; "json"]);
           Waited (exec_Command "tart" ["list"; "--format"; "json"])], Some (s, None))
    /\ (b = true <-> In "vm" (map VMState.Name [VMState.mk 22 50 "vm" "local" 21 "stopped"]))
    /\ (b = true -> In s [VMState.mk 22 50 "vm" "local" 21 "stopped"] /\ VMState.Name s = "vm")
    /\ (b = false -> s = VMState.zero).
Proof.
  apply (Exists_agrees_with_State Sample.tart "vm"
           (Sample.system (Sample.hosting Sample.listing (Sample.exits "" "" 0)))
           [Spawned (exec_Command "tart" ["list"; "--format"; "json"]);
            Waited (exec_Command "tart" ["list"; "--format"; "json"])]
           [VMState.mk 22 50 "vm" "local" 21 "stopped"]).
  reflexivity.
Defined.

Lemma State_loop_first (pre post : list VMState.t) (s ret0 : VMState.t) (name : string) :
  VMState.Name s = name ->
  ~ In name (map VMState.Name pre) ->
  State_loop (pre ++ s :: post)%list name ret0 = s.
Proof.
  intros Hs. induction pre as [| v pre IH]; intros Hpre; cbn [app State_loop].
  - rewrite Hs, String.eqb_refl. reflexivity.
  - cbn [map In] in Hpre.
    destruct (String.eqb_spec (VMState.Name v) name) as [E | NE]; [tauto |].
    apply IH. tauto.
Qed.

(** X17. Of several listed machines with one name, [State] returns the
    first in the order of the listing, and [Running], [Stopped] and
    [Suspended] answer for that one; the later ones are never looked at. *)
Theorem State_first_match (t : Tart) (name : string) (w : World) tr
        (pre post : list VMState.t) (s : VMState.t) :
  List t ListOptions.zero w = (tr, Some ((pre ++ s :: post)%list, None)) ->
  VMState.Name s = name ->
  ~ In name (map VMState.Name pre) ->
  State t name w = (tr, Some (s, None))
  /\ Running t name w = (tr, Some (String.eqb (VMState.State s) "running", None))
  /\ Stopped t name w = (tr, Some (String.eqb (VMState.State s) "stopped", None))
  /\ Suspended t name w = (tr, Some (String.eqb (VMState.State s) "suspended", None)).
Proof.
  intros HL Hs Hpre.
  assert (HS : State t name w = (tr, Some (s, None))).
  { rewrite (List_State t name w tr _ HL).
    now rewrite (State_loop_first pre post s VMState.zero name Hs Hpre). }
  split; [exact HS |]. apply state_checks. exact HS.
Qed.

(** X17 on a listing of two machines called [vm], the first running and
    the second stopped: the machine counts as running and not as stopped. *)
Lemma State_first_match_witness :
  Running Sample.tart "vm" (Sample.system (Sample.hosting Cases.twins (Sample.exits "" "" 0)))
  = ([Spawned (exec_Command "tart" ["list"; "--format"; "json"]);
      Waited (exec_Command "tart" ["list"; "--format"; "json"])], Some (true, None))
  /\ Stopped Sample.tart "vm" (Sample.system (Sample.hosting Cases.twins (Sample.exits "" "" 0)))
  = ([Spawned (exec_Command "tart" ["list"; "--format"; "json"]);
      Waited (exec_Command "tart" ["list"; "--format"; "json"])], Some (false, None)).
Proof.
  destruct (State_first_match Sample.tart "vm"
              (Sample.system (Sample.hosting Cases.twins (Sample.exits "" "" 0)))
              [Spawned (exec_Command "tart" ["list"; "--format"; "json"]);
               Waited (exec_Command "tart" ["list"; "--format"; "json"])]
              [] [VMState.mk 0 0 "vm" "" 0 "stopped"] (VMState.mk 0 0 "vm" "" 0 "running"))
    as (_ & HR & HS & _).
  - vm_compute. reflexivity.
  - reflexivity.
  - intros [].
  - split; [exact HR | exact HS].
Defined.

(** X18. On one listing, at most one of [Running], [Stopped] and
    [Suspended] answers true for a name, and each of them asks for a
    listing of its own. All three answer false for a machine whose state
    is none of the three words, as they do for a machine that is not
    listed. *)
Theorem state_predicates_exclusive (t : Tart) (name : string) (w : World) tr vms :
  List t ListOptions.zero w = (tr, Some (vms, None)) ->
  exists r s p,
    Running t name w = (tr, Some (r, None))
    /\ Stopped t name w = (tr, Some (s, None))
    /\ Suspended t name w = (tr, Some (p, None))
    /\ r && s = false /\ r && p = false /\ s && p = false.
Proof.
  intros HL.
  pose proof (List_State t name w tr vms HL) as HS.
  destruct (state_checks t name w tr _ HS) as (HR & HSt & HSu).
  generalize dependent (VMState.State (State_loop vms name VMState.zero)). intros st HR HSt HSu.
  exists (String.eqb st "running"), (String.eqb st "stopped"), (String.eqb st "suspended").
  split; [exact HR |]. split; [exact HSt |]. split; [exact HSu |].
  destruct (String.eqb_spec st "running") as [E |];
    destruct (String.eqb_spec st "stopped") as [E1 |];
    destruct (String.eqb_spec st "suspended") as [E2 |];
    cbn [andb]; auto; congruence.
Qed.

(** X18 on the sample listing, whose machine is stopped. *)
Lemma state_predicates_exclusive_witness :
  exists r s p,
    Running Sample.tart "vm"
      (Sample.system (Sample.hosting Sample.listing (Sample.exits "" "" 0)))
    = ([Spawned (exec_Command "tart" ["list"; "--format"; "json"]);
        Waited (exec_Command "tart" ["list"; "--format"; "json"])], Some (r, None))
    /\ Stopped Sample.tart "vm"
         (Sample.system (Sample.hosting Sample.listing (Sample.exits "" "" 0)))
       = ([Spawned (exec_Command "tart" ["list"; "--format"; "json"]);
           Waited (exec_Command "tart" ["list"; "--format"; "json"])], Some (s, None))
    /\ Suspended Sample.tart "vm"
         (Sample.system (Sample.hosting Sample.listing (Sample.exits "" "" 0)))
       = ([Spawned (exec_Command "tart" ["list"; "--format"; "json"]);
           Waited (exec_Command "tart" ["list"; "--format"; "json"])], Some (p, None))
    /\ r && s = false /\ r && p = false /\ s && p = false.
Proof.
  apply (state_predicates_exclusive Sample.tart "vm"
           (Sample.system (Sample.hosting Sample.listing (Sample.exits "" "" 0)))
           [Spawned (exec_Command "tart" ["list"; "--format"; "json"]);
            Waited (exec_Command "tart" ["list"; "--format"; "json"])]
           [VMState.mk 22 50 "vm" "local" 21 "stopped"]).
  reflexivity.
Defined.

(** ** Failures of the listing *)

(** X19. When the listing fails, every operation that begins with a
    listing stops there: [State], [Exists], [Running], [Stopped],
    [Suspended], [Run], [Create], [Clone] and [Import] return an error
    whose chain of wrapped errors ends in the same error as that of
    [List], with the zero result, and their events are those of the
    listing, so that no machine is started, created, cloned or imported. *)
Theorem listing_failure_stops (t : Tart) (name other path : string)
        (run_options : RunOptions.t) (create_options : CreateOptions.t)
        (clone_options : CloneOptions.t) (w : World) tr vms err :
  List t ListOptions.zero w = (tr, Some (vms, Some err)) ->
  (exists e, State t name w = (tr, Some (VMState.zero, Some e)) /\ cause e = cause err)
  /\ (exists e, Exists t name w = (tr, Some (false, Some e)) /\ cause e = cause err)
  /\ (exists e, Running t name w = (tr, Some (false, Some e)) /\ cause e = cause err)
  /\ (exists e, Stopped t name w = (tr, Some (false, Some e)) /\ cause e = cause err)
  /\ (exists e, Suspended t name w = (tr, Some (false, Some e)) /\ cause e = cause err)
  /\ (exists e, Run t name run_options w = (tr, Some (Some e)) /\ cause e = cause err)
  /\ (exists e, Create t name create_options w = (tr, Some (Some e)) /\ cause e = cause err)
  /\ (exists e, Clone t other name clone_options w = (tr, Some (Some e))
                /\ cause e = cause err)
  /\ (exists e, Import t path name w = (tr, Some (Some e)) /\ cause e = cause err).
Proof.
  intros HL.
  assert (HS : State t name w
               = (tr, Some (VMState.zero, Some (Errorf_w "failed to get VM state: " err "")))).
  { unfold State. cbv [bind]. rewrite HL. cbv [ret]. now rewrite app_nil_r. }
  repeat split.
  - eexists. split; [exact HS | reflexivity].
  - eexists. split; [unfold Exists; cbv [bind]; rewrite HL; cbv [ret]; now rewrite app_nil_r
             | reflexivity].
  - eexists. split; [unfold Running; cbv [bind]; rewrite HS; cbv [ret]; now rewrite app_nil_r
             | reflexivity].
  - eexists. split; [unfold Stopped; cbv [bind]; rewrite HS; cbv [ret]; now rewrite app_nil_r
             | reflexivity].
  - eexists. split; [unfold Suspended; cbv [bind]; rewrite HS; cbv [ret]; now rewrite app_nil_r
             | reflexivity].
  - eexists. split; [unfold Run; unfold bind at 1; rewrite HS; cbv [ret]; now rewrite app_nil_r
             | reflexivity].
  - eexists. split; [unfold Create; unfold bind at 1; rewrite HL; cbv [ret]; now rewrite app_nil_r
             | reflexivity].
  - eexists. split; [unfold Clone; unfold bind at 1; rewrite HL; cbv [ret]; now rewrite app_nil_r
             | reflexivity].
  - eexists. split; [unfold Import; unfold bind at 1; rewrite HL; cbv [ret]; now rewrite app_nil_r
             | reflexivity].
Qed.

(** X19 on a system whose [tart list] exits with status 1: the exit status
    is at the bottom of the error of [Run]. *)
Lemma listing_failure_stops_witness :
  exists e,
    Run Sample.tart "vm" RunOptions.zero Cases.refusing
    = ([Spawned (exec_Command "tart" ["list"; "--format"; "json"]);
        Waited (exec_Command "tart" ["list"; "--format"; "json"])], Some (Some e))
    /\ cause e = ExitError 1.
Proof.
  apply (listing_failure_stops Sample.tart "vm" "base" "vm.tvm" RunOptions.zero
           (CreateOptions.mk "" false 0) (CloneOptions.mk "" false 0) Cases.refusing
           [Spawned (exec_Command "tart" ["list"; "--format"; "json"]);
            Waited (exec_Command "tart" ["list"; "--format"; "json"])]
           []
           (wrapError "failed to list VMs: command failed: exit status 1, stderr: no such thing, output: "
              (wrapError "command failed: exit status 1, stderr: no such thing" (ExitError 1)))).
  reflexivity.
Defined.

(** ** The operations of one command *)

Lemma run_error_output (t : Tart) (args : list string) (w : World) tr out e :
  run t args w = (tr, Some (out, Some e)) -> out = "".
Proof.
  rewrite run_unfold. unfold run_spec.
  destruct (stdoutPipeErr _); [intros [= <- <- <-]; reflexivity |].
  destruct (stderrPipeErr _); [intros [= <- <- <-]; reflexivity |].
  destruct (startErr _); [intros [= <- <- <-]; reflexivity |].
  destruct (s_end (child_stdout _)); try discriminate;
    [| intros [= <- <- <-]; reflexivity].
  destruct (s_end (child_stderr _)); try discriminate;
    [| intros [= <- <- <-]; reflexivity].
  destruct (child_exit _) as [code |]; [| discriminate].
  destruct (code =? 0)%Z; [discriminate |].
  intros [= <- <- <-]. reflexivity.
Qed.

(** A call of [run] followed by the wrapping of its error. *)
Lemma run_wrapped (t : Tart) (args : list string) (pre : string) (w : World) :
  let m := '(output, err) <- run t args ;;
           match err with
           | Some err => ret (Some (Errorf_w pre err (", output: " ++ output)))
           | None => ret None
           end in
  fst (m w) = fst (run t args w) /\ wraps (snd (run t args w)) (snd (m w)).
Proof.
  cbv zeta. cbv [bind].
  pose proof (run_error_output t args w) as Hout.
  destruct (run t args w) as [tr [[output [err |]] |]]; cbv [ret]; cbn [fst snd wraps].
  - rewrite app_nil_r. split; [reflexivity |]. exists pre.
    rewrite (Hout tr output err eq_refl). reflexivity.
  - rewrite app_nil_r. split; reflexivity.
  - split; reflexivity.
Qed.

(** X20. [SetConfig], [Rename], [Export], [Suspend], [Stop], [Delete],
    [Prune], [Login], [Logout], [Push] and [Pull] have one contract. Each
    runs one command, that of its arguments, and has the events of that
    run and no others. It returns nil exactly when the run returned nil,
    and what the command printed is dropped. It does not return when the
    run does not. When the run returned an error, it returns an error that
    wraps it, and the output that its message announces is always empty,
    since [run] returns no output with an error. *)
Theorem perform_contract (t : Tart) (c : Call) (w : World) :
  fst (perform t c w) = fst (run t (arguments t c) w)
  /\ wraps (snd (run t (arguments t c) w)) (snd (perform t c w)).
Proof.
  destruct c; cbn [perform arguments]; apply run_wrapped.
Qed.

(** ** The operations that make a machine *)

(** A listing that succeeds, followed by a call of [run] that wraps its
    error. *)
Lemma listed_then_run (t : Tart) (args : list string) (pre : string) (w : World)
      (tr : Trace) (r : Trace * option (option error)) :
  r = (let (tr', b) :=
         ('(output, err) <- run t args ;;
          match err with
          | Some err => ret (Some (Errorf_w pre err (", output: " ++ output)))
          | None => ret None
          end) w in ((tr ++ tr')%list, b)) ->
  fst r = (tr ++ fst (run t args w))%list /\ wraps (snd (run t args w)) (snd r).
Proof.
  intros ->. destruct (run_wrapped t args pre w) as [H1 H2]. cbv zeta in H1, H2.
  destruct (bind _ _ w) as [tr' b]. cbn [fst snd] in *. rewrite <- H1. split; [reflexivity | exact H2].
Qed.

(** X21. [Create], [Clone] and [Import] guard the new name with one
    listing. When the listing holds a machine of that name they return
    "already exists" and start nothing else. When it does not, they run
    their command after the listing and return nil exactly when that run
    returned nil, an error that wraps its error otherwise. Nothing else is
    checked: [Clone] does not look for its source and [Import] does not
    look at its path. *)
Theorem making_guard (t : Tart) (c : Making) (w : World) tr vms :
  List t ListOptions.zero w = (tr, Some (vms, None)) ->
  if nameTaken vms (newName c)
  then make t c w
       = (tr, Some (Some (errorString ("VM with name " ++ newName c ++ " already exists"))))
  else fst (make t c w) = (tr ++ fst (run t (makingArgs c) w))%list
       /\ wraps (snd (run t (makingArgs c) w)) (snd (make t c w)).
Proof.
  intros HL.
  destruct c as [name options | sourceName name options | path name];
    cbn [make newName makingArgs].
  - remember (Create t name options w) as r eqn:Er.
    unfold Create in Er. unfold bind at 1 in Er. rewrite HL in Er.
    destruct (nameTaken vms name).
    + rewrite Er. cbv [ret]. now rewrite app_nil_r.
    + apply (listed_then_run t _ "failed to create VM: " w tr r Er).
  - remember (Clone t sourceName name options w) as r eqn:Er.
    unfold Clone in Er. unfold bind at 1 in Er. rewrite HL in Er.
    destruct (nameTaken vms name).
    + rewrite Er. cbv [ret]. now rewrite app_nil_r.
    + apply (listed_then_run t _ "failed to clone VM: " w tr r Er).
  - remember (Import t path name w) as r eqn:Er.
    unfold Import in Er. unfold bind at 1 in Er. rewrite HL in Er.
    destruct (nameTaken vms name).
    + rewrite Er. cbv [ret]. now rewrite app_nil_r.
    + apply (listed_then_run t _ "failed to import VM: " w tr r Er).
Qed.

(** X21 on the sample listing: an import under the name of the listed
    machine is refused after the listing. *)
Lemma making_guard_witness :
  Import Sample.tart "vm.tvm" "vm"
    (Sample.system (Sample.hosting Sample.listing (Sample.exits "" "" 0)))
  = ([Spawned (exec_Command "tart" ["list"; "--format"; "json"]);
      Waited (exec_Command "tart" ["list"; "--format"; "json"])],
     Some (Some (errorString "VM with name vm already exists"))).
Proof.
  apply (making_guard Sample.tart (MakeImport "vm.tvm" "vm")
           (Sample.system (Sample.hosting Sample.listing (Sample.exits "" "" 0)))
           [Spawned (exec_Command "tart" ["list"; "--format"; "json"]);
            Waited (exec_Command "tart" ["list"; "--format"; "json"])]
           [VMState.mk 22 50 "vm" "local" 21 "stopped"]).
  reflexivity.
Defined.

(** X22. [SetConfig] passes on four things only: the count of processors
    and the size of the memory when they are positive, the display when
    both of its sides are positive, and whether the MAC address is the word
    [random]. Two configurations that agree on these give the same
    command: the version, the system, the architecture and the two minima
    are never sent, and a MAC address other than [random] is dropped
    without an error. *)
Theorem SetConfig_passes_on (t : Tart) (name : string) (a b : VMConfig.t) (w : World) :
  VMConfig.CPUCount a = VMConfig.CPUCount b ->
  VMConfig.MemorySize a = VMConfig.MemorySize b ->
  VMConfig.Display a = VMConfig.Display b ->
  String.eqb (VMConfig.MACAddress a) "random" = String.eqb (VMConfig.MACAddress b) "random" ->
  SetConfig t name a w = SetConfig t name b w.
Proof.
  intros Hc Hm Hd Hr. unfold SetConfig, SetConfigArgs. rewrite Hc, Hm, Hd, Hr. reflexivity.
Qed.

(** X22 on two configurations that differ in every field that is not sent,
    one of them with a MAC address. *)
Lemma SetConfig_passes_on_witness :
  SetConfig Sample.tart "vm"
    (VMConfig.mk 1 "darwin" "arm64" 2 4 2048 8192 "7a:65:e4:3f:b0:11" (VMConfig.mkDisplay 1024 768))
    Cases.refusing
  = SetConfig Sample.tart "vm"
      (VMConfig.mk 0 "" "" 0 4 0 8192 "" (VMConfig.mkDisplay 1024 768))
      Cases.refusing.
Proof.
  apply (SetConfig_passes_on Sample.tart "vm"
           (VMConfig.mk 1 "darwin" "arm64" 2 4 2048 8192 "7a:65:e4:3f:b0:11"
              (VMConfig.mkDisplay 1024 768))
           (VMConfig.mk 0 "" "" 0 4 0 8192 "" (VMConfig.mkDisplay 1024 768))
           Cases.refusing); reflexivity.
Defined.

(** ** The whole of [Run] *)

Lemma HasPrefix_app_l (s r p : string) :
  HasPrefix s p = true -> HasPrefix (s ++ r) p = true.
Proof.
  revert s. induction p as [| a p IH]; intros s H; [destruct (s ++ r); reflexivity |].
  destruct s as [| c s]; [discriminate H |].
  cbn [HasPrefix append] in *. apply andb_true_iff in H. destruct H as [H1 H2].
  rewrite H1. cbn [andb]. apply IH. exact H2.
Qed.

Lemma Contains_cons (c : ascii) (s m : string) :
  Contains (String c s) m = HasPrefix (String c s) m || Contains s m.
Proof. reflexivity. Qed.

Lemma Contains_app_l (s r m : string) :
  Contains s m = true -> Contains (s ++ r) m = true.
Proof.
  induction s as [| c s IH]; intros H.
  - cbn in H. rewrite orb_false_r in H.
    destruct m as [| a m]; [| discriminate H].
    cbn [append]. destruct r; reflexivity.
  - rewrite Contains_cons in H. cbn [append]. rewrite Contains_cons.
    apply orb_true_iff in H. destruct H as [H | H].
    + change (String c (s ++ r)) with (String c s ++ r).
      rewrite (HasPrefix_app_l _ r m H). reflexivity.
    + rewrite (IH H). apply orb_true_r.
Qed.

Lemma Contains_app_r (s r m : string) :
  Contains r m = true -> Contains (s ++ r) m = true.
Proof.
  intros H. induction s as [| c s IH]; [exact H |].
  cbn [append]. rewrite Contains_cons, IH. apply orb_true_r.
Qed.

Lemma cutAfter_app (d : ascii) (data line rest : string) :
  cutAfter d data = Some (line, rest) -> data = line ++ rest.
Proof.
  revert line. induction data as [| c data IH]; intros line H; [discriminate H |].
  cbn [cutAfter] in H. destruct (Ascii.eqb c d).
  - injection H as <- <-. reflexivity.
  - destruct (cutAfter d data) as [[l r] |]; [| discriminate H].
    injection H as <- <-. cbn [append]. f_equal. apply IH. reflexivity.
Qed.

(** How the loop is left, read off the stream: by [return nil] only after
    a line with the marker, with the message printed; by [break] only at
    the end of the stream; by the other [return] only when the stream
    broke. *)
Lemma watch_exits (w : World) (fuel : nat) :
  forall (reader : Stream) tr exit,
    watch fuel reader w = (tr, Some exit) ->
    match exit with
    | Return None =>
        tr = [Printed "VM is up and running"]
        /\ Contains (s_data reader) marker = true
    | Break => tr = [] /\ s_end reader = AtEOF
    | Return (Some e) => tr = [] /\ exists m, s_end reader = Broken m
    | OutOfFuel => tr = []
    end.
Proof.
  induction fuel as [| fuel IH]; intros reader tr exit H.
  - cbn in H. injection H as <- <-. reflexivity.
  - cbn [watch] in H. unfold ReadString in H.
    destruct (cutAfter newline (s_data reader)) as [[line rest] |] eqn:Ec.
    + cbv [bind ret] in H. cbn [app] in H.
      pose proof (cutAfter_app _ _ _ _ Ec) as Hd.
      destruct (Contains line marker) eqn:Em.
      * cbv [emit ret] in H. cbn in H. injection H as <- <-.
        split; [reflexivity |]. rewrite Hd. apply Contains_app_l. exact Em.
      * destruct (watch fuel {| s_data := rest; s_end := s_end reader |} w)
          as [tr' r] eqn:Ew.
        cbn [app] in H. injection H as <- ->.
        specialize (IH _ _ _ Ew). cbn [s_data s_end] in IH.
        destruct exit as [| [e |] |]; try exact IH.
        destruct IH as [IH1 IH2]. split; [exact IH1 |].
        rewrite Hd. apply Contains_app_r. exact IH2.
    + destruct (s_end reader) as [| m |] eqn:Ee.
      * cbv [bind ret] in H. cbn in H. injection H as <- <-. split; reflexivity.
      * cbv [bind ret] in H. cbn in H. injection H as <- <-.
        split; [reflexivity |]. exists m. reflexivity.
      * cbv [bind block] in H. discriminate H.
Qed.

(** X23. [Run] returns nil only for a machine that it found and started.
    When it returns nil, [State] had returned a value of the name asked
    for whose state is not [running]; the pipe was made and the process
    started; and either the standard output of the process holds the
    marker "VM is up", the message was printed and the process was not
    waited for, or the standard output ended without it, the process was
    waited for and exited with status zero. *)
Theorem Run_nil_sound (t : Tart) (name : string) (options : RunOptions.t)
        (w : World) tr :
  Run t name options w = (tr, Some None) ->
  exists tr0 s,
    State t name w = (tr0, Some (s, None))
    /\ VMState.State s <> "running"
    /\ VMState.Name s = name
    /\ stdoutPipeErr (childOf t (RunArgs name options) w) = None
    /\ startErr (childOf t (RunArgs name options) w) = None
    /\ ((Contains (s_data (child_stdout (childOf t (RunArgs name options) w))) marker = true
         /\ tr = (tr0 ++ [Spawned (cmdOf t (RunArgs name options) w);
                          Printed "VM is up and running"])%list)
        \/ (s_end (child_stdout (childOf t (RunArgs name options) w)) = AtEOF
            /\ child_exit (childOf t (RunArgs name options) w) = Some 0%Z
            /\ tr = (tr0 ++ [Spawned (cmdOf t (RunArgs name options) w);
                             Waited (cmdOf t (RunArgs name options) w)])%list)).
Proof.
  intros H. destruct (State t name w) as [tr0 [[s [e |]] |]] eqn:HS.
  - unfold Run in H. unfold bind at 1 in H. rewrite HS in H. discriminate H.
  - destruct (String.eqb (VMState.State s) "running") eqn:Hrun.
    { unfold Run in H. unfold bind at 1 in H. rewrite HS, Hrun in H. discriminate H. }
    destruct (String.eqb (VMState.Name s) name) eqn:Hname.
    2:{ unfold Run in H. unfold bind at 1 in H. rewrite HS, Hrun, Hname in H.
        discriminate H. }
    rewrite (Run_unfold t name options w tr0 s HS Hrun Hname) in H.
    exists tr0, s. split; [reflexivity |].
    split; [apply String.eqb_neq; exact Hrun |].
    split; [apply String.eqb_eq; exact Hname |].
    unfold Run_launch in H. unfold childOf.
    destruct (stdoutPipeErr _); [discriminate H |].
    destruct (startErr _); [discriminate H |].
    split; [reflexivity |]. split; [reflexivity |].
    pose proof (watch_exits w (watch_fuel (child_stdout
                  (w_spawn w (cmdOf t (RunArgs name options) w))))
                  (child_stdout (w_spawn w (cmdOf t (RunArgs name options) w)))) as Hw.
    destruct (watch _ _ w) as [trw [[| err |] |]]; cbn [fst snd] in H;
      try discriminate H.
    + destruct (Hw trw Break eq_refl) as [-> He].
      destruct (child_exit _) as [code |]; cbn [fst snd] in H; [| discriminate H].
      destruct (code =? 0)%Z eqn:Ec; [| discriminate H].
      apply Z.eqb_eq in Ec. subst code.
      injection H as <-. right. split; [exact He |]. split; reflexivity.
    + injection H as <- ->. destruct (Hw trw (Return None) eq_refl) as [-> Hm].
      left. split; [exact Hm | reflexivity].
  - unfold Run in H. unfold bind at 1 in H. rewrite HS in H. discriminate H.
Qed.

(** X23 on a system that lists a stopped machine and whose [tart run]
    ends without a word and exits with zero. *)
Lemma Run_nil_sound_witness :
  exists tr0 s,
    State Sample.tart "vm"
      (Sample.system (Sample.hosting Sample.listing (Sample.exits "" "" 0)))
    = (tr0, Some (s, None))
    /\ VMState.State s <> "running"
    /\ VMState.Name s = "vm".
Proof.
  destruct (Run_nil_sound Sample.tart "vm" RunOptions.zero
              (Sample.system (Sample.hosting Sample.listing (Sample.exits "" "" 0)))
              [Spawned (exec_Command "tart" ["list"; "--format"; "json"]);
               Waited (exec_Command "tart" ["list"; "--format"; "json"]);
               Spawned (exec_Command "tart" ["run"; "vm"]);
               Waited (exec_Command "tart" ["run"; "vm"])])
    as (tr0 & s & H1 & H2 & H3 & _).
  - vm_compute. reflexivity.
  - exists tr0, s. split; [exact H1 |]. split; [exact H2 | exact H3].
Defined.

Lemma starts_app (a b : Trace) : starts (a ++ b)%list = (starts a ++ starts b)%list.
Proof.
  induction a as [| e a IH]; [reflexivity |].
  destruct e; cbn [app starts]; rewrite IH; reflexivity.
Qed.

Lemma watch_starts (w : World) (fuel : nat) :
  forall reader, starts (fst (watch fuel reader w)) = [].
Proof.
  induction fuel as [| fuel IH]; intros reader; [reflexivity |].
  cbn [watch]. unfold ReadString.
  destruct (cutAfter newline (s_data reader)) as [[line rest] |].
  - cbv [bind ret]. cbn [app].
    destruct (Contains line marker); [reflexivity |].
    specialize (IH {| s_data := rest; s_end := s_end reader |}).
    destruct (watch fuel _ w) as [tr' r]. exact IH.
  - destruct (s_end reader); reflexivity.
Qed.

Lemma run_success_events (t : Tart) (args : list string) (w : World) tr out :
  run t args w = (tr, Some (out, None)) ->
  tr = [Spawned (cmdOf t args w); Waited (cmdOf t args w)].
Proof.
  rewrite run_unfold. unfold run_spec.
  destruct (stdoutPipeErr _); [discriminate |].
  destruct (stderrPipeErr _); [discriminate |].
  destruct (startErr _); [discriminate |].
  destruct (s_end (child_stdout _)); try discriminate.
  destruct (s_end (child_stderr _)); try discriminate.
  destruct (child_exit _) as [code |]; [| discriminate].
  destruct (code =? 0)%Z; [| discriminate].
  intros [= <- <-]. reflexivity.
Qed.

Lemma run_starts_once (t : Tart) (args : list string) (w : World) :
  map Args (starts (fst (run t args w))) = []
  \/ map Args (starts (fst (run t args w))) = [args].
Proof.
  rewrite run_unfold. unfold run_spec.
  pose proof (cmdOf_Args t args w) as HA.
  destruct (stdoutPipeErr _); [left; reflexivity |].
  destruct (stderrPipeErr _); [left; reflexivity |].
  destruct (startErr _); [right; cbn; now rewrite HA |].
  destruct (s_end (child_stdout _)); try (right; cbn; now rewrite HA).
  destruct (s_end (child_stderr _)); try (right; cbn; now rewrite HA).
  destruct (child_exit _) as [code |]; [| right; cbn; now rewrite HA].
  destruct (code =? 0)%Z; right; cbn; now rewrite HA.
Qed.

Lemma List_starts_once (t : Tart) (w : World) :
  map Args (starts (fst (List t ListOptions.zero w))) = []
  \/ map Args (starts (fst (List t ListOptions.zero w))) = [["list"; "--format"; "json"]].
Proof.
  unfold List. cbn [invalidSource ListOptions.zero ListOptions.Source].
  pose proof (run_starts_once t (ListArgs ListOptions.zero) w) as H.
  cbv [bind]. destruct (run t (ListArgs ListOptions.zero) w) as [tr [[output [err |]] |]];
    cbn [fst] in *.
  - cbv [ret]. rewrite app_nil_r. exact H.
  - destruct (Unmarshal output) as [vms [err |]]; cbv [ret]; rewrite app_nil_r; exact H.
  - exact H.
Qed.

Lemma List_success_starts (t : Tart) (w : World) tr vms :
  List t ListOptions.zero w = (tr, Some (vms, None)) ->
  map Args (starts tr) = [["list"; "--format"; "json"]].
Proof.
  intros H. destruct (List_success t ListOptions.zero w tr vms H) as (_ & output & Hr & _).
  rewrite (run_success_events _ _ _ _ _ Hr). cbn. now rewrite cmdOf_Args.
Qed.

(** X24. Whatever the system answers, [Run] starts at most two processes
    and always in this order: [tart list], and then [tart run] with the
    arguments of the options. It never starts the machine without a
    listing that succeeded before, and never starts anything else. *)
Theorem Run_starts_in_order (t : Tart) (name : string) (options : RunOptions.t) (w : World) :
  let started := map Args (starts (trace_of (Run t name options) w)) in
  started = []
  \/ started = [["list"; "--format"; "json"]]
  \/ started = [["list"; "--format"; "json"]; RunArgs name options].
Proof.
  cbv zeta. unfold trace_of.
  destruct (Run t name options w) as [tr res] eqn:H. cbn [fst].
  pose proof (List_starts_once t w) as HL.
  assert (Hshort : forall tr', tr' = fst (List t ListOptions.zero w) -> tr = tr' ->
            map Args (starts tr) = []
            \/ map Args (starts tr) = [["list"; "--format"; "json"]]
            \/ map Args (starts tr)
               = [["list"; "--format"; "json"]; RunArgs name options]).
  { intros tr' -> ->. destruct HL as [HL | HL]; rewrite HL; auto. }
  clear HL.
  destruct (List t ListOptions.zero w) as [tr0 [[vms [e |]] |]] eqn:EL; cbn [fst] in *.
  - assert (HS : State t name w
                 = (tr0, Some (VMState.zero,
                               Some (Errorf_w "failed to get VM state: " e "")))).
    { unfold State. cbv [bind]. rewrite EL. cbv [ret]. now rewrite app_nil_r. }
    unfold Run in H. unfold bind at 1 in H. rewrite HS in H. cbv [ret] in H.
    rewrite app_nil_r in H. injection H as <- _. apply (Hshort tr0); reflexivity.
  - pose proof (List_State t name w tr0 vms EL) as HS.
    pose proof (List_success_starts t w tr0 vms EL) as HLs.
    destruct (String.eqb (VMState.State (State_loop vms name VMState.zero)) "running")
      eqn:Hrun.
    { unfold Run in H. unfold bind at 1 in H. rewrite HS, Hrun in H. cbv [ret] in H.
      rewrite app_nil_r in H. injection H as <- _. apply (Hshort tr0); reflexivity. }
    destruct (String.eqb (VMState.Name (State_loop vms name VMState.zero)) name) eqn:Hname.
    2:{ unfold Run in H. unfold bind at 1 in H. rewrite HS, Hrun, Hname in H.
        cbv [ret] in H. cbn [negb] in H. rewrite app_nil_r in H. injection H as <- _.
        apply (Hshort tr0); reflexivity. }
    rewrite (Run_unfold t name options w tr0 _ HS Hrun Hname) in H.
    injection H as <- _.
    rewrite starts_app, map_app, HLs. unfold Run_launch.
    pose proof (cmdOf_Args t (RunArgs name options) w) as HA.
    destruct (stdoutPipeErr _); [right; left; reflexivity |].
    destruct (startErr _); [right; right; cbn; now rewrite HA |].
    pose proof (watch_starts w (watch_fuel (child_stdout
                  (w_spawn w (cmdOf t (RunArgs name options) w))))
                  (child_stdout (w_spawn w (cmdOf t (RunArgs name options) w)))) as Hw.
    destruct (watch _ _ w) as [trw [[| err |] |]]; cbn [fst] in *.
    + destruct (child_exit _) as [code |]; cbn [fst starts map]; rewrite starts_app, Hw;
        right; right; cbn; now rewrite HA.
    + right; right; cbn [starts map]. rewrite Hw. cbn. now rewrite HA.
    + right; right; cbn [starts map]. rewrite Hw. cbn. now rewrite HA.
    + right; right; cbn [starts map]. rewrite Hw. cbn. now rewrite HA.
  - assert (HS : State t name w = (tr0, None)).
    { unfold State. cbv [bind]. rewrite EL. reflexivity. }
    unfold Run in H. unfold bind at 1 in H. rewrite HS in H. injection H as <- _.
    apply (Hshort tr0); reflexivity.
Qed.

(** ** The queries that return text *)

(** X25. [IP] and [GetConfig] run one command each and have its events.
    When the run returned nil they return the output, [IP] after trimming
    and [GetConfig] as it is. When the run returned an error they return
    the empty text and an error that wraps it, whose message announces an
    output that is always empty. They do not return when the run does
    not. *)
Theorem query_contract (t : Tart) (name resolver format : string) (wait : Z) (w : World) :
  (fst (IP t name wait resolver w) = fst (run t (IPArgs name wait resolver) w)
   /\ match snd (run t (IPArgs name wait resolver) w) with
      | None => snd (IP t name wait resolver w) = None
      | Some (output, None) =>
          snd (IP t name wait resolver w) = Some (Unicode.TrimSpace output, None)
      | Some (_, Some err) =>
          exists pre,
            snd (IP t name wait resolver w)
            = Some ("", Some (wrapError (pre ++ Error err ++ ", output: ") err))
      end)
  /\ (fst (GetConfig t name format w) = fst (run t (GetConfigArgs name format) w)
      /\ match snd (run t (GetConfigArgs name format) w) with
         | None => snd (GetConfig t name format w) = None
         | Some (output, None) => snd (GetConfig t name format w) = Some (output, None)
         | Some (_, Some err) =>
             exists pre,
               snd (GetConfig t name format w)
               = Some ("", Some (wrapError (pre ++ Error err ++ ", output: ") err))
         end).
Proof.
  split.
  - unfold IP. cbv [bind].
    pose proof (run_error_output t (IPArgs name wait resolver) w) as Hout.
    destruct (run t (IPArgs name wait resolver) w) as [tr [[output [err |]] |]];
      cbv [ret]; cbn [fst snd]; rewrite ?app_nil_r.
    + split; [reflexivity |]. exists "failed to get VM IP: ".
      rewrite (Hout tr output err eq_refl). reflexivity.
    + split; reflexivity.
    + split; reflexivity.
  - unfold GetConfig. cbv [bind].
    pose proof (run_error_output t (GetConfigArgs name format) w) as Hout.
    destruct (run t (GetConfigArgs name format) w) as [tr [[output [err |]] |]];
      cbv [ret]; cbn [fst snd]; rewrite ?app_nil_r.
    + split; [reflexivity |]. exists "failed to get VM configuration: ".
      rewrite (Hout tr output err eq_refl). reflexivity.
    + split; reflexivity.
    + split; reflexivity.
Qed.

(** ** The range of the integers *)

Lemma ParseInt_itoa_high (p : positive) :
  (2 ^ 63 <= Zpos p)%Z -> Decode.ParseInt (itoa (Zpos p)) = None.
Proof.
  intros Hr. unfold itoa. cbn [Z.to_int NilZero.string_of_int].
  pose proof (DecimalPos.Unsigned.to_uint_nonnil p) as Hn.
  rewrite (IntFacts.NilZero_string_of_uint _ Hn).
  destruct (IntFacts.string_of_uint_digit _ Hn) as (c & r & E & Hc).
  rewrite E, (IntFacts.ParseInt_unsigned c r Hc), <- E.
  rewrite IntFacts.digitsValue_string_of_uint, IntFacts.uintValue_to_uint.
  assert (H2 : (Zpos p <? 2 ^ 63)%Z = false) by (apply Z.ltb_ge; lia).
  rewrite H2, andb_false_r. reflexivity.
Qed.

Lemma ParseInt_itoa_low (p : positive) :
  (Zneg p < - 2 ^ 63)%Z -> Decode.ParseInt (itoa (Zneg p)) = None.
Proof.
  intros Hr. unfold itoa. cbn [Z.to_int NilZero.string_of_int].
  pose proof (DecimalPos.Unsigned.to_uint_nonnil p) as Hn.
  rewrite (IntFacts.NilZero_string_of_uint _ Hn).
  destruct (IntFacts.string_of_uint_digit _ Hn) as (c & r & E & Hc).
  unfold Decode.ParseInt. cbn [Ascii.eqb Bool.eqb]. rewrite E, <- E.
  rewrite IntFacts.digitsValue_string_of_uint, IntFacts.uintValue_to_uint.
  assert (H1 : (- 2 ^ 63 <=? - Zpos p)%Z = false) by (apply Z.leb_gt; lia).
  rewrite H1. reflexivity.
Qed.

(** An integer outside the range of a Go [int], printed in decimal, is
    not read by [ParseInt]. *)
Lemma ParseInt_itoa_outside (n : Z) :
  ~ VMState.int_range n -> Decode.ParseInt (itoa n) = None.
Proof.
  unfold VMState.int_range. intros H. destruct n as [| p | p].
  - exfalso. apply H. lia.
  - apply ParseInt_itoa_high. lia.
  - apply ParseInt_itoa_low. lia.
Qed.

Lemma forallb_In_false {A : Type} (p : A -> bool) (l : list A) (x : A) :
  In x l -> p x = false -> forallb p l = false.
Proof.
  intros Hin Hx. destruct (forallb p l) eqn:E; [| reflexivity].
  rewrite forallb_forall in E. rewrite (E x Hin) in Hx. discriminate Hx.
Qed.

(** X8. The integers of a listing are never wrapped around. When an
    object of the array gives a size, under any spelling of its key, as
    the decimal literal of an integer outside the range of a 64-bit Go
    [int], [List] returns an error and no machine at all; and the
    integers of every machine that [List] does return are within that
    range. *)
Theorem List_in_range (t : Tart) (config : ListOptions.t) (w : World) tr output
        (elems : list JSON.value) :
  invalidSource config = None ->
  run t (ListArgs config) w = (tr, Some (output, None)) ->
  JSON.parse output = Some (JSON.Array elems) ->
  (forall ms key f n,
     In (JSON.Object ms) elems ->
     In (key, JSON.Number (itoa n)) ms ->
     Decode.lookupField key = Some f ->
     Decode.isIntField f = true ->
     ~ VMState.int_range n ->
     exists err, List t config w = (tr, Some ([], Some err)))
  /\ (forall vms, List t config w = (tr, Some (vms, None)) -> Forall VMState.wf vms).
Proof.
  intros Hs Hr Hp. rewrite (List_unfold t config w tr output Hs Hr).
  unfold Unmarshal. rewrite Hp. split.
  - intros ms key f n Hobj Hmem Hkey Hint Hout.
    assert (Hfit : forallb member_fits ms = false).
    { apply (forallb_In_false member_fits ms _ Hmem).
      unfold member_fits. cbn [fst snd]. rewrite Hkey. cbn [fits].
      rewrite (ParseInt_itoa_outside n Hout). apply andb_false_r. }
    assert (Hbad : snd (UnmarshalJSON VMState.zero (JSON.Object ms)) <> None).
    { intros H. apply (proj1 (object_success ms VMState.zero None)) in H; destruct H as [_ H]. congruence. }
    pose proof (Unmarshal_array_error elems _ Hobj Hbad) as He.
    destruct (Unmarshal_array elems) as [vs [err |]]; [eauto | contradiction].
  - intros vms. pose proof (Unmarshal_array_wf elems) as Hwf.
    destruct (Unmarshal_array elems) as [vs [err |]]; [discriminate |].
    intros [= <-]. exact Hwf.
Qed.

(** X8 on a listing whose machine has a disk of 2^63. *)
Lemma List_in_range_witness :
  exists err,
    List Sample.tart ListOptions.zero
         (Sample.system (Sample.hosting Cases.overflowing (Sample.exits "" "" 0)))
    = ([Spawned (exec_Command "tart" ["list"; "--format"; "json"]);
        Waited (exec_Command "tart" ["list"; "--format"; "json"])],
       Some ([], Some err)).
Proof.
  refine (proj1 (List_in_range Sample.tart ListOptions.zero
                   (Sample.system (Sample.hosting Cases.overflowing (Sample.exits "" "" 0)))
                   [Spawned (exec_Command "tart" ["list"; "--format"; "json"]);
                    Waited (exec_Command "tart" ["list"; "--format"; "json"])]
                   Cases.overflowing
                   [JSON.Object [("Name", JSON.Str "vm");
                                 ("Disk", JSON.Number "9223372036854775808")]]
                   eq_refl eq_refl _)
                [("Name", JSON.Str "vm"); ("Disk", JSON.Number "9223372036854775808")]
                "Disk" Decode.FDisk (2 ^ 63)%Z _ _ eq_refl eq_refl _).
  - vm_compute. reflexivity.
  - left. reflexivity.
  - right. left. reflexivity.
  - unfold VMState.int_range. lia.
Defined.

(** ** What a listing decodes to *)

Lemma Field_eqb_eq (f g : Decode.Field) : Field_eqb f g = true <-> f = g.
Proof. destruct f, g; cbn; split; intros H; try reflexivity; discriminate H. Qed.

(** What [Decode.object] leaves in a field, when every member fits: the
    value the object says, or the value the field had. *)
Lemma object_said (f : Decode.Field) (ms : list (string * JSON.value)) :
  forallb member_fits ms = true ->
  forall (v : VMState.t) saved,
    match said f ms with
    | Some y => denotes y = Some (field f (fst (Decode.object ms v saved)))
    | None => field f (fst (Decode.object ms v saved)) = field f v
    end.
Proof.
  induction ms as [| [k x] ms IH]; intros Hfit v saved; [reflexivity |].
  cbn [forallb] in Hfit. apply andb_true_iff in Hfit. destruct Hfit as [Hm Hrest].
  specialize (IH Hrest). cbn [said Decode.object]. unfold sets, member_fits in *.
  cbn [fst snd] in *.
  destruct (Decode.lookupField k) as [g |].
  - pose proof (DecodeFacts.store_other g f x v) as Hother.
    pose proof (store_text g) as Htext. pose proof (store_integer g) as Hint.
    destruct (Decode.store g x v) as [v' err] eqn:Est. cbn [fst] in Hother.
    specialize (IH v' (Decode.saveError saved err)).
    destruct (said f ms) as [y |]; [exact IH |]. rewrite IH.
    destruct (Field_eqb g f) eqn:Egf.
    + apply Field_eqb_eq in Egf. subst g.
      destruct x as [| b | lit | s | elems | ms']; cbn [fits] in Hm; try discriminate Hm.
      * cbn in Est. injection Est as <- _. reflexivity.
      * apply andb_true_iff in Hm. destruct Hm as [Hi Hp].
        destruct (Decode.ParseInt lit) as [n |] eqn:En; [| discriminate Hp].
        cbn [denotes]. rewrite En. f_equal.
        specialize (Hint lit n v Hi En). rewrite Est in Hint. symmetry. exact Hint.
      * apply negb_true_iff in Hm. cbn [denotes]. f_equal.
        specialize (Htext s v Hm). rewrite Est in Htext. symmetry. exact Htext.
    + assert (Hne : g <> f).
      { intros E. apply Field_eqb_eq in E. congruence. }
      destruct x; apply Hother; exact Hne.
  - specialize (IH v saved). destruct (said f ms) as [y |]; exact IH.
Qed.

Lemma UnmarshalJSON_describes (x : JSON.value) :
  element_fits x = true ->
  exists v, UnmarshalJSON VMState.zero x = (v, None) /\ describes x v.
Proof.
  destruct x as [| b | lit | s | elems | ms]; cbn [element_fits]; try discriminate.
  - intros _. exists VMState.zero. split; reflexivity.
  - intros Hfit. cbn [UnmarshalJSON].
    pose proof (proj2 (object_success ms VMState.zero None) (conj eq_refl Hfit)) as Hok.
    pose proof (fun f => object_said f ms Hfit VMState.zero None) as Hsaid.
    destruct (Decode.object ms VMState.zero None) as [v err]. cbn [fst snd] in *.
    subst err. exists v. split; [reflexivity | exact Hsaid].
Qed.

Lemma UnmarshalJSON_misfit (x : JSON.value) :
  element_fits x = false -> snd (UnmarshalJSON VMState.zero x) <> None.
Proof.
  destruct x as [| b | lit | s | elems | ms]; cbn [element_fits UnmarshalJSON snd];
    try discriminate.
  intros Hfit H. apply object_success in H. destruct H as [_ H]. congruence.
Qed.

Lemma Unmarshal_array_describes (elems : list JSON.value) :
  forallb element_fits elems = true ->
  exists vms, Unmarshal_array elems = (vms, None)
              /\ length vms = length elems /\ Forall2 describes elems vms.
Proof.
  induction elems as [| x elems IH]; intros Hfit.
  - exists []. repeat split. constructor.
  - cbn [forallb] in Hfit. apply andb_true_iff in Hfit. destruct Hfit as [Hx Hrest].
    destruct (UnmarshalJSON_describes x Hx) as (v & Ev & Hv).
    destruct (IH Hrest) as (vms & Evms & Hlen & Hall).
    exists (v :: vms). cbn [Unmarshal_array]. rewrite Ev, Evms.
    split; [reflexivity |]. split; [cbn [length]; now rewrite Hlen |].
    constructor; assumption.
Qed.

Lemma Unmarshal_array_misfit (elems : list JSON.value) :
  forallb element_fits elems = false -> snd (Unmarshal_array elems) <> None.
Proof.
  intros H.
  assert (Hex : exists x, In x elems /\ element_fits x = false).
  { induction elems as [| y elems IH]; [discriminate H |].
    cbn [forallb] in H. apply andb_false_iff in H. destruct H as [H | H].
    - exists y. split; [left; reflexivity | exact H].
    - destruct (IH H) as (x & Hin & Hx). exists x. split; [right; exact Hin | exact Hx]. }
  destruct Hex as (x & Hin & Hx).
  apply (Unmarshal_array_error elems x Hin). apply UnmarshalJSON_misfit. exact Hx.
Qed.

(** C8, at the payload where it fails. [null] is a JSON text and not a
    sequence of descriptors; [json.Unmarshal] leaves the nil slice as it is
    and answers nil, and [List] returns the empty sequence without an
    error. *)
Lemma List_null_is_empty :
  List Sample.tart ListOptions.zero
       (Sample.system (Sample.hosting "null" (Sample.exits "" "" 0)))
  = ([Spawned (exec_Command "tart" ["list"; "--format"; "json"]);
      Waited (exec_Command "tart" ["list"; "--format"; "json"])],
     Some ([], None)).
Proof. vm_compute. reflexivity. Qed.

(** C8, amended. Let [tart list] succeed with the payload [output]; what
    [List] returns is decided by the payload, for every payload.
    If it is a JSON array of K descriptors, each of them [null] or an
    object in which every member that names a field, under any spelling
    the decoder takes and in any order, holds [null], a text for a text
    field or a 64-bit integer literal for an integer field, [List] returns
    exactly K machines and no error, and the machine at each place has in
    every field the value that the last member which gives that field a
    value holds, integers as their literals read, and the zero value when
    no member gives it one. In particular the records that print the six
    fields of machines with integers of a Go [int] give back those
    machines, field by field.
    If it is an array with an element that is not such a descriptor, at
    any place, or a JSON text that is neither an array nor [null], or no
    JSON text at all, [List] returns an error and no machine.
    If it is [null], [List] returns the empty sequence and no error. *)
Theorem List_decodes (t : Tart) (config : ListOptions.t) (w : World) tr output :
  invalidSource config = None ->
  run t (ListArgs config) w = (tr, Some (output, None)) ->
  match JSON.parse output with
  | Some (JSON.Array elems) =>
      if forallb element_fits elems
      then exists vms,
             List t config w = (tr, Some (vms, None))
             /\ length vms = length elems
             /\ Forall2 describes elems vms
      else exists err, List t config w = (tr, Some ([], Some err))
  | Some JSON.Null => List t config w = (tr, Some ([], None))
  | Some _ => exists err, List t config w = (tr, Some ([], Some err))
  | None => exists err, List t config w = (tr, Some ([], Some err))
  end
  /\ (forall keys vms,
        names_fields keys ->
        Forall VMState.wf vms ->
        JSON.parse output = Some (JSON.Array (map (record keys) vms)) ->
        List t config w = (tr, Some (vms, None)) /\ length vms = length (map (record keys) vms)).
Proof.
  intros Hs Hr. rewrite (List_unfold t config w tr output Hs Hr).
  unfold Unmarshal. split.
  - destruct (JSON.parse output) as [[| b | lit | s | elems | ms] |];
      try reflexivity; try (eexists; reflexivity).
    destruct (forallb element_fits elems) eqn:Hfit.
    + destruct (Unmarshal_array_describes elems Hfit) as (vms & E & Hlen & Hall).
      exists vms. rewrite E. split; [reflexivity |]. split; assumption.
    + pose proof (Unmarshal_array_misfit elems Hfit) as He.
      destruct (Unmarshal_array elems) as [vs [err |]]; [eauto | contradiction].
  - intros keys vms Hk Hwf Hp. rewrite Hp.
    rewrite (Unmarshal_array_records keys vms Hk Hwf).
    split; [reflexivity | now rewrite length_map].
Qed.

(** C8 on a sample system: the listing of one machine, with the keys and
    the numbers [tart list] prints, gives that machine. *)
Lemma List_decodes_witness :
  List Sample.tart ListOptions.zero
       (Sample.system (Sample.hosting Sample.listing (Sample.exits "" "" 0)))
  = ([Spawned (exec_Command "tart" ["list"; "--format"; "json"]);
      Waited (exec_Command "tart" ["list"; "--format"; "json"])],
     Some ([VMState.mk 22 50 "vm" "local" 21 "stopped"], None)).
Proof.
  refine (proj1 (proj2 (List_decodes Sample.tart ListOptions.zero
                   (Sample.system (Sample.hosting Sample.listing (Sample.exits "" "" 0)))
                   [Spawned (exec_Command "tart" ["list"; "--format"; "json"]);
                    Waited (exec_Command "tart" ["list"; "--format"; "json"])]
                   Sample.listing eq_refl eq_refl)
                capitalized [VMState.mk 22 50 "vm" "local" 21 "stopped"]
                names_fields_capitalized _ _)).
  - repeat constructor; cbn; lia.
  - vm_compute. reflexivity.
Defined.
